(** * Protege.ai data model: schema, write semantics and integrity contracts

    The program under study (src/models.py) is a declarative SQLAlchemy
    schema: six Python enumerations and twenty mapped classes, each a list of
    [Column] declarations (type, nullability, uniqueness, default, foreign key
    with its [ondelete] action), table-level [UniqueConstraint]s and ORM
    [relationship]s with their cascade options.  It has no function bodies:
    what it does is what its declarations make the database and the ORM do.

    The embedding keeps the declarations as data, one Rocq definition per
    declaration of the source ([columns], [table_args], [relationships], the
    enumerations), and interprets them:
    - [insert] and [update] give the column declarations the meaning they
      have on SQLite, the engine of the package's example
      ([create_engine("sqlite:///protege_ai.db")]), with its foreign keys
      enforced: the type of each value, NOT NULL, defaults, PRIMARY KEY and
      UNIQUE, FOREIGN KEY.  SQLite enforces neither the length of a
      [String(n)] nor the precision of a [Numeric(p, s)], holds a [Numeric]
      as a binary float, and has no enumeration type;
    - [db_delete] gives [ForeignKey(..., ondelete=...)] the meaning of
      ON DELETE CASCADE and ON DELETE SET NULL;
    - [session_delete] gives [relationship(..., cascade=...)] the meaning the
      ORM unit of work gives it: the objects reached through relationships
      with a delete cascade are deleted one by one, children first, each by
      a DELETE statement;
    - [bind_processor] and [result_processor] give [Enum(cls)] its meaning:
      declared without [values_callable], it stores the member {e names};
      declared without [validate_strings] and without [create_constraint],
      it lets any string through to the column.

    Definitions come first, then the general theory (what every DELETE
    preserves, what every write checks, integrity of every reachable state),
    then the results about the ten claims C1..C10, then their instances on a
    small populated database, [sample_db]. *)

From Stdlib Require Import ZArith List Ascii String Bool Lia.
Import ListNotations.
Open Scope string_scope.
Open Scope Z_scope.

(* ------------------------------------------------------------------ *)
(** ** Enumerations (models.py, lines 62-113) *)

Inductive MaritalStatus := SINGLE | MARRIED | DIVORCED | WIDOWED | OTHER.
Inductive AccountType := CHECKING | SAVINGS | PREPAID | PAYMENT.
Inductive CardProductType := CREDIT | DEBIT | HYBRID.
Inductive CreditProductType := LOAN | FINANCING | OVERDRAFT.
Inductive InvestmentInstrumentType :=
  FUND | FIXED_INCOME_BANK | FIXED_INCOME_PRIVATE | EQUITY | TREASURY.
Inductive PaymentStatus := PENDING | COMPLETED | FAILED | CANCELLED.

(** What [enum.Enum] gives every subclass: the members in definition order,
    and for each member its [name] (the identifier) and its [value]. *)
Class PyEnum (E : Type) := {
  members : list E;
  name : E -> string;
  value : E -> string
}.

#[export] Instance MaritalStatus_enum : PyEnum MaritalStatus := {|
  members := [SINGLE; MARRIED; DIVORCED; WIDOWED; OTHER];
  name m := match m with
            | SINGLE => "SINGLE" | MARRIED => "MARRIED" | DIVORCED => "DIVORCED"
            | WIDOWED => "WIDOWED" | OTHER => "OTHER" end;
  value m := match m with
             | SINGLE => "single" | MARRIED => "married"
             | DIVORCED => "divorced" | WIDOWED => "widowed"
             | OTHER => "other" end
|}.

#[export] Instance AccountType_enum : PyEnum AccountType := {|
  members := [CHECKING; SAVINGS; PREPAID; PAYMENT];
  name m := match m with
            | CHECKING => "CHECKING" | SAVINGS => "SAVINGS"
            | PREPAID => "PREPAID" | PAYMENT => "PAYMENT" end;
  value m := match m with
             | CHECKING => "checking" | SAVINGS => "savings"
             | PREPAID => "prepaid" | PAYMENT => "payment" end
|}.

#[export] Instance CardProductType_enum : PyEnum CardProductType := {|
  members := [CREDIT; DEBIT; HYBRID];
  name m := match m with
            | CREDIT => "CREDIT" | DEBIT => "DEBIT" | HYBRID => "HYBRID" end;
  value m := match m with
             | CREDIT => "credit" | DEBIT => "debit" | HYBRID => "hybrid" end
|}.

#[export] Instance CreditProductType_enum : PyEnum CreditProductType := {|
  members := [LOAN; FINANCING; OVERDRAFT];
  name m := match m with
            | LOAN => "LOAN" | FINANCING => "FINANCING"
            | OVERDRAFT => "OVERDRAFT" end;
  value m := match m with
             | LOAN => "loan" | FINANCING => "financing"
             | OVERDRAFT => "overdraft" end
|}.

#[export] Instance InvestmentInstrumentType_enum
  : PyEnum InvestmentInstrumentType := {|
  members := [FUND; FIXED_INCOME_BANK; FIXED_INCOME_PRIVATE; EQUITY; TREASURY];
  name m := match m with
            | FUND => "FUND" | FIXED_INCOME_BANK => "FIXED_INCOME_BANK"
            | FIXED_INCOME_PRIVATE => "FIXED_INCOME_PRIVATE"
            | EQUITY => "EQUITY" | TREASURY => "TREASURY" end;
  value m := match m with
             | FUND => "fund" | FIXED_INCOME_BANK => "fixed_income_bank"
             | FIXED_INCOME_PRIVATE => "fixed_income_private"
             | EQUITY => "equity" | TREASURY => "treasury" end
|}.

#[export] Instance PaymentStatus_enum : PyEnum PaymentStatus := {|
  members := [PENDING; COMPLETED; FAILED; CANCELLED];
  name m := match m with
            | PENDING => "PENDING" | COMPLETED => "COMPLETED"
            | FAILED => "FAILED" | CANCELLED => "CANCELLED" end;
  value m := match m with
             | PENDING => "pending" | COMPLETED => "completed"
             | FAILED => "failed" | CANCELLED => "cancelled" end
|}.

(** The six classes as tags (the argument of [Enum(...)] in a column), and a
    member of any of them as one value. *)
Inductive enum_class :=
  | cMaritalStatus | cAccountType | cCardProductType
  | cCreditProductType | cInvestmentInstrumentType | cPaymentStatus.

Inductive member :=
  | mMaritalStatus (m : MaritalStatus)
  | mAccountType (m : AccountType)
  | mCardProductType (m : CardProductType)
  | mCreditProductType (m : CreditProductType)
  | mInvestmentInstrumentType (m : InvestmentInstrumentType)
  | mPaymentStatus (m : PaymentStatus).

Definition class_of (m : member) : enum_class :=
  match m with
  | mMaritalStatus _ => cMaritalStatus
  | mAccountType _ => cAccountType
  | mCardProductType _ => cCardProductType
  | mCreditProductType _ => cCreditProductType
  | mInvestmentInstrumentType _ => cInvestmentInstrumentType
  | mPaymentStatus _ => cPaymentStatus
  end.

Definition member_name (m : member) : string :=
  match m with
  | mMaritalStatus x => name x
  | mAccountType x => name x
  | mCardProductType x => name x
  | mCreditProductType x => name x
  | mInvestmentInstrumentType x => name x
  | mPaymentStatus x => name x
  end.

Definition member_value (m : member) : string :=
  match m with
  | mMaritalStatus x => value x
  | mAccountType x => value x
  | mCardProductType x => value x
  | mCreditProductType x => value x
  | mInvestmentInstrumentType x => value x
  | mPaymentStatus x => value x
  end.

Definition class_members (e : enum_class) : list member :=
  match e with
  | cMaritalStatus => map mMaritalStatus members
  | cAccountType => map mAccountType members
  | cCardProductType => map mCardProductType members
  | cCreditProductType => map mCreditProductType members
  | cInvestmentInstrumentType => map mInvestmentInstrumentType members
  | cPaymentStatus => map mPaymentStatus members
  end.

Definition enum_class_eq_dec (a b : enum_class) : {a = b} + {a <> b}.
Proof. decide equality. Defined.

Definition member_eq_dec (a b : member) : {a = b} + {a <> b}.
Proof. repeat decide equality. Defined.

(* ------------------------------------------------------------------ *)
(** ** Column declarations *)

(** Column types used by the source.  [String n] is VARCHAR(n),
    [Numeric p s] is NUMERIC with precision [p] and scale [s]. *)
Inductive sqltype :=
  | Integer
  | String (length : nat)
  | Text
  | Date
  | DateTime
  | Boolean
  | Numeric (precision scale : nat)
  | Enum (cls : enum_class).

Inductive referential_action := CASCADE | SET_NULL.

(** [ForeignKey("table.column", ondelete=...)]. *)
Record ForeignKey := {
  fk_table : string;
  fk_column : string;
  ondelete : referential_action
}.

(** Values held by object attributes and by stored rows.  A [Numeric(p, s)]
    value is an exact count of 10^-s units; dates and timestamps are
    ordinals.  [VEnum] only occurs on the object side: a stored row holds
    the string the [Enum] type persists. *)
Inductive val :=
  | VNull
  | VInt (z : Z)
  | VStr (s : string)
  | VBool (b : bool)
  | VDec (units : Z)
  | VDate (day : Z)
  | VDateTime (t : Z)
  | VEnum (m : member).

Definition val_eq_dec (a b : val) : {a = b} + {a <> b}.
Proof.
  decide equality;
    first [ apply Z.eq_dec | apply string_dec | apply Bool.bool_dec
          | apply member_eq_dec ].
Defined.

(** Column defaults: a constant, or the callable [datetime.utcnow]. *)
Inductive default_value :=
  | Const (v : val)
  | UtcNow.

Record column := mkColumn {
  col_name : string;
  col_type : sqltype;
  primary_key : bool;
  nullable : bool;
  unique : bool;
  foreign_key : option ForeignKey;
  default : option default_value
}.

(** [Column(type)] with SQLAlchemy's defaults (nullable, not unique, no
    key), followed by the keyword arguments as record updates. *)
Definition Column (n : string) (ty : sqltype) : column :=
  mkColumn n ty false true false None None.

Definition with_primary_key (c : column) : column :=
  mkColumn (col_name c) (col_type c) true false (unique c)
           (foreign_key c) (default c).
Definition with_nullable (b : bool) (c : column) : column :=
  mkColumn (col_name c) (col_type c) (primary_key c) b (unique c)
           (foreign_key c) (default c).
Definition with_unique (c : column) : column :=
  mkColumn (col_name c) (col_type c) (primary_key c) (nullable c) true
           (foreign_key c) (default c).
Definition with_foreign_key (t k : string) (a : referential_action)
           (c : column) : column :=
  mkColumn (col_name c) (col_type c) (primary_key c) (nullable c) (unique c)
           (Some {| fk_table := t; fk_column := k; ondelete := a |})
           (default c).
Definition with_default (v : default_value) (c : column) : column :=
  mkColumn (col_name c) (col_type c) (primary_key c) (nullable c) (unique c)
           (foreign_key c) (Some v).

Declare Scope schema_scope.
Delimit Scope schema_scope with schema.
Notation "c '<|' f" := (f c) (at level 45, left associativity, only parsing)
  : schema_scope.
Open Scope schema_scope.

(** The id column every mapped class starts with. *)
Definition id_column : column := Column "id" Integer <| with_primary_key.

(** The foreign key to the owning customer that every cluster root carries. *)
Definition customer_id_column : column :=
  Column "customer_id" Integer
    <| with_foreign_key "customer_core" "id" CASCADE <| with_nullable false.

Definition created_at_column : column :=
  Column "created_at" DateTime <| with_default UtcNow.

(* ------------------------------------------------------------------ *)
(** ** Mapped classes (models.py, lines 116-549) *)

Inductive model :=
  | CustomerCore | CustomerContact
  | Account | AccountBalance | AccountTransaction
  | Card | CardInvoice | CardTransaction
  | CreditContract | CreditSchedule | Collateral
  | PositionFund | PositionFixedIncome | PositionEquity | PositionTreasury
  | InvestmentMovement
  | FxOperation
  | Consent | ConsentScope
  | PaymentOrder.

Definition all_models : list model :=
  [ CustomerCore; CustomerContact; Account; AccountBalance;
    AccountTransaction; Card; CardInvoice; CardTransaction; CreditContract;
    CreditSchedule; Collateral; PositionFund; PositionFixedIncome;
    PositionEquity; PositionTreasury; InvestmentMovement; FxOperation;
    Consent; ConsentScope; PaymentOrder ].

Definition model_eq_dec (a b : model) : {a = b} + {a <> b}.
Proof. decide equality. Defined.

(** [__tablename__]. *)
Definition tablename (t : model) : string :=
  match t with
  | CustomerCore => "customer_core"
  | CustomerContact => "customer_contacts"
  | Account => "accounts"
  | AccountBalance => "account_balances"
  | AccountTransaction => "account_transactions"
  | Card => "cards"
  | CardInvoice => "card_invoices"
  | CardTransaction => "card_transactions"
  | CreditContract => "credit_contracts"
  | CreditSchedule => "credit_schedules"
  | Collateral => "collaterals"
  | PositionFund => "positions_funds"
  | PositionFixedIncome => "positions_fixed_income"
  | PositionEquity => "positions_equity"
  | PositionTreasury => "positions_treasury"
  | InvestmentMovement => "investment_movements"
  | FxOperation => "fx_operations"
  | Consent => "consents"
  | ConsentScope => "consent_scopes"
  | PaymentOrder => "payment_orders"
  end.

(** The [Column] attributes of every class, in source order.
    [index=True] (on [tax_id]) has no effect on what a write accepts and is
    not recorded. *)
Definition columns (t : model) : list column :=
  match t with
  | CustomerCore =>
    [ id_column;
      Column "tax_id" (String 32) <| with_unique <| with_nullable false;
      Column "birthdate" Date <| with_nullable true;
      Column "marital_status" (Enum cMaritalStatus) <| with_nullable true;
      Column "dependents_count" Integer <| with_nullable true;
      Column "pep_flag" Boolean <| with_nullable false
        <| with_default (Const (VBool false)) ]
  | CustomerContact =>
    [ id_column;
      customer_id_column;
      Column "type" (String 32) <| with_nullable false;
      Column "value" (String 255) <| with_nullable false;
      created_at_column ]
  | Account =>
    [ id_column;
      customer_id_column;
      Column "account_type" (Enum cAccountType) <| with_nullable false;
      Column "institution" (String 255) <| with_nullable true;
      Column "branch_number" (String 20) <| with_nullable true;
      Column "account_number" (String 20) <| with_nullable true;
      Column "opening_date" Date <| with_nullable true;
      created_at_column ]
  | AccountBalance =>
    [ id_column;
      Column "account_id" Integer
        <| with_foreign_key "accounts" "id" CASCADE <| with_nullable false;
      Column "available_balance" (Numeric 18 2) <| with_nullable false;
      Column "as_of" DateTime <| with_nullable false <| with_default UtcNow ]
  | AccountTransaction =>
    [ id_column;
      Column "account_id" Integer
        <| with_foreign_key "accounts" "id" CASCADE <| with_nullable false;
      Column "amount" (Numeric 18 2) <| with_nullable false;
      Column "currency" (String 3) <| with_nullable false
        <| with_default (Const (VStr "BRL"));
      Column "mcc" (String 8) <| with_nullable true;
      Column "description" Text <| with_nullable true;
      Column "posting_date" Date <| with_nullable false;
      Column "transaction_date" Date <| with_nullable true;
      created_at_column ]
  | Card =>
    [ id_column;
      customer_id_column;
      Column "card_number" (String 20) <| with_unique <| with_nullable false;
      Column "product_type" (Enum cCardProductType) <| with_nullable false;
      Column "issuer" (String 255) <| with_nullable true;
      created_at_column ]
  | CardInvoice =>
    [ id_column;
      Column "card_id" Integer
        <| with_foreign_key "cards" "id" CASCADE <| with_nullable false;
      Column "statement_date" Date <| with_nullable false;
      Column "due_date" Date <| with_nullable false;
      Column "total_amount" (Numeric 18 2) <| with_nullable false;
      Column "minimum_payment" (Numeric 18 2) <| with_nullable false;
      created_at_column ]
  | CardTransaction =>
    [ id_column;
      Column "card_id" Integer
        <| with_foreign_key "cards" "id" CASCADE <| with_nullable false;
      Column "invoice_id" Integer
        <| with_foreign_key "card_invoices" "id" SET_NULL
        <| with_nullable true;
      Column "amount" (Numeric 18 2) <| with_nullable false;
      Column "currency" (String 3) <| with_nullable false
        <| with_default (Const (VStr "BRL"));
      Column "merchant_name" (String 255) <| with_nullable true;
      Column "mcc" (String 8) <| with_nullable true;
      Column "description" Text <| with_nullable true;
      Column "transaction_date" Date <| with_nullable false;
      Column "posting_date" Date <| with_nullable true;
      created_at_column ]
  | CreditContract =>
    [ id_column;
      customer_id_column;
      Column "product_type" (Enum cCreditProductType) <| with_nullable false;
      Column "principal_amount" (Numeric 18 2) <| with_nullable false;
      Column "rate_nominal" (Numeric 10 4) <| with_nullable false;
      Column "maturity_date" Date <| with_nullable false;
      Column "installment_amount" (Numeric 18 2) <| with_nullable false;
      Column "balloon" Boolean <| with_nullable false
        <| with_default (Const (VBool false));
      Column "guarantee_type" (String 255) <| with_nullable true;
      created_at_column ]
  | CreditSchedule =>
    [ id_column;
      Column "contract_id" Integer
        <| with_foreign_key "credit_contracts" "id" CASCADE
        <| with_nullable false;
      Column "installment_number" Integer <| with_nullable false;
      Column "due_date" Date <| with_nullable false;
      Column "installment_amount" (Numeric 18 2) <| with_nullable false;
      Column "paid_amount" (Numeric 18 2) <| with_nullable true;
      Column "status" (String 32) <| with_nullable false
        <| with_default (Const (VStr "due"));
      created_at_column ]
  | Collateral =>
    [ id_column;
      Column "contract_id" Integer
        <| with_foreign_key "credit_contracts" "id" CASCADE
        <| with_nullable false;
      Column "collateral_type" (String 255) <| with_nullable false;
      Column "collateral_value" (Numeric 18 2) <| with_nullable false;
      Column "description" Text <| with_nullable true;
      created_at_column ]
  | PositionFund =>
    [ id_column;
      customer_id_column;
      Column "fund_cnpj" (String 20) <| with_nullable false;
      Column "quantity" (Numeric 20 8) <| with_nullable false;
      Column "avg_price" (Numeric 18 4) <| with_nullable false;
      Column "mark_to_market" (Numeric 18 4) <| with_nullable true;
      Column "liquidity_bucket" (String 32) <| with_nullable true;
      Column "last_event" Date <| with_nullable true ]
  | PositionFixedIncome =>
    [ id_column;
      customer_id_column;
      Column "instrument_id" (String 64) <| with_nullable false;
      Column "quantity" (Numeric 20 8) <| with_nullable false;
      Column "avg_price" (Numeric 18 4) <| with_nullable false;
      Column "mark_to_market" (Numeric 18 4) <| with_nullable true;
      Column "liquidity_bucket" (String 32) <| with_nullable true;
      Column "maturity_date" Date <| with_nullable true;
      Column "last_event" Date <| with_nullable true ]
  | PositionEquity =>
    [ id_column;
      customer_id_column;
      Column "ticker" (String 10) <| with_nullable false;
      Column "quantity" (Numeric 20 8) <| with_nullable false;
      Column "avg_price" (Numeric 18 4) <| with_nullable false;
      Column "mark_to_market" (Numeric 18 4) <| with_nullable true;
      Column "liquidity_bucket" (String 32) <| with_nullable true;
      Column "last_event" Date <| with_nullable true ]
  | PositionTreasury =>
    [ id_column;
      customer_id_column;
      Column "instrument_id" (String 64) <| with_nullable false;
      Column "quantity" (Numeric 20 8) <| with_nullable false;
      Column "avg_price" (Numeric 18 4) <| with_nullable false;
      Column "mark_to_market" (Numeric 18 4) <| with_nullable true;
      Column "liquidity_bucket" (String 32) <| with_nullable true;
      Column "maturity_date" Date <| with_nullable true;
      Column "last_event" Date <| with_nullable true ]
  | InvestmentMovement =>
    [ id_column;
      customer_id_column;
      Column "instrument_id" (String 64) <| with_nullable false;
      Column "movement_type" (String 32) <| with_nullable false;
      Column "quantity" (Numeric 20 8) <| with_nullable false;
      Column "price" (Numeric 18 4) <| with_nullable false;
      Column "amount" (Numeric 18 2) <| with_nullable false;
      Column "transaction_date" Date <| with_nullable false;
      Column "settlement_date" Date <| with_nullable true;
      created_at_column ]
  | FxOperation =>
    [ id_column;
      customer_id_column;
      Column "currency_pair" (String 10) <| with_nullable false;
      Column "notional" (Numeric 18 2) <| with_nullable false;
      Column "nature" (String 32) <| with_nullable false;
      Column "settlement_date" Date <| with_nullable false;
      Column "rate" (Numeric 10 6) <| with_nullable true;
      created_at_column ]
  | Consent =>
    [ id_column;
      customer_id_column;
      Column "granted_at" DateTime <| with_nullable false
        <| with_default UtcNow;
      Column "expires_at" DateTime <| with_nullable true;
      Column "revoked_at" DateTime <| with_nullable true;
      Column "description" Text <| with_nullable true ]
  | ConsentScope =>
    [ id_column;
      Column "consent_id" Integer
        <| with_foreign_key "consents" "id" CASCADE <| with_nullable false;
      Column "scope" (String 32) <| with_nullable false;
      created_at_column ]
  | PaymentOrder =>
    [ id_column;
      customer_id_column;
      Column "amount" (Numeric 18 2) <| with_nullable false;
      Column "currency" (String 3) <| with_nullable false
        <| with_default (Const (VStr "BRL"));
      Column "scope" (String 32) <| with_nullable false;
      Column "pix_e2e_id" (String 50) <| with_nullable true;
      Column "status" (Enum cPaymentStatus) <| with_nullable false
        <| with_default (Const (VEnum (mPaymentStatus PENDING)));
      created_at_column;
      Column "completed_at" DateTime <| with_nullable true ]
  end.

(** [__table_args__]: the table-level [UniqueConstraint]s, each the list
    of its column names. *)
Definition table_args (t : model) : list (list string) :=
  match t with
  | AccountBalance => [ ["account_id"; "as_of"] ]
  | _ => []
  end.

(** [relationship(argument, back_populates=..., cascade=...)]. *)
Inductive cascade_option :=
  | SaveUpdate | Merge | RefreshExpire | Expunge | Delete | DeleteOrphan
  | All.

Record relationship := {
  rel_key : string;
  rel_argument : model;
  back_populates : option string;
  cascade : list cascade_option
}.

(** The cascade of a relationship that names none: "save-update, merge". *)
Definition default_cascade : list cascade_option := [SaveUpdate; Merge].
(** cascade="all, delete-orphan". *)
Definition all_delete_orphan : list cascade_option := [All; DeleteOrphan].

Definition owns (key : string) (target : model) (back : string)
  : relationship :=
  {| rel_key := key; rel_argument := target; back_populates := Some back;
     cascade := all_delete_orphan |}.

Definition belongs_to (key : string) (target : model)
           (back : option string) : relationship :=
  {| rel_key := key; rel_argument := target; back_populates := back;
     cascade := default_cascade |}.

Definition relationships (t : model) : list relationship :=
  match t with
  | CustomerCore =>
    [ owns "contacts" CustomerContact "customer";
      owns "accounts" Account "customer";
      owns "cards" Card "customer";
      owns "credit_contracts" CreditContract "customer";
      owns "investment_positions" PositionFund "customer";
      owns "fx_operations" FxOperation "customer";
      owns "consents" Consent "customer";
      owns "payment_orders" PaymentOrder "customer" ]
  | CustomerContact => [ belongs_to "customer" CustomerCore (Some "contacts") ]
  | Account =>
    [ belongs_to "customer" CustomerCore (Some "accounts");
      owns "balances" AccountBalance "account";
      owns "transactions" AccountTransaction "account" ]
  | AccountBalance => [ belongs_to "account" Account (Some "balances") ]
  | AccountTransaction =>
    [ belongs_to "account" Account (Some "transactions") ]
  | Card =>
    [ belongs_to "customer" CustomerCore (Some "cards");
      owns "invoices" CardInvoice "card";
      owns "transactions" CardTransaction "card" ]
  | CardInvoice =>
    [ belongs_to "card" Card (Some "invoices");
      owns "transactions" CardTransaction "invoice" ]
  | CardTransaction =>
    [ belongs_to "card" Card (Some "transactions");
      belongs_to "invoice" CardInvoice (Some "transactions") ]
  | CreditContract =>
    [ belongs_to "customer" CustomerCore (Some "credit_contracts");
      owns "schedules" CreditSchedule "contract";
      owns "collaterals" Collateral "contract" ]
  | CreditSchedule =>
    [ belongs_to "contract" CreditContract (Some "schedules") ]
  | Collateral => [ belongs_to "contract" CreditContract (Some "collaterals") ]
  | PositionFund =>
    [ belongs_to "customer" CustomerCore (Some "investment_positions") ]
  | PositionFixedIncome => [ belongs_to "customer" CustomerCore None ]
  | PositionEquity => [ belongs_to "customer" CustomerCore None ]
  | PositionTreasury => [ belongs_to "customer" CustomerCore None ]
  | InvestmentMovement => [ belongs_to "customer" CustomerCore None ]
  | FxOperation => [ belongs_to "customer" CustomerCore (Some "fx_operations") ]
  | Consent =>
    [ belongs_to "customer" CustomerCore (Some "consents");
      owns "scopes" ConsentScope "consent" ]
  | ConsentScope => [ belongs_to "consent" Consent (Some "scopes") ]
  | PaymentOrder =>
    [ belongs_to "customer" CustomerCore (Some "payment_orders") ]
  end.

(* ------------------------------------------------------------------ *)
(** ** Rows and database states *)

(** A mapped object, and a stored row: attribute (column) name to value.
    An attribute that is not set reads as [VNull]. *)
Definition row := list (string * val).

Fixpoint get (c : string) (r : row) : val :=
  match r with
  | [] => VNull
  | (k, v) :: r' => if String.eqb k c then v else get c r'
  end.

Fixpoint set (c : string) (v : val) (r : row) : row :=
  match r with
  | [] => [(c, v)]
  | (k, x) :: r' =>
    if String.eqb k c then (k, v) :: r' else (k, x) :: set c v r'
  end.

(** One list of rows per table. *)
Definition db := model -> list row.

Definition empty_db : db := fun _ => [].

Definition put_table (d : db) (t : model) (rows : list row) : db :=
  fun t' => if model_eq_dec t t' then rows else d t'.

(** [WHERE c IN vs]: a NULL never matches. *)
Definition selects (c : string) (vs : list val) (r : row) : bool :=
  match get c r with
  | VNull => false
  | v => if in_dec val_eq_dec v vs then true else false
  end.

(* ------------------------------------------------------------------ *)
(** ** Foreign keys, resolved against the table names *)

Definition model_of_table (n : string) : option model :=
  find (fun t => String.eqb (tablename t) n) all_models.

Record fkey := {
  fk_child : model;       (* the class that declares the column *)
  fk_col : string;        (* the referencing column *)
  fk_parent : model;      (* the class of the referenced table *)
  fk_ref : string;        (* the referenced column *)
  fk_action : referential_action
}.

Definition foreign_keys_of (t : model) : list fkey :=
  flat_map
    (fun c =>
       match foreign_key c with
       | Some f =>
         match model_of_table (fk_table f) with
         | Some p => [ {| fk_child := t; fk_col := col_name c; fk_parent := p;
                          fk_ref := fk_column f; fk_action := ondelete f |} ]
         | None => []
         end
       | None => []
       end)
    (columns t).

Definition foreign_keys : list fkey := flat_map foreign_keys_of all_models.

(** The foreign keys that reference table [t]. *)
Definition fks_to (t : model) : list fkey :=
  filter (fun k => if model_eq_dec (fk_parent k) t then true else false)
         foreign_keys.

(* ------------------------------------------------------------------ *)
(** ** DELETE with the declared referential actions *)

(** [SET NULL]: the rows of the child table that reference a deleted key
    get the referencing column cleared. *)
Definition set_null (k : fkey) (keys : list val) (d : db) : db :=
  put_table d (fk_child k)
    (map (fun r => if selects (fk_col k) keys r
                   then set (fk_col k) VNull r else r)
         (d (fk_child k))).

(** [DELETE FROM t WHERE c IN vs].  The selected rows leave the table; for
    every foreign key that references [t], the rows of the child table that
    reference a deleted row are themselves deleted ([CASCADE], which
    recurses) or detached ([SET NULL]).  [fuel] bounds the depth of the
    recursion through the foreign-key graph. *)
Fixpoint db_delete (fuel : nat) (t : model) (c : string) (vs : list val)
         (d : db) : db :=
  match fuel with
  | O => d
  | S fuel' =>
    let victims := filter (selects c vs) (d t) in
    let d1 := put_table d t (filter (fun r => negb (selects c vs r)) (d t)) in
    fold_left
      (fun acc k =>
         let keys := map (get (fk_ref k)) victims in
         match fk_action k with
         | CASCADE => db_delete fuel' (fk_child k) (fk_col k) keys acc
         | SET_NULL => set_null k keys acc
         end)
      (fks_to t) d1
  end.

(** Deleting the row with primary key [i]; a chain of foreign keys is
    shorter than the number of tables. *)
Definition delete (d : db) (t : model) (i : Z) : db :=
  db_delete (List.length all_models) t "id" [VInt i] d.

(* ------------------------------------------------------------------ *)
(** ** session.delete(obj): the ORM unit of work *)

(** A relationship propagates deletion when its cascade has "delete",
    which "all" includes. *)
Definition delete_cascade (r : relationship) : bool :=
  existsb (fun o => match o with All | Delete => true | _ => false end)
          (cascade r).

(** The join of a one-to-many relationship of [t]: the foreign key of the
    target class that references [t]'s table. *)
Definition rel_fkey (t : model) (r : relationship) : option fkey :=
  find (fun k => if model_eq_dec (fk_child k) (rel_argument r) then true
                 else false)
       (fks_to t).

(** The objects reached from [r] through relationships with a delete
    cascade, parent first. *)
Fixpoint cascade_iterator (fuel : nat) (d : db) (t : model) (r : row)
  : list (model * row) :=
  match fuel with
  | O => []
  | S fuel' =>
    (t, r) ::
    flat_map
      (fun rel =>
         if delete_cascade rel then
           match rel_fkey t rel with
           | Some k =>
             flat_map (cascade_iterator fuel' d (rel_argument rel))
                      (filter (selects (fk_col k) [get (fk_ref k) r])
                              (d (fk_child k)))
           | None => []
           end
         else [])
      (relationships t)
  end.

(** The flush: every collected object is deleted by primary key, children
    before parents; each DELETE statement runs with the referential actions
    of the schema. *)
Definition flush_deletes (objs : list (model * row)) (d : db) : db :=
  fold_left (fun acc o => db_delete (List.length all_models) (fst o) "id"
                                    [get "id" (snd o)] acc)
            (rev objs) d.

Definition session_delete (d : db) (t : model) (i : Z) : db :=
  flush_deletes
    (flat_map (cascade_iterator (List.length all_models) d t)
              (filter (selects "id" [VInt i]) (d t)))
    d.

(* ------------------------------------------------------------------ *)
(** ** Writes: INSERT and UPDATE under the declared constraints *)

(** What a write can fail with.  The spec's ConstraintViolation covers
    [NotNullViolation], [UniqueViolation] (with the columns of the violated
    key) and [ForeignKeyViolation]. *)
Inductive error :=
  | DomainValueError (col : string)     (* value outside the column's domain *)
  | NotNullViolation (col : string)     (* NULL in a nullable=False column *)
  | UniqueViolation (cols : list string)
  | ForeignKeyViolation (col : string)
  | NoSuchColumn (col : string)
  | NoSuchRow.

Definition result (A : Type) : Type := (error + A)%type.

Definition ok {A} (a : A) : result A := inr a.
Definition fail {A} (e : error) : result A := inl e.

Definition and_then {A B} (x : result A) (k : A -> result B) : result B :=
  match x with
  | inl e => inl e
  | inr a => k a
  end.

Notation "x <- e ;; k" := (and_then e (fun x => k))
  (at level 61, e at next level, right associativity).
Notation "'check' e ;; k" := (match e with Some err => inl err | None => k end)
  (at level 61, e at next level, right associativity).

Fixpoint mapM {A B} (f : A -> result B) (l : list A) : result (list B) :=
  match l with
  | [] => ok []
  | a :: l' => b <- f a ;; bs <- mapM f l' ;; ok (b :: bs)
  end.

(** What an [Enum(cls)] column looks a member up by: its name. *)
Definition enum_names (e : enum_class) : list string :=
  map member_name (class_members e).

Definition enum_lookup (e : enum_class) (s : string) : option member :=
  find (fun m => String.eqb (member_name m) s) (class_members e).

(** Object value to stored value.  Only [Enum] converts: a member of the
    column's class is stored as its name; a member of another class is
    refused.  Every other value goes to the column as it is. *)
Definition bind_processor (ty : sqltype) (v : val) : option val :=
  match v with
  | VEnum m =>
    match ty with
    | Enum e => if enum_class_eq_dec (class_of m) e
                then Some (VStr (member_name m)) else None
    | _ => None
    end
  | _ => Some v
  end.

(** The nearest integer to [n/d], for [d > 0]; a tie goes to the even
    one. *)
Definition round_half_even (n d : Z) : Z :=
  let q := n / d in
  match 2 * (n mod d) ?= d with
  | Lt => q
  | Gt => q + 1
  | Eq => if Z.even q then q else q + 1
  end.

(** The binary exponent of [n/d], for positive [n] and [d]: the [e] with
    [2^e <= n/d < 2^(e+1)]. *)
Definition binary_exponent (n d : Z) : Z :=
  let e := Z.log2 n - Z.log2 d in
  if (if 0 <=? e then d * 2 ^ e <=? n else d <=? n * 2 ^ (- e))
  then e else e - 1.

(** [float(x)] for the decimal [x = n/d], positive: the binary64 float
    nearest to it, 53 bits of mantissa, as the pair [(m, q)] of value
    [m * 2^q]. *)
Definition to_float (n d : Z) : Z * Z :=
  let q := binary_exponent n d - 52 in
  (if q <=? 0 then round_half_even (n * 2 ^ (- q)) d
   else round_half_even n (d * 2 ^ q), q).

(** [Decimal("%.{s}f" % x)] for the float [x = m * 2^q]: its value at scale
    [s], in units of 10^-s. *)
Definition to_decimal (s : nat) (x : Z * Z) : Z :=
  let (m, q) := x in
  if q <=? 0 then round_half_even (m * 10 ^ Z.of_nat s) (2 ^ (- q))
  else m * 2 ^ q * 10 ^ Z.of_nat s.

(** What SQLite gives back for a [Numeric(p, s)] of [u] units: SQLAlchemy
    binds the decimal as a float and converts the float that comes back to
    a decimal of scale [s]. *)
Definition float_round_trip (s : nat) (u : Z) : Z :=
  if u =? 0 then 0
  else Z.sgn u * to_decimal s (to_float (Z.abs u) (10 ^ Z.of_nat s)).

(** Stored value to object value.  An [Enum] column gives back the member
    that has the stored name, and fails on a string that is no name.  A
    [Numeric] column gives back the decimal through its float: the row
    keeps the decimal that was written, and both conversions are made
    here. *)
Definition result_processor (ty : sqltype) (v : val) : option val :=
  match ty, v with
  | Enum e, VStr s => option_map VEnum (enum_lookup e s)
  | Enum e, VNull => Some VNull
  | Enum e, _ => None
  | Numeric _ s, VDec u => Some (VDec (float_round_trip s u))
  | _, _ => Some v
  end.

(** [Numeric(p, s)] declares at most [p] digits: fewer than 10^p units. *)
Definition numeric_fits (p : nat) (u : Z) : bool :=
  Z.abs u <? 10 ^ Z.of_nat p.

(** The characters of a string.  A string is the sequence of its UTF-8
    bytes; a byte 10xxxxxx continues the character begun before it. *)
Definition continuation (a : ascii) : bool :=
  match a with
  | Ascii _ _ _ _ _ _ b6 b7 => b7 && negb b6
  end.

Fixpoint utf8_length (s : string) : nat :=
  match s with
  | EmptyString => O
  | String.String a s' =>
    if continuation a then utf8_length s' else S (utf8_length s')
  end.

(** [String(n)] declares at most [n] characters. *)
Definition string_fits (n : nat) (s : string) : bool :=
  (utf8_length s <=? n)%nat.

(** The integers of [bits] bits, two's complement. *)
Definition int_fits (bits : nat) (n : Z) : bool :=
  (- 2 ^ (Z.of_nat bits - 1) <=? n) && (n <? 2 ^ (Z.of_nat bits - 1)).

(** The domain of a column type, on stored values: the values of the
    type.  NULL is in every domain; nullability is a separate constraint.
    The length of a [String(n)] and the precision of a [Numeric(p, s)] are
    declared, and SQLite enforces neither: a string of any length and a
    decimal of any size are stored ([string_fits] and [numeric_fits] say
    what fits the declaration, for the backends that enforce it).  An
    [Enum(cls)] column is a string column: the declaration asks for no
    validation of strings and for no CHECK constraint, so any string is in
    its domain, a member name or not. *)
Definition in_domain (ty : sqltype) (v : val) : bool :=
  match v with
  | VNull => true
  | VInt _ => match ty with Integer => true | _ => false end
  | VStr _ =>
    match ty with
    | String _ | Text | Enum _ => true
    | _ => false
    end
  | VBool _ => match ty with Boolean => true | _ => false end
  | VDec _ => match ty with Numeric _ _ => true | _ => false end
  | VDate _ => match ty with Date => true | _ => false end
  | VDateTime _ => match ty with DateTime => true | _ => false end
  | VEnum _ => false
  end.

(** A key column: the primary key, or a foreign key. *)
Definition is_key (c : column) : bool :=
  primary_key c
  || match foreign_key c with
     | Some _ => true
     | None => false
     end.

(** SQLite's INTEGER holds 64 bits: an integer attribute that carries data
    ([dependents_count], [installment_number]) is refused beyond them.  A
    key column holds the key of a stored row, the one the database
    generated or the one that the foreign-key check finds among the stored
    keys, and is not checked for width again. *)
Definition width_ok (c : column) (v : val) : bool :=
  match v with
  | VInt n => is_key c || int_fits 64 n
  | _ => true
  end.

(** The next value of an autoincrementing integer primary key. *)
Definition next_id (rows : list row) : Z :=
  1 + fold_right (fun r m => match get "id" r with
                             | VInt i => Z.max i m
                             | _ => m
                             end) 0 rows.

(** The value a column receives when the object leaves it unset. *)
Definition fill (now nid : Z) (c : column) (v : val) : val :=
  match v with
  | VNull =>
    if primary_key c then VInt nid
    else match default c with
         | Some (Const v') => v'
         | Some UtcNow => VDateTime now
         | None => VNull
         end
  | _ => v
  end.

(** One column of the row to store: conversion, domain, width, NOT NULL. *)
Definition store_value (c : column) (v : val) : result val :=
  match bind_processor (col_type c) v with
  | None => fail (DomainValueError (col_name c))
  | Some v' =>
    if negb (in_domain (col_type c) v') then
      fail (DomainValueError (col_name c))
    else if negb (width_ok c v') then
      fail (DomainValueError (col_name c))
    else if negb (nullable c) && (if val_eq_dec v' VNull then true else false)
    then fail (NotNullViolation (col_name c))
    else ok v'
  end.

Definition store_column (now nid : Z) (obj : row) (c : column)
  : result (string * val) :=
  v <- store_value c (fill now nid c (get (col_name c) obj)) ;;
  ok (col_name c, v).

Definition build_row (now : Z) (d : db) (t : model) (obj : row)
  : result row :=
  mapM (store_column now (next_id (d t)) obj) (columns t).

(** The unique keys of a table: the primary key, every [unique=True]
    column, and the table-level constraints. *)
Definition unique_keys (t : model) : list (list string) :=
  [ map col_name (filter primary_key (columns t)) ]
  ++ map (fun c => [col_name c]) (filter unique (columns t))
  ++ table_args t.

(** Two rows collide on a key when they agree on all its columns and none
    of the values is NULL. *)
Definition collides (key : list string) (r r0 : row) : bool :=
  forallb (fun c => match get c r with
                    | VNull => false
                    | v => if val_eq_dec v (get c r0) then true else false
                    end) key.

Definition check_unique (t : model) (others : list row) (r : row)
  : option error :=
  option_map UniqueViolation
             (find (fun key => existsb (collides key r) others)
                   (unique_keys t)).

Definition fk_satisfied (d : db) (k : fkey) (r : row) : bool :=
  match get (fk_col k) r with
  | VNull => true
  | v => existsb (fun p => if val_eq_dec (get (fk_ref k) p) v then true
                           else false)
                 (d (fk_parent k))
  end.

Definition check_fks (d : db) (t : model) (r : row) : option error :=
  option_map (fun k => ForeignKeyViolation (fk_col k))
             (find (fun k => negb (fk_satisfied d k r)) (foreign_keys_of t)).

(** [session.add(obj); session.flush()]. *)
Definition insert (now : Z) (d : db) (t : model) (obj : row) : result db :=
  r <- build_row now d t obj ;;
  check check_unique t (d t) r ;;
  check check_fks d t r ;;
  ok (put_table d t (d t ++ [r])).

Definition has_id (i : Z) (r : row) : bool := selects "id" [VInt i] r.

(** A referenced key may not change while a child row references it. *)
Definition check_referenced (d : db) (t : model) (old new : row)
  : option error :=
  option_map (fun k => ForeignKeyViolation (fk_col k))
    (find (fun k =>
             negb (if val_eq_dec (get (fk_ref k) old) (get (fk_ref k) new)
                   then true else false)
             && existsb (selects (fk_col k) [get (fk_ref k) old])
                        (d (fk_child k)))
          (fks_to t)).

(** [obj.c = v; session.flush()] on the stored row with primary key [i]. *)
Definition update (d : db) (t : model) (i : Z) (c : string) (v : val)
  : result db :=
  match find (fun col => String.eqb (col_name col) c) (columns t) with
  | None => fail (NoSuchColumn c)
  | Some col =>
    match find (has_id i) (d t) with
    | None => fail NoSuchRow
    | Some old =>
      v' <- store_value col v ;;
      let r := set c v' old in
      check check_unique t (filter (fun r0 => negb (has_id i r0)) (d t)) r ;;
      check check_fks d t r ;;
      check check_referenced d t old r ;;
      ok (put_table d t (map (fun r0 => if has_id i r0 then r else r0) (d t)))
    end
  end.

(** Reading the row with primary key [i] back as an object. *)
Definition load_row (t : model) (r : row) : option row :=
  (fix go (cs : list column) : option row :=
     match cs with
     | [] => Some []
     | c :: cs' =>
       match result_processor (col_type c) (get (col_name c) r), go cs' with
       | Some v, Some r' => Some ((col_name c, v) :: r')
       | _, _ => None
       end
     end) (columns t).


(* ------------------------------------------------------------------ *)
(** ** The foreign-key graph *)

(** The columns of [t] that a delete elsewhere may clear: the referencing
    columns declared with [ondelete="SET NULL"]. *)
Definition detachable (t : model) : list string :=
  map fk_col
      (filter (fun k => match fk_action k with
                        | SET_NULL => true
                        | _ => false
                        end)
              (foreign_keys_of t)).

(** The length of the longest chain of foreign keys below a table. *)
Fixpoint height_aux (fuel : nat) (t : model) : nat :=
  match fuel with
  | O => O
  | S fuel' =>
    fold_right (fun k m => Nat.max (S (height_aux fuel' (fk_child k))) m)
               O (fks_to t)
  end.

Definition height (t : model) : nat := height_aux (List.length all_models) t.

(** The owner of a table: the parent of its [CASCADE] foreign key. *)
Definition cascade_parent (t : model) : option model :=
  option_map fk_parent
    (find (fun k => match fk_action k with CASCADE => true | _ => false end)
          (foreign_keys_of t)).

(** The root reached from [t] by following [CASCADE] foreign keys upwards. *)
Fixpoint owner_root (fuel : nat) (t : model) : model :=
  match fuel with
  | O => t
  | S fuel' =>
    match cascade_parent t with
    | Some p => owner_root fuel' p
    | None => t
    end
  end.

(** Two versions of a row of [t] that differ at most in detachable
    columns. *)
Definition agree (t : model) (r r' : row) : Prop :=
  forall c, ~ In c (detachable t) -> get c r' = get c r.

(** [owned d c t r]: row [r] of table [t] belongs to customer [c] in
    database [d], through a chain of [CASCADE] foreign keys that ends at a
    customer row with primary key [c]. *)
Inductive owned (d : db) (c : Z) : model -> row -> Prop :=
  | owned_root r :
      get "id" r = VInt c -> owned d c CustomerCore r
  | owned_child k r p :
      In k foreign_keys -> fk_action k = CASCADE ->
      In p (d (fk_parent k)) ->
      get (fk_col k) r = get (fk_ref k) p -> get (fk_col k) r <> VNull ->
      owned d c (fk_parent k) p ->
      owned d c (fk_child k) r.

(** Every row of [d'] is a row of [d], up to detached columns. *)
Definition evolves (d d' : db) : Prop :=
  forall t r', In r' (d' t) -> exists r, In r (d t) /\ agree t r r'.

(** No row of [d'] has lost the parent its [CASCADE] foreign key had in
    [d]. *)
Definition keeps_parents (d d' : db) : Prop :=
  forall k r' p,
    In k foreign_keys -> fk_action k = CASCADE ->
    In r' (d' (fk_child k)) -> In p (d (fk_parent k)) ->
    get (fk_col k) r' = get (fk_ref k) p -> get (fk_col k) r' <> VNull ->
    exists p', In p' (d' (fk_parent k)) /\ agree (fk_parent k) p p'.

Definition preserves (d d' : db) : Prop := evolves d d' /\ keeps_parents d d'.

(* ------------------------------------------------------------------ *)
(** ** Sessions: sequences of writes *)

(** A failed flush is rolled back: the database is the one before it. *)
Definition commit (d : db) (x : result db) : db :=
  match x with
  | inr d' => d'
  | inl _ => d
  end.

Inductive statement :=
  | Add (t : model) (obj : row)
  | Assign (t : model) (i : Z) (c : string) (v : val)
  | DeleteRow (t : model) (i : Z)
  | SessionDelete (t : model) (i : Z).

Definition execute (now : Z) (d : db) (s : statement) : result db :=
  match s with
  | Add t obj => insert now d t obj
  | Assign t i c v => update d t i c v
  | DeleteRow t i => ok (delete d t i)
  | SessionDelete t i => ok (session_delete d t i)
  end.

(** Statements run in order, the clock advancing by one at each; the run
    stops at the first error. *)
Fixpoint run (now : Z) (d : db) (l : list statement) : result db :=
  match l with
  | [] => ok d
  | s :: l' => d' <- execute now d s ;; run (now + 1) d' l'
  end.

(** A small populated database: two customers; the first has an account
    with one balance, a card with one invoice and two transactions (one
    billed, one not), a credit contract with one installment, a fixed-income
    position and a completed payment order. *)
Definition sample_script : list statement :=
  [ Add CustomerCore [("tax_id", VStr "123.456.789-00");
                      ("marital_status", VEnum (mMaritalStatus MARRIED))];
    Add CustomerCore [("tax_id", VStr "987.654.321-00")];
    Add Account [("customer_id", VInt 1);
                 ("account_type", VEnum (mAccountType CHECKING))];
    Add AccountBalance [("account_id", VInt 1);
                        ("available_balance", VDec 100000);
                        ("as_of", VDateTime 20240101)];
    Add Card [("customer_id", VInt 1); ("card_number", VStr "4111111111111111");
              ("product_type", VEnum (mCardProductType CREDIT))];
    Add CardInvoice [("card_id", VInt 1); ("statement_date", VDate 19750);
                     ("due_date", VDate 19760); ("total_amount", VDec 25000);
                     ("minimum_payment", VDec 2500)];
    Add CardTransaction [("card_id", VInt 1); ("invoice_id", VInt 1);
                         ("amount", VDec 25000);
                         ("transaction_date", VDate 19740)];
    Add CardTransaction [("card_id", VInt 1); ("amount", VDec 990);
                         ("transaction_date", VDate 19755)];
    Add CreditContract [("customer_id", VInt 1);
                        ("product_type", VEnum (mCreditProductType LOAN));
                        ("principal_amount", VDec 1000000);
                        ("rate_nominal", VDec 1250);
                        ("maturity_date", VDate 20100);
                        ("installment_amount", VDec 90000)];
    Add CreditSchedule [("contract_id", VInt 1); ("installment_number", VInt 1);
                        ("due_date", VDate 19780);
                        ("installment_amount", VDec 90000)];
    Add PositionFixedIncome [("customer_id", VInt 1);
                             ("instrument_id", VStr "CDB-2027");
                             ("quantity", VDec 1000000000);
                             ("avg_price", VDec 10000)];
    Add PositionEquity [("customer_id", VInt 2); ("ticker", VStr "PETR4");
                        ("quantity", VDec 10000000000);
                        ("avg_price", VDec 385000)];
    Add PaymentOrder [("customer_id", VInt 1); ("amount", VDec 15000);
                      ("scope", VStr "accounts")];
    Assign PaymentOrder 1 "status" (VEnum (mPaymentStatus COMPLETED));
    Assign PaymentOrder 1 "completed_at" (VDateTime 20240102) ].

Definition sample_db : db :=
  commit empty_db (run 20240101 empty_db sample_script).

(* ------------------------------------------------------------------ *)
(** ** The spec's vocabulary, for comparison with the schema *)

(** The three kinds of numeric field the spec distinguishes. *)
Inductive numeric_kind := CashAmount | PriceOrRate | InstrumentQuantity.

(** The scale the spec gives each kind. *)
Definition spec_scale (k : numeric_kind) : nat :=
  match k with
  | CashAmount => 2
  | PriceOrRate => 4
  | InstrumentQuantity => 8
  end%nat.

(** The kind of each [Numeric] column, by what the column holds. *)
Definition kind_of (c : string) : option numeric_kind :=
  if in_dec string_dec c
       ["available_balance"; "amount"; "total_amount"; "minimum_payment";
        "principal_amount"; "installment_amount"; "paid_amount";
        "collateral_value"; "notional"]
  then Some CashAmount
  else if in_dec string_dec c
            ["rate_nominal"; "avg_price"; "mark_to_market"; "price"; "rate"]
  then Some PriceOrRate
  else if in_dec string_dec c ["quantity"]
  then Some InstrumentQuantity
  else None.

(** The scale the schema declares: as the spec has it, except for the FX
    rate, declared [Numeric(10, 6)]. *)
Definition declared_scale (t : model) (c : string) : option nat :=
  match t, c with
  | FxOperation, "rate" => Some 6%nat
  | _, _ => option_map spec_scale (kind_of c)
  end.





Definition column_of (t : model) (c : string) : option column :=
  find (fun col => String.eqb (col_name col) c) (columns t).

(** The key of the table-level unique constraint of [account_balances]. *)
Definition balance_key (r : row) : val * val :=
  (get "account_id" r, get "as_of" r).

(** Objects as a writer builds them, with the attributes each claim needs
    and the rest left unset. *)
Definition new_balance (account balance as_of : Z) : row :=
  [ ("account_id", VInt account); ("available_balance", VDec balance);
    ("as_of", VDateTime as_of) ].

Definition new_customer (tax_id : string) : row := [ ("tax_id", VStr tax_id) ].

Definition new_card (customer : Z) (number : string) (p : CardProductType)
  : row :=
  [ ("customer_id", VInt customer); ("card_number", VStr number);
    ("product_type", VEnum (mCardProductType p)) ].


Definition new_card_transaction (card amount : Z) (transaction_date
                                                    posting_date : val) : row :=
  [ ("card_id", VInt card); ("amount", VDec amount);
    ("transaction_date", transaction_date); ("posting_date", posting_date) ].

Definition new_account_transaction (account amount : Z)
           (posting_date transaction_date : val) : row :=
  [ ("account_id", VInt account); ("amount", VDec amount);
    ("posting_date", posting_date); ("transaction_date", transaction_date) ].

(** The rows those objects are stored as, once the primary key and the
    defaults are filled in. *)
Definition balance_row (i account balance as_of : Z) : row :=
  [ ("id", VInt i); ("account_id", VInt account);
    ("available_balance", VDec balance); ("as_of", VDateTime as_of) ].

Definition customer_row (i : Z) (tax_id : string) : row :=
  [ ("id", VInt i); ("tax_id", VStr tax_id); ("birthdate", VNull);
    ("marital_status", VNull); ("dependents_count", VNull);
    ("pep_flag", VBool false) ].

Definition card_row (i customer : Z) (number : string) (p : CardProductType)
           (now : Z) : row :=
  [ ("id", VInt i); ("customer_id", VInt customer);
    ("card_number", VStr number); ("product_type", VStr (name p));
    ("issuer", VNull); ("created_at", VDateTime now) ].


Definition card_transaction_row (i card amount : Z)
           (transaction_date posting_date : val) (now : Z) : row :=
  [ ("id", VInt i); ("card_id", VInt card); ("invoice_id", VNull);
    ("amount", VDec amount); ("currency", VStr "BRL");
    ("merchant_name", VNull); ("mcc", VNull); ("description", VNull);
    ("transaction_date", transaction_date); ("posting_date", posting_date);
    ("created_at", VDateTime now) ].

Definition account_transaction_row (i account amount : Z)
           (posting_date transaction_date : val) (now : Z) : row :=
  [ ("id", VInt i); ("account_id", VInt account); ("amount", VDec amount);
    ("currency", VStr "BRL"); ("mcc", VNull); ("description", VNull);
    ("posting_date", posting_date); ("transaction_date", transaction_date);
    ("created_at", VDateTime now) ].

(** A parent row with primary key [i] exists in table [t]. *)
Definition exists_row (d : db) (t : model) (i : Z) : Prop :=
  exists p, In p (d t) /\ get "id" p = VInt i.

(** Whether a write went through. *)
Definition accepted {A} (x : result A) : bool :=
  match x with
  | inr _ => true
  | inl _ => false
  end.



(** Rows of [sample_db] that the examples name. *)
Definition customer_1 : row :=
  [ ("id", VInt 1); ("tax_id", VStr "123.456.789-00"); ("birthdate", VNull);
    ("marital_status", VStr "MARRIED"); ("dependents_count", VNull);
    ("pep_flag", VBool false) ].

Definition order_1 : row :=
  [ ("id", VInt 1); ("customer_id", VInt 1); ("amount", VDec 15000);
    ("currency", VStr "BRL"); ("scope", VStr "accounts");
    ("pix_e2e_id", VNull); ("status", VStr "COMPLETED");
    ("created_at", VDateTime 20240113); ("completed_at", VDateTime 20240102) ].

Definition status_column : column :=
  Column "status" (Enum cPaymentStatus) <| with_nullable false
    <| with_default (Const (VEnum (mPaymentStatus PENDING))).

Definition account_type_column : column :=
  Column "account_type" (Enum cAccountType) <| with_nullable false.

Definition fx_rate_column : column :=
  Column "rate" (Numeric 10 6) <| with_nullable true.

(* ------------------------------------------------------------------ *)
(** ** Integrity of a database state *)

(** The values of a row on the columns of a key. *)
Definition project (key : list string) (r : row) : list val :=
  map (fun c => get c r) key.

(** Every unique key of every table holds: no two rows of a table agree
    on all the columns of a key. *)
Definition unique_ok (d : db) : Prop :=
  forall t key, In key (unique_keys t) -> NoDup (map (project key) (d t)).

(** Every [nullable=False] column holds a value in every row. *)
Definition not_null_ok (d : db) : Prop :=
  forall t r c, In r (d t) -> In c (columns t) -> nullable c = false ->
                get (col_name c) r <> VNull.

Definition integrity (d : db) : Prop := unique_ok d /\ not_null_ok d.

(** [thinned t l l']: [l'] is [l] with some rows dropped and, in the rows
    kept, at most detachable columns changed; order is kept. *)
Inductive thinned (t : model) : list row -> list row -> Prop :=
  | thinned_nil : thinned t [] []
  | thinned_drop r l l' : thinned t l l' -> thinned t (r :: l) l'
  | thinned_keep r r' l l' :
      agree t r r' -> thinned t l l' -> thinned t (r :: l) (r' :: l').

Definition thins (d d' : db) : Prop := forall t, thinned t (d t) (d' t).

(** The owner of a row: the customer at the end of its chain of [CASCADE]
    foreign keys, followed through the parent rows of [d]. *)
Definition cascade_fk (t : model) : option fkey :=
  find (fun k => match fk_action k with CASCADE => true | _ => false end)
       (foreign_keys_of t).

Fixpoint owner_of (fuel : nat) (d : db) (t : model) (r : row) : option Z :=
  match fuel with
  | O => None
  | S fuel' =>
    match cascade_fk t with
    | None => match get "id" r with
              | VInt c => Some c
              | _ => None
              end
    | Some k =>
      match get (fk_col k) r with
      | VNull => None
      | v =>
        match find (fun p => if val_eq_dec (get (fk_ref k) p) v then true
                             else false) (d (fk_parent k)) with
        | Some p => owner_of fuel' d (fk_parent k) p
        | None => None
        end
      end
    end
  end.

Definition owner (d : db) (t : model) (r : row) : option Z :=
  owner_of (List.length all_models) d t r.

(** [pruned P t l l']: [l'] is [l] with some rows that satisfy [P] dropped
    and, in the rows kept, at most detachable columns changed. *)
Inductive pruned (P : row -> Prop) (t : model) : list row -> list row -> Prop :=
  | pruned_nil : pruned P t [] []
  | pruned_drop r l l' : P r -> pruned P t l l' -> pruned P t (r :: l) l'
  | pruned_keep r r' l l' :
      agree t r r' -> pruned P t l l' -> pruned P t (r :: l) (r' :: l').

(* ------------------------------------------------------------------ *)
(** ** Descendants, references and stored domains *)

(** [descends d t0 i t r]: row [r] of table [t] hangs, through a chain of
    [CASCADE] foreign keys followed in [d], from a row of [t0] with primary
    key [i]. *)
Inductive descends (d : db) (t0 : model) (i : Z) : model -> row -> Prop :=
  | descends_self r :
      get "id" r = VInt i -> descends d t0 i t0 r
  | descends_child k r p :
      In k foreign_keys -> fk_action k = CASCADE ->
      In p (d (fk_parent k)) ->
      get (fk_col k) r = get (fk_ref k) p -> get (fk_col k) r <> VNull ->
      descends d t0 i (fk_parent k) p ->
      descends d t0 i (fk_child k) r.

(** Every foreign key that holds a value references a stored row. *)
Definition no_orphans (d : db) : Prop :=
  forall k r,
    In k foreign_keys -> In r (d (fk_child k)) ->
    get (fk_col k) r <> VNull ->
    exists p, In p (d (fk_parent k)) /\ get (fk_ref k) p = get (fk_col k) r.

(** Every stored value is in the domain of its column. *)
Definition domain_ok (d : db) : Prop :=
  forall t r c, In r (d t) -> In c (columns t) ->
                in_domain (col_type c) (get (col_name c) r) = true.




(** [refines t r r']: [r'] is [r] with, at most, detachable columns
    cleared. *)
Definition refines (t : model) (r r' : row) : Prop :=
  forall c, get c r' = get c r \/ (In c (detachable t) /\ get c r' = VNull).

Definition evolves_by_detach (d d' : db) : Prop :=
  forall t r', In r' (d' t) -> exists r, In r (d t) /\ refines t r r'.

(** No row of [d'] that still references a row of [d], through any
    foreign key, has lost it. *)
Definition keeps_references (d d' : db) : Prop :=
  forall k r' p,
    In k foreign_keys ->
    In r' (d' (fk_child k)) -> In p (d (fk_parent k)) ->
    get (fk_col k) r' = get (fk_ref k) p -> get (fk_col k) r' <> VNull ->
    exists p', In p' (d' (fk_parent k)) /\ agree (fk_parent k) p p'.

Definition sound_step (d d' : db) : Prop :=
  evolves_by_detach d d' /\ keeps_references d d'.

(** The value a column receives when the object leaves it unset and the
    column is not the primary key. *)
Definition default_of (now : Z) (c : column) : val :=
  match default c with
  | Some (Const v) => v
  | Some UtcNow => VDateTime now
  | None => VNull
  end.

(** The stored form of a value: an enumeration member by its name. *)
Definition stored_form (v : val) : val :=
  match v with
  | VEnum m => VStr (member_name m)
  | _ => v
  end.

(** The defaults the schema declares. *)
Definition declared_defaults : list (model * string * default_value) :=
  flat_map (fun t =>
              flat_map (fun c => match default c with
                                 | Some v => [(t, col_name c, v)]
                                 | None => []
                                 end) (columns t))
           all_models.

(** The relationships that propagate deletion, with the foreign key each
    joins on. *)
Definition delete_cascades : list (model * string * model * string) :=
  flat_map (fun t =>
              flat_map (fun rel =>
                          if delete_cascade rel then
                            match rel_fkey t rel with
                            | Some k => [(t, rel_key rel, fk_child k, fk_col k)]
                            | None => []
                            end
                          else [])
                       (relationships t))
           all_models.

(* ------------------------------------------------------------------ *)
(** ** The package (__init__.py) *)

(** The name of each mapped class. *)
Definition classname (t : model) : string :=
  match t with
  | CustomerCore => "CustomerCore"
  | CustomerContact => "CustomerContact"
  | Account => "Account"
  | AccountBalance => "AccountBalance"
  | AccountTransaction => "AccountTransaction"
  | Card => "Card"
  | CardInvoice => "CardInvoice"
  | CardTransaction => "CardTransaction"
  | CreditContract => "CreditContract"
  | CreditSchedule => "CreditSchedule"
  | Collateral => "Collateral"
  | PositionFund => "PositionFund"
  | PositionFixedIncome => "PositionFixedIncome"
  | PositionEquity => "PositionEquity"
  | PositionTreasury => "PositionTreasury"
  | InvestmentMovement => "InvestmentMovement"
  | FxOperation => "FxOperation"
  | Consent => "Consent"
  | ConsentScope => "ConsentScope"
  | PaymentOrder => "PaymentOrder"
  end.

Definition enum_classname (e : enum_class) : string :=
  match e with
  | cMaritalStatus => "MaritalStatus"
  | cAccountType => "AccountType"
  | cCardProductType => "CardProductType"
  | cCreditProductType => "CreditProductType"
  | cInvestmentInstrumentType => "InvestmentInstrumentType"
  | cPaymentStatus => "PaymentStatus"
  end.

Definition all_enum_classes : list enum_class :=
  [ cMaritalStatus; cAccountType; cCardProductType; cCreditProductType;
    cInvestmentInstrumentType; cPaymentStatus ].

(** [from .models import (...)] (__init__.py, lines 32-54). *)
Definition package_imports : list string :=
  [ "Base"; "CustomerCore"; "CustomerContact"; "Account"; "AccountBalance";
    "AccountTransaction"; "Card"; "CardInvoice"; "CardTransaction";
    "CreditContract"; "CreditSchedule"; "Collateral"; "PositionFund";
    "PositionFixedIncome"; "PositionEquity"; "PositionTreasury";
    "InvestmentMovement"; "FxOperation"; "Consent"; "ConsentScope";
    "PaymentOrder" ].

(** [__all__] (__init__.py, lines 56-78). *)
Definition package_all : list string :=
  [ "Base"; "CustomerCore"; "CustomerContact"; "Account"; "AccountBalance";
    "AccountTransaction"; "Card"; "CardInvoice"; "CardTransaction";
    "CreditContract"; "CreditSchedule"; "Collateral"; "PositionFund";
    "PositionFixedIncome"; "PositionEquity"; "PositionTreasury";
    "InvestmentMovement"; "FxOperation"; "Consent"; "ConsentScope";
    "PaymentOrder" ].

(** The names the module models.py binds at top level that a package can
    re-export: the declarative base, the enumerations, the mapped
    classes. *)
Definition module_names : list string :=
  "Base" :: map enum_classname all_enum_classes ++ map classname all_models.

(** An object for the equity position of a customer. *)
Definition new_equity_position (customer : Z) (ticker : string)
           (quantity price : Z) : row :=
  [ ("customer_id", VInt customer); ("ticker", VStr ticker);
    ("quantity", VDec quantity); ("avg_price", VDec price) ].

(** An object for a payment order, with status and timestamps unset. *)
Definition new_payment_order (customer amount : Z) (scope : string) : row :=
  [ ("customer_id", VInt customer); ("amount", VDec amount);
    ("scope", VStr scope) ].

(** An object for an account. *)
Definition new_account (customer : Z) (a : AccountType) : row :=
  [ ("customer_id", VInt customer);
    ("account_type", VEnum (mAccountType a)) ].

(** Foreign keys and columns that the examples name. *)
Definition account_customer_fk : fkey :=
  {| fk_child := Account; fk_col := "customer_id"; fk_parent := CustomerCore;
     fk_ref := "id"; fk_action := CASCADE |}.

Definition balance_account_fk : fkey :=
  {| fk_child := AccountBalance; fk_col := "account_id"; fk_parent := Account;
     fk_ref := "id"; fk_action := CASCADE |}.

Definition transaction_invoice_fk : fkey :=
  {| fk_child := CardTransaction; fk_col := "invoice_id";
     fk_parent := CardInvoice; fk_ref := "id"; fk_action := SET_NULL |}.

Definition invoice_id_column : column :=
  Column "invoice_id" Integer
    <| with_foreign_key "card_invoices" "id" SET_NULL <| with_nullable true.

Definition invoice_transactions : relationship :=
  owns "transactions" CardTransaction "invoice".




(* ------------------------------------------------------------------ *)
(** * Basic facts about rows and tables *)

Lemma get_set_same c v r : get c (set c v r) = v.
Proof.
  induction r as [|[k x] r IH]; simpl.
  - now rewrite String.eqb_refl.
  - destruct (String.eqb k c) eqn:E; simpl; rewrite E; auto.
Qed.

Lemma get_set_other c c' v r : c <> c' -> get c' (set c v r) = get c' r.
Proof.
  intros Hne. induction r as [|[k x] r IH]; simpl.
  - apply String.eqb_neq in Hne. now rewrite Hne.
  - destruct (String.eqb k c) eqn:E; simpl.
    + apply String.eqb_eq in E. subst k.
      apply String.eqb_neq in Hne. now rewrite Hne.
    + now rewrite IH.
Qed.

Lemma put_table_same d t rows : put_table d t rows t = rows.
Proof. unfold put_table. destruct (model_eq_dec t t); congruence. Qed.

Lemma put_table_other d t rows t' : t <> t' -> put_table d t rows t' = d t'.
Proof. unfold put_table. destruct (model_eq_dec t t'); congruence. Qed.

Lemma selects_true c vs r :
  selects c vs r = true <-> get c r <> VNull /\ In (get c r) vs.
Proof.
  unfold selects. destruct (get c r) eqn:G;
    try (destruct (in_dec val_eq_dec _ vs) as [Hin|Hout]);
    split; intros H; try discriminate; try tauto;
    try (split; [discriminate|assumption]).
Qed.

Lemma in_fks_to k t : In k (fks_to t) <-> In k foreign_keys /\ fk_parent k = t.
Proof.
  unfold fks_to. rewrite filter_In.
  destruct (model_eq_dec (fk_parent k) t); intuition congruence.
Qed.

(* ------------------------------------------------------------------ *)
(** * Facts of the schema, checked by evaluation *)

Lemma all_models_complete t : In t all_models.
Proof. destruct t; simpl; tauto. Qed.

Lemma height_decreases k :
  In k foreign_keys -> (height (fk_child k) < height (fk_parent k))%nat.
Proof.
  assert (H : forallb (fun k => (height (fk_child k)
                                 <? height (fk_parent k))%nat)
                      foreign_keys = true) by (vm_compute; reflexivity).
  rewrite forallb_forall in H. intros Hk. apply Nat.ltb_lt. now apply H.
Qed.

Lemma height_bounded t : (height t < List.length all_models)%nat.
Proof. destruct t; vm_compute; lia. Qed.

Lemma cascade_col_stable k :
  In k foreign_keys -> fk_action k = CASCADE ->
  ~ In (fk_col k) (detachable (fk_child k)).
Proof.
  assert (H : forallb (fun k => match fk_action k with
                                | CASCADE =>
                                  if in_dec string_dec (fk_col k)
                                            (detachable (fk_child k))
                                  then false else true
                                | SET_NULL => true
                                end) foreign_keys = true)
    by (vm_compute; reflexivity).
  rewrite forallb_forall in H. intros Hk Ha. specialize (H k Hk).
  rewrite Ha in H.
  destruct (in_dec string_dec (fk_col k) (detachable (fk_child k)));
    [discriminate|assumption].
Qed.

Lemma ref_col_stable k :
  In k foreign_keys -> ~ In (fk_ref k) (detachable (fk_parent k)).
Proof.
  assert (H : forallb (fun k => if in_dec string_dec (fk_ref k)
                                          (detachable (fk_parent k))
                                then false else true) foreign_keys = true)
    by (vm_compute; reflexivity).
  rewrite forallb_forall in H. intros Hk. specialize (H k Hk).
  destruct (in_dec string_dec (fk_ref k) (detachable (fk_parent k)));
    [discriminate|assumption].
Qed.

Lemma set_null_col_detachable k :
  In k foreign_keys -> fk_action k = SET_NULL ->
  In (fk_col k) (detachable (fk_child k)).
Proof.
  assert (H : forallb (fun k => match fk_action k with
                                | SET_NULL =>
                                  if in_dec string_dec (fk_col k)
                                            (detachable (fk_child k))
                                  then true else false
                                | CASCADE => true
                                end) foreign_keys = true)
    by (vm_compute; reflexivity).
  rewrite forallb_forall in H. intros Hk Ha. specialize (H k Hk).
  rewrite Ha in H.
  destruct (in_dec string_dec (fk_col k) (detachable (fk_child k)));
    [assumption|discriminate].
Qed.

Lemma id_stable t : ~ In "id" (detachable t).
Proof. destruct t; vm_compute; intuition discriminate. Qed.

(** Every table other than the root is owned, through [CASCADE] foreign
    keys, by [CustomerCore]. *)
Lemma ownership_graph_rooted t :
  owner_root (List.length all_models) t = CustomerCore.
Proof. destruct t; reflexivity. Qed.

(* ------------------------------------------------------------------ *)
(** * What every DELETE preserves *)

Lemma agree_refl t r : agree t r r.
Proof. intros c _. reflexivity. Qed.

Lemma agree_sym t r r' : agree t r r' -> agree t r' r.
Proof. intros H c Hc. symmetry. now apply H. Qed.

Lemma agree_trans t r1 r2 r3 : agree t r1 r2 -> agree t r2 r3 -> agree t r1 r3.
Proof. intros H12 H23 c Hc. rewrite (H23 c Hc). now apply H12. Qed.

Lemma agree_selects t r r' c vs :
  agree t r r' -> ~ In c (detachable t) -> selects c vs r' = selects c vs r.
Proof. intros H Hc. unfold selects. now rewrite (H c Hc). Qed.

Lemma evolves_refl d : evolves d d.
Proof. intros t r Hr. exists r. split; [assumption|apply agree_refl]. Qed.

Lemma evolves_trans d1 d2 d3 : evolves d1 d2 -> evolves d2 d3 -> evolves d1 d3.
Proof.
  intros H12 H23 t r3 H3.
  destruct (H23 t r3 H3) as (r2 & H2 & A23).
  destruct (H12 t r2 H2) as (r1 & H1 & A12).
  exists r1. split; [assumption|]. eapply agree_trans; eassumption.
Qed.

Lemma preserves_refl d : preserves d d.
Proof.
  split; [apply evolves_refl|].
  intros k r' p _ _ _ Hp _ _. exists p. split; [assumption|apply agree_refl].
Qed.

Lemma preserves_trans d1 d2 d3 :
  preserves d1 d2 -> preserves d2 d3 -> preserves d1 d3.
Proof.
  intros [E12 K12] [E23 K23]. split; [eapply evolves_trans; eassumption|].
  intros k r3 p1 Hk Ha Hr3 Hp1 Href Hnn.
  destruct (E23 _ _ Hr3) as (r2 & Hr2 & A23).
  pose proof (A23 _ (cascade_col_stable k Hk Ha)) as Hcol.
  destruct (K12 k r2 p1 Hk Ha Hr2 Hp1) as (p2 & Hp2 & Ap12);
    [congruence|congruence|].
  pose proof (Ap12 _ (ref_col_stable k Hk)) as Hrefcol.
  destruct (K23 k r3 p2 Hk Ha Hr3 Hp2) as (p3 & Hp3 & Ap23);
    [congruence|assumption|].
  exists p3. split; [assumption|]. eapply agree_trans; eassumption.
Qed.

Lemma fold_left_invariant {A B} (P : A -> Prop) (f : A -> B -> A) l a :
  P a -> (forall a b, In b l -> P a -> P (f a b)) -> P (fold_left f l a).
Proof.
  revert a. induction l as [|b l IH]; intros a Ha Hstep; simpl; [assumption|].
  apply IH.
  - apply Hstep; [now left|assumption].
  - intros a' b' Hb'. apply Hstep. now right.
Qed.

Lemma fold_left_establishes {A B} (Q : A -> Prop) (f : A -> B -> A) l a k :
  In k l -> (forall a, Q (f a k)) ->
  (forall a b, In b l -> Q a -> Q (f a b)) -> Q (fold_left f l a).
Proof.
  revert a. induction l as [|b l IH]; intros a Hk Hest Hkeep; simpl;
    [contradiction|].
  destruct Hk as [->|Hk].
  - apply fold_left_invariant; [apply Hest|].
    intros a' b' Hb'. apply Hkeep. now right.
  - apply IH; [assumption|assumption|].
    intros a' b' Hb'. apply Hkeep. now right.
Qed.

Lemma set_null_row_agree k keys r :
  In k foreign_keys -> fk_action k = SET_NULL ->
  agree (fk_child k) r
        (if selects (fk_col k) keys r then set (fk_col k) VNull r else r).
Proof.
  intros Hk Ha. destruct (selects (fk_col k) keys r); [|apply agree_refl].
  intros c Hc. apply get_set_other. intros E.
  apply Hc. rewrite <- E. now apply set_null_col_detachable.
Qed.

Lemma set_null_preserves k keys d :
  In k foreign_keys -> fk_action k = SET_NULL ->
  preserves d (set_null k keys d).
Proof.
  intros Hk Ha. unfold set_null. split.
  - intros t r' Hr'. destruct (model_eq_dec (fk_child k) t) as [<-|Hne].
    + rewrite put_table_same in Hr'. apply in_map_iff in Hr'.
      destruct Hr' as (r & <- & Hr). exists r. split; [assumption|].
      now apply set_null_row_agree.
    + rewrite put_table_other in Hr' by assumption.
      exists r'. split; [assumption|apply agree_refl].
  - intros k' r' p Hk' Ha' _ Hp _ _.
    destruct (model_eq_dec (fk_child k) (fk_parent k')) as [E|Hne].
    + rewrite <- E, put_table_same. rewrite <- E in Hp.
      eexists. split; [apply in_map; exact Hp|].
      now apply set_null_row_agree.
    + rewrite put_table_other by assumption.
      exists p. split; [assumption|apply agree_refl].
Qed.

Lemma db_delete_unfold fuel t c vs d :
  db_delete (S fuel) t c vs d
  = fold_left
      (fun acc k =>
         match fk_action k with
         | CASCADE => db_delete fuel (fk_child k) (fk_col k)
                        (map (get (fk_ref k)) (filter (selects c vs) (d t))) acc
         | SET_NULL =>
           set_null k (map (get (fk_ref k)) (filter (selects c vs) (d t))) acc
         end)
      (fks_to t)
      (put_table d t (filter (fun r => negb (selects c vs r)) (d t))).
Proof. reflexivity. Qed.

(** A delete on [t] leaves alone every table that is not below [t] in the
    foreign-key graph. *)
Lemma db_delete_frame fuel :
  forall t c vs d t',
    (height t <= height t')%nat -> t <> t' ->
    db_delete fuel t c vs d t' = d t'.
Proof.
  induction fuel as [|fuel IH]; intros t c vs d t' Hh Hne; simpl;
    [reflexivity|].
  set (d1 := put_table d t _).
  transitivity (d1 t'); [|subst d1; now apply put_table_other].
  apply (fold_left_invariant (fun acc => acc t' = d1 t')); [reflexivity|].
  intros acc k Hk Hacc. apply in_fks_to in Hk. destruct Hk as [Hk Hp].
  pose proof (height_decreases k Hk) as Hlt. rewrite Hp in Hlt.
  assert (Hck : fk_child k <> t') by (intros <-; lia).
  destruct (fk_action k).
  - rewrite IH; [assumption|lia|assumption].
  - unfold set_null. rewrite put_table_other; assumption.
Qed.

(** On [t] itself the delete removes exactly the selected rows. *)
Lemma db_delete_self fuel t c vs d :
  db_delete (S fuel) t c vs d t = filter (fun r => negb (selects c vs r)) (d t).
Proof.
  simpl. set (d1 := put_table d t _).
  transitivity (d1 t); [|subst d1; apply put_table_same].
  apply (fold_left_invariant (fun acc => acc t = d1 t)); [reflexivity|].
  intros acc k Hk Hacc. apply in_fks_to in Hk. destruct Hk as [Hk Hp].
  pose proof (height_decreases k Hk) as Hlt. rewrite Hp in Hlt.
  assert (Hck : fk_child k <> t) by (intros E; rewrite E in Hlt; lia).
  destruct (fk_action k).
  - rewrite db_delete_frame; [assumption|lia|assumption].
  - unfold set_null. rewrite put_table_other; assumption.
Qed.

Lemma db_delete_removes fuel t c vs d r :
  In r (db_delete (S fuel) t c vs d t) -> selects c vs r = false.
Proof.
  rewrite db_delete_self, filter_In. intros [_ H].
  now apply negb_true_iff in H.
Qed.

(** The central lemma: a delete never removes a parent and leaves one of
    its [CASCADE] children behind. *)
Lemma db_delete_preserves fuel :
  forall t c vs d,
    (height t < fuel)%nat -> preserves d (db_delete fuel t c vs d).
Proof.
  induction fuel as [|fuel IH]; intros t c vs d Hfuel; [lia|].
  simpl.
  set (victims := filter (selects c vs) (d t)).
  set (d1 := put_table d t (filter (fun r => negb (selects c vs r)) (d t))).
  set (step := fun acc k =>
                 match fk_action k with
                 | CASCADE => db_delete fuel (fk_child k) (fk_col k)
                                        (map (get (fk_ref k)) victims) acc
                 | SET_NULL => set_null k (map (get (fk_ref k)) victims) acc
                 end).
  assert (Hstep : forall acc k, In k (fks_to t) -> preserves acc (step acc k)).
  { intros acc k Hk. apply in_fks_to in Hk. destruct Hk as [Hk Hp].
    pose proof (height_decreases k Hk) as Hlt. rewrite Hp in Hlt.
    unfold step. destruct (fk_action k) eqn:Ha.
    - apply IH. lia.
    - now apply set_null_preserves. }
  assert (Hfold : preserves d1 (fold_left step (fks_to t) d1)).
  { apply (fold_left_invariant (fun acc => preserves d1 acc));
      [apply preserves_refl|].
    intros acc k Hk Hacc. eapply preserves_trans; [exact Hacc|].
    now apply Hstep. }
  assert (Hsub : forall t' r, In r (d1 t') -> In r (d t')).
  { intros t' r. subst d1. destruct (model_eq_dec t t') as [<-|Hne].
    - rewrite put_table_same, filter_In. tauto.
    - now rewrite put_table_other. }
  destruct Hfold as [Efold Kfold]. split.
  - intros t' r' Hr'. destruct (Efold _ _ Hr') as (r & Hr & A).
    exists r. split; [now apply Hsub|assumption].
  - intros k r' p Hk Ha Hr' Hp Href Hnn.
    destruct (model_eq_dec t (fk_parent k)) as [Et|Hne].
    + destruct (selects c vs p) eqn:Hsel.
      * (* the parent is deleted: the child cannot have survived *)
        exfalso.
        assert (Hkt : In k (fks_to t)) by (apply in_fks_to; split; congruence).
        assert (Hgone : forall r0,
                   In r0 (fold_left step (fks_to t) d1 (fk_child k)) ->
                   selects (fk_col k) (map (get (fk_ref k)) victims) r0
                   = false).
        { apply (fold_left_establishes
                   (fun acc => forall r0, In r0 (acc (fk_child k)) ->
                      selects (fk_col k) (map (get (fk_ref k)) victims) r0
                      = false) step (fks_to t) d1 k Hkt).
          - intros acc r0. unfold step. rewrite Ha.
            pose proof (height_decreases k Hk) as Hlt.
            destruct fuel as [|fuel']; [rewrite <- Et in Hlt; lia|].
            apply db_delete_removes.
          - intros acc k2 Hk2 Hacc r0 Hr0.
            destruct (Hstep acc k2 Hk2) as [E2 _].
            destruct (E2 _ _ Hr0) as (r1 & Hr1 & A).
            rewrite (agree_selects _ _ _ _ _ A (cascade_col_stable k Hk Ha)).
            now apply Hacc. }
        specialize (Hgone r' Hr').
        assert (Htrue : selects (fk_col k) (map (get (fk_ref k)) victims) r'
                        = true).
        { apply selects_true. split; [assumption|].
          rewrite Href. apply in_map. subst victims.
          apply filter_In. split; [now rewrite Et|assumption]. }
        congruence.
      * apply (Kfold k r' p Hk Ha Hr'); [|assumption|assumption].
        subst d1. rewrite <- Et, put_table_same. apply filter_In.
        split; [now rewrite Et|now rewrite Hsel].
    + apply (Kfold k r' p Hk Ha Hr'); [|assumption|assumption].
      subst d1. now rewrite put_table_other.
Qed.

(* ------------------------------------------------------------------ *)
(** * Deleting a customer *)

Lemma delete_preserves d t i : preserves d (delete d t i).
Proof. apply db_delete_preserves, height_bounded. Qed.

Lemma delete_removes d t i r :
  In r (delete d t i t) -> get "id" r <> VInt i.
Proof.
  unfold delete. change (List.length all_models) with (S 19).
  intros H E. apply db_delete_removes in H.
  assert (selects "id" [VInt i] r = true); [|congruence].
  apply selects_true. rewrite E. split; [discriminate|now left].
Qed.

Lemma flush_deletes_preserves objs d : preserves d (flush_deletes objs d).
Proof.
  unfold flush_deletes.
  apply (fold_left_invariant (fun acc => preserves d acc));
    [apply preserves_refl|].
  intros acc o _ Hacc. eapply preserves_trans; [exact Hacc|].
  apply db_delete_preserves, height_bounded.
Qed.

Lemma flush_deletes_cons o objs d :
  flush_deletes (o :: objs) d
  = db_delete (List.length all_models) (fst o) "id" [get "id" (snd o)]
              (flush_deletes objs d).
Proof. unfold flush_deletes. simpl rev. now rewrite fold_left_app. Qed.

Lemma cascade_iterator_head fuel d t r :
  exists rest, cascade_iterator (S fuel) d t r = (t, r) :: rest.
Proof. eexists. reflexivity. Qed.

(** The unit of work deletes the object itself last. *)
Lemma session_delete_removes d t i r0 r :
  In r0 (d t) -> get "id" r0 = VInt i ->
  In r (session_delete d t i t) -> get "id" r <> VInt i.
Proof.
  intros Hr0 Hid. unfold session_delete.
  assert (Hsel : In r0 (filter (selects "id" [VInt i]) (d t))).
  { apply filter_In. split; [assumption|]. apply selects_true.
    rewrite Hid. split; [discriminate|now left]. }
  destruct (filter (selects "id" [VInt i]) (d t)) as [|r1 rs] eqn:F;
    [contradiction|].
  assert (Hr1 : get "id" r1 = VInt i).
  { assert (H1 : In r1 (filter (selects "id" [VInt i]) (d t)))
      by (rewrite F; now left).
    apply filter_In in H1. destruct H1 as [_ H1].
    apply selects_true in H1. destruct H1 as [_ [H1|[]]]. now symmetry. }
  change (List.length all_models) with (S 19). cbn [flat_map].
  destruct (cascade_iterator_head 19 d t r1) as [rest ->].
  rewrite <- app_comm_cons, flush_deletes_cons.
  change (List.length all_models) with (S 19). cbn [fst snd].
  intros H E. apply db_delete_removes in H.
  assert (selects "id" [get "id" r1] r = true); [|congruence].
  apply selects_true. rewrite E, Hr1. split; [discriminate|now left].
Qed.

(** Once the customer row is gone, and no delete has left a child without
    its parent, nothing that belonged to the customer is left. *)
Lemma nothing_owned_left d d' c :
  preserves d d' ->
  (forall r, In r (d' CustomerCore) -> get "id" r <> VInt c) ->
  forall t r, owned d c t r ->
  forall r', agree t r r' -> In r' (d' t) -> False.
Proof.
  intros [E K] Hroot t r Hown.
  induction Hown as [r Hid|k r p Hk Ha Hp Href Hnn Hown IH]; intros r' A Hr'.
  - apply (Hroot r' Hr'). rewrite (A _ (id_stable CustomerCore)). assumption.
  - pose proof (A _ (cascade_col_stable k Hk Ha)) as Hcol.
    destruct (K k r' p Hk Ha Hr' Hp) as (p' & Hp' & Ap);
      [congruence|congruence|].
    exact (IH p' Ap Hp').
Qed.

Lemma fks_to_customer k :
  In k foreign_keys -> fk_parent k = CustomerCore ->
  fk_action k = CASCADE /\ fk_ref k = "id".
Proof.
  assert (H : forallb (fun k => match fk_parent k, fk_action k with
                                | CustomerCore, CASCADE =>
                                  String.eqb (fk_ref k) "id"
                                | CustomerCore, SET_NULL => false
                                | _, _ => true
                                end) foreign_keys = true)
    by (vm_compute; reflexivity).
  rewrite forallb_forall in H. intros Hk Hp. specialize (H k Hk).
  rewrite Hp in H. destruct (fk_action k); [|discriminate].
  apply String.eqb_eq in H. now split.
Qed.

Lemma foreign_keys_of_spec t k :
  In k (foreign_keys_of t) -> In k foreign_keys /\ fk_child k = t.
Proof.
  intros Hk. split.
  - unfold foreign_keys. apply in_flat_map. exists t.
    split; [apply all_models_complete|assumption].
  - unfold foreign_keys_of in Hk. apply in_flat_map in Hk.
    destruct Hk as (c & _ & Hk).
    destruct (foreign_key c) as [f|]; [|contradiction].
    destruct (model_of_table (fk_table f)); [|contradiction].
    destruct Hk as [<-|[]]. reflexivity.
Qed.

Lemma cascade_fk_spec t k :
  cascade_fk t = Some k ->
  In k foreign_keys /\ fk_action k = CASCADE /\ fk_child k = t.
Proof.
  unfold cascade_fk. intros H. apply find_some in H. destruct H as [Hk Ha].
  destruct (foreign_keys_of_spec t k Hk) as [Hin Hc].
  repeat split; try assumption. now destruct (fk_action k).
Qed.

Lemma cascade_fk_root t : cascade_fk t = None -> t = CustomerCore.
Proof. destruct t; first [reflexivity|discriminate]. Qed.

(** The computed owner is an owner in the sense of [owned]. *)
Lemma owner_of_owned fuel :
  forall d t r c, owner_of fuel d t r = Some c -> owned d c t r.
Proof.
  induction fuel as [|fuel IH]; intros d t r c H; [discriminate|].
  cbn [owner_of] in H. destruct (cascade_fk t) as [k|] eqn:Hk.
  - destruct (cascade_fk_spec t k Hk) as (Hin & Ha & <-).
    destruct (get (fk_col k) r) eqn:Hcol; try discriminate;
      (match type of H with
       | match find ?f ?l with _ => _ end = _ =>
         destruct (find f l) as [p|] eqn:Hp; [|discriminate]
       end;
       apply find_some in Hp; destruct Hp as [Hp Href];
       destruct (val_eq_dec (get (fk_ref k) p) _) as [E|]; [|discriminate];
       apply (owned_child d c k r p Hin Ha Hp);
       [congruence|rewrite Hcol; discriminate|now apply IH]).
  - rewrite (cascade_fk_root t Hk).
    destruct (get "id" r) eqn:Hid; try discriminate.
    injection H as <-. now apply owned_root.
Qed.

Lemma owner_owned d t r c : owner d t r = Some c -> owned d c t r.
Proof. unfold owner. apply owner_of_owned. Qed.

(** C1.  For every customer row [rc] with primary key [c], deleting it,
    with a DELETE statement ([delete]) or through the ORM
    ([session_delete]), leaves no customer row with that key, no row of any
    table that belonged to the customer through the ownership graph
    ([owned], over the [CASCADE] foreign keys: contacts, accounts with
    balances and transactions, cards with invoices and transactions, credit
    contracts with schedules and collaterals, the four position tables,
    investment movements, FX operations, consents with scopes, payment
    orders), so no row whose owner, computed in the database before the
    delete, is [c], and no row whose foreign key to [customer_core] still
    holds [c]; and every table other than [customer_core] is in that
    graph. *)
Theorem C1_cascade_completeness (d : db) (c : Z) (rc : row) :
  In rc (d CustomerCore) -> get "id" rc = VInt c ->
  forall d',
    d' = delete d CustomerCore c \/ d' = session_delete d CustomerCore c ->
    (forall r, In r (d' CustomerCore) -> get "id" r <> VInt c)
    /\ (forall t r, In r (d' t) -> ~ owned d c t r)
    /\ (forall t r, In r (d' t) -> owner d t r <> Some c)
    /\ (forall k r, In k foreign_keys -> fk_parent k = CustomerCore ->
                    In r (d' (fk_child k)) -> get (fk_col k) r <> VInt c)
    /\ (forall t, owner_root (List.length all_models) t = CustomerCore).
Proof.
  intros Hrc Hid d' Hd'.
  assert (Hpres : preserves d d').
  { destruct Hd' as [->| ->];
      [apply delete_preserves|apply flush_deletes_preserves]. }
  assert (Hroot : forall r, In r (d' CustomerCore) -> get "id" r <> VInt c).
  { destruct Hd' as [->| ->]; intros r Hr.
    - now apply delete_removes in Hr.
    - now apply (session_delete_removes d CustomerCore c rc r Hrc Hid). }
  assert (Hown : forall t r, In r (d' t) -> ~ owned d c t r).
  { intros t r Hr Ho.
    exact (nothing_owned_left d d' c Hpres Hroot t r Ho r (agree_refl t r)
                              Hr). }
  repeat split; try assumption.
  - intros t r Hr Ho. apply (Hown t r Hr). now apply owner_owned.
  - intros k r Hk Hp Hr E.
    destruct (fks_to_customer k Hk Hp) as [Ha Href].
    apply (Hown _ r Hr).
    apply (owned_child d c k r rc Hk Ha).
    + now rewrite Hp.
    + rewrite E, Href. now symmetry.
    + rewrite E. discriminate.
    + rewrite Hp. now apply owned_root.
  - apply ownership_graph_rooted.
Qed.

(* ------------------------------------------------------------------ *)
(** * Deleting a customer deletes nothing else *)

Lemma pruned_refl P t l : pruned P t l l.
Proof.
  induction l; [constructor|].
  apply pruned_keep; [apply agree_refl|assumption].
Qed.

Lemma pruned_trans (P : row -> Prop) t l1 l2 :
  (forall r r', agree t r r' -> P r' -> P r) ->
  pruned P t l1 l2 -> forall l3, pruned P t l2 l3 -> pruned P t l1 l3.
Proof.
  intros HP. induction 1 as [|r l l2 Hr H12 IH|r r' l l2 A H12 IH];
    intros l3 H23.
  - assumption.
  - apply pruned_drop; [assumption|now apply IH].
  - inversion H23 as [|? ? ? Hr' H|? r'' ? l3' A' H]; subst.
    + apply pruned_drop; [now apply (HP r r')|now apply IH].
    + apply pruned_keep; [eapply agree_trans; eassumption|now apply IH].
Qed.

Lemma pruned_filter (P : row -> Prop) t f l :
  (forall r, In r l -> f r = false -> P r) -> pruned P t l (filter f l).
Proof.
  induction l as [|r l IH]; intros H; simpl; [constructor|].
  destruct (f r) eqn:F.
  - apply pruned_keep; [apply agree_refl|].
    apply IH. intros x Hx. apply H. now right.
  - apply pruned_drop; [apply H; [now left|assumption]|].
    apply IH. intros x Hx. apply H. now right.
Qed.

Lemma pruned_map P t g l :
  (forall r, agree t r (g r)) -> pruned P t l (map g l).
Proof.
  intros Hg. induction l as [|r l IH]; simpl; [constructor|].
  apply pruned_keep; [apply Hg|assumption].
Qed.

Lemma pruned_In P t l l' r' :
  pruned P t l l' -> In r' l' -> exists r, In r l /\ agree t r r'.
Proof.
  induction 1 as [|r l l' Hr H IH|r r0 l l' A H IH]; intros Hin.
  - contradiction.
  - destruct (IH Hin) as (x & Hx & Ax). exists x. split; [now right|assumption].
  - destruct Hin as [<-|Hin].
    + exists r. split; [now left|assumption].
    + destruct (IH Hin) as (x & Hx & Ax). exists x.
      split; [now right|assumption].
Qed.

(** A row that does not satisfy [P] is kept. *)
Lemma pruned_keeps P t l l' r :
  pruned P t l l' -> In r l -> ~ P r -> exists r', In r' l' /\ agree t r r'.
Proof.
  induction 1 as [|r0 l l' Hr0 H IH|r0 r1 l l' A H IH]; intros Hin Hnot.
  - contradiction.
  - destruct Hin as [->|Hin]; [contradiction|]. now apply IH.
  - destruct Hin as [->|Hin].
    + exists r1. split; [now left|assumption].
    + destruct (IH Hin Hnot) as (r' & Hr' & A'). exists r'.
      split; [now right|assumption].
Qed.

(** Ownership reads only columns that no delete changes. *)
Lemma owned_agree d c t r r' : agree t r r' -> owned d c t r' -> owned d c t r.
Proof.
  intros A H. revert r A.
  destruct H as [r' Hid|k r' p Hk Ha Hp Href Hnn Hown]; intros r A.
  - apply owned_root. rewrite <- Hid. symmetry.
    apply A, id_stable.
  - pose proof (A _ (cascade_col_stable k Hk Ha)) as Hcol.
    apply (owned_child d c k r p Hk Ha Hp); [congruence|congruence|assumption].
Qed.

(** The rows a delete removes, started on rows owned by customer [c], are
    all owned by [c]. *)
Lemma db_delete_pruned d c fuel :
  forall t col vs acc,
    evolves d acc ->
    (forall r, In r (acc t) -> selects col vs r = true -> owned d c t r) ->
    forall t', pruned (owned d c t') t' (acc t')
                      (db_delete fuel t col vs acc t').
Proof.
  induction fuel as [|fuel IH]; intros t col vs acc Hev Hsel t';
    [apply pruned_refl|].
  rewrite db_delete_unfold.
  set (victims := filter (selects col vs) (acc t)).
  apply (fold_left_invariant
           (fun a => forall t', pruned (owned d c t') t' (acc t') (a t'))).
  - clear t'. intros t'. destruct (model_eq_dec t t') as [<-|Hne].
    + rewrite put_table_same. apply pruned_filter.
      intros r Hr Hf. apply negb_false_iff in Hf. now apply Hsel.
    + rewrite put_table_other by assumption. apply pruned_refl.
  - clear t'. intros a k Hk Ha t'.
    apply in_fks_to in Hk. destruct Hk as [Hk Hparent].
    assert (Heva : evolves d a).
    { intros t0 r0 Hr0.
      destruct (pruned_In _ _ _ _ r0 (Ha t0) Hr0) as (r1 & Hr1 & A1).
      destruct (Hev t0 r1 Hr1) as (r2 & Hr2 & A2).
      exists r2. split; [assumption|]. eapply agree_trans; eassumption. }
    apply (pruned_trans _ t' (acc t') (a t'));
      [intros r r'; apply owned_agree|apply Ha|].
    destruct (fk_action k) eqn:Hact.
    + apply IH; [assumption|]. intros r Hr Hs.
      apply selects_true in Hs. destruct Hs as [Hnn Hin].
      apply in_map_iff in Hin. destruct Hin as (p' & Href & Hp').
      apply filter_In in Hp'. destruct Hp' as [Hp' Hselp].
      destruct (Hev t p' Hp') as (p & Hp & Ap).
      apply (owned_child d c k r p Hk Hact).
      * now rewrite Hparent.
      * rewrite <- Href. apply Ap.
        rewrite <- Hparent. now apply ref_col_stable.
      * assumption.
      * rewrite Hparent. apply (owned_agree d c t p p' Ap).
        now apply Hsel.
    + unfold set_null. destruct (model_eq_dec (fk_child k) t') as [<-|Hne].
      * rewrite put_table_same. apply pruned_map. intros r.
        now apply set_null_row_agree.
      * rewrite put_table_other by assumption. apply pruned_refl.
Qed.

(** Deleting customer [c] with a DELETE statement removes only rows that
    [c] owns: every row that [c] does not own is still there, with at most
    detachable columns changed. *)
Lemma delete_customer_spares_others d c t r :
  In r (d t) -> ~ owned d c t r ->
  exists r', In r' (delete d CustomerCore c t) /\ agree t r r'.
Proof.
  intros Hr Hnot.
  apply (pruned_keeps (owned d c t) t (d t)); try assumption.
  unfold delete. apply db_delete_pruned; [apply evolves_refl|].
  intros r0 _ Hs. apply owned_root.
  apply selects_true in Hs. destruct Hs as [_ [H|[]]]. now symmetry.
Qed.

(* ------------------------------------------------------------------ *)
(** * Deleting a card invoice *)

Lemma fks_to_CardInvoice :
  fks_to CardInvoice
  = [ {| fk_child := CardTransaction; fk_col := "invoice_id";
         fk_parent := CardInvoice; fk_ref := "id"; fk_action := SET_NULL |} ].
Proof. reflexivity. Qed.

(** The DELETE statement on [card_invoices] detaches: the table of card
    transactions keeps every row, in place, and the rows that referenced a
    deleted invoice have [invoice_id] cleared. *)
Lemma delete_invoice_detaches d i :
  delete d CardInvoice i CardTransaction
  = map (fun r => if selects "invoice_id"
                       (map (get "id")
                            (filter (selects "id" [VInt i]) (d CardInvoice))) r
                  then set "invoice_id" VNull r else r)
        (d CardTransaction).
Proof.
  unfold delete. change (List.length all_models) with (S 19).
  rewrite db_delete_unfold, fks_to_CardInvoice.
  cbn [fold_left fk_action fk_ref fk_col fk_child]. unfold set_null.
  cbn [fk_child fk_col]. rewrite put_table_same.
  now rewrite put_table_other by discriminate.
Qed.

(** On that path a linked transaction survives with every field but
    [invoice_id] unchanged. *)
Lemma delete_invoice_keeps_transaction d i inv r :
  In inv (d CardInvoice) -> get "id" inv = VInt i ->
  In r (d CardTransaction) -> get "invoice_id" r = VInt i ->
  In (set "invoice_id" VNull r) (delete d CardInvoice i CardTransaction)
  /\ get "invoice_id" (set "invoice_id" VNull r) = VNull
  /\ forall c, c <> "invoice_id" ->
               get c (set "invoice_id" VNull r) = get c r.
Proof.
  intros Hinv Hid Hr Hlink. split; [|split].
  - rewrite delete_invoice_detaches.
    apply in_map_iff. exists r. split; [|assumption].
    assert (H : selects "invoice_id"
                  (map (get "id")
                       (filter (selects "id" [VInt i]) (d CardInvoice))) r
                = true); [|now rewrite H].
    apply selects_true. rewrite Hlink. split; [discriminate|].
    rewrite <- Hid. apply in_map. apply filter_In. split; [assumption|].
    apply selects_true. rewrite Hid. split; [discriminate|now left].
  - apply get_set_same.
  - intros c Hc. apply get_set_other. congruence.
Qed.

(** Every object the unit of work collected is gone after the flush. *)
Lemma flush_deletes_removes objs d t r r' :
  In (t, r) objs -> get "id" r <> VNull ->
  In r' (flush_deletes objs d t) -> get "id" r' <> get "id" r.
Proof.
  intros Hin Hnn Hr' E.
  assert (H : forall r0, In r0 (flush_deletes objs d t) ->
                         selects "id" [get "id" r] r0 = false).
  { unfold flush_deletes.
    apply (fold_left_establishes
             (fun acc => forall r0, In r0 (acc t) ->
                                    selects "id" [get "id" r] r0 = false)
             _ (rev objs) d (t, r)).
    - now apply -> in_rev.
    - intros acc r0. cbn [fst snd].
      change (List.length all_models) with (S 19). apply db_delete_removes.
    - intros acc o _ Hacc r0 Hr0.
      destruct (db_delete_preserves (List.length all_models) (fst o) "id"
                  [get "id" (snd o)] acc (height_bounded _)) as [Ev _].
      destruct (Ev _ _ Hr0) as (r1 & Hr1 & A).
      rewrite (agree_selects _ _ _ _ _ A (id_stable t)). now apply Hacc. }
  specialize (H r' Hr').
  assert (selects "id" [get "id" r] r' = true); [|congruence].
  apply selects_true. rewrite E. split; [assumption|now left].
Qed.

(** [session.delete(invoice)] collects the invoice's transactions: the
    relationship [CardInvoice.transactions] has cascade
    "all, delete-orphan". *)
Lemma invoice_cascade_reaches_transactions d inv r :
  In r (d CardTransaction) ->
  get "invoice_id" r = get "id" inv -> get "id" inv <> VNull ->
  In (CardTransaction, r)
     (cascade_iterator (List.length all_models) d CardInvoice inv).
Proof.
  intros Hr Hlink Hnn.
  change (List.length all_models) with (S (S 18)).
  cbn [cascade_iterator]. right.
  change (relationships CardInvoice)
    with [ belongs_to "card" Card (Some "invoices");
           owns "transactions" CardTransaction "invoice" ].
  cbn [flat_map].
  change (delete_cascade (belongs_to "card" Card (Some "invoices")))
    with false.
  change (delete_cascade (owns "transactions" CardTransaction "invoice"))
    with true.
  change (rel_fkey CardInvoice (owns "transactions" CardTransaction "invoice"))
    with (Some {| fk_child := CardTransaction; fk_col := "invoice_id";
                  fk_parent := CardInvoice; fk_ref := "id";
                  fk_action := SET_NULL |}).
  cbn [app fk_col fk_ref fk_child rel_argument owns].
  rewrite app_nil_r. apply in_flat_map. exists r. split.
  - apply filter_In. split; [assumption|]. apply selects_true.
    rewrite Hlink. split; [assumption|now left].
  - now left.
Qed.

(** So through the ORM, deleting an invoice deletes every transaction
    linked to it. *)
Lemma session_delete_invoice_deletes_transactions d i inv r :
  In inv (d CardInvoice) -> get "id" inv = VInt i ->
  In r (d CardTransaction) -> get "invoice_id" r = VInt i ->
  get "id" r <> VNull ->
  forall r', In r' (session_delete d CardInvoice i CardTransaction) ->
             get "id" r' <> get "id" r.
Proof.
  intros Hinv Hid Hr Hlink Hnn r'. unfold session_delete.
  apply flush_deletes_removes; [|assumption].
  apply in_flat_map. exists inv. split.
  - apply filter_In. split; [assumption|]. apply selects_true.
    rewrite Hid. split; [discriminate|now left].
  - apply invoice_cascade_reaches_transactions; [assumption|congruence|].
    rewrite Hid. discriminate.
Qed.

(** C2, on the code.  In [sample_db] card transaction 1 is linked to
    invoice 1.  The DELETE statement on the invoice keeps the transaction
    and clears its [invoice_id], as the foreign key declares
    ([ondelete="SET NULL"]); [session.delete] on the invoice deletes the
    transaction, as the relationship declares
    ([cascade="all, delete-orphan"]): only the unbilled transaction 2 is
    left. *)
Theorem C2_invoice_delete_paths_disagree :
  map (fun r => (get "id" r, get "invoice_id" r)) (sample_db CardTransaction)
  = [(VInt 1, VInt 1); (VInt 2, VNull)]
  /\ map (fun r => (get "id" r, get "invoice_id" r))
         (delete sample_db CardInvoice 1 CardTransaction)
     = [(VInt 1, VNull); (VInt 2, VNull)]
  /\ map (fun r => (get "id" r, get "invoice_id" r))
         (session_delete sample_db CardInvoice 1 CardTransaction)
     = [(VInt 2, VNull)].
Proof. vm_compute. repeat split. Qed.

(* ------------------------------------------------------------------ *)
(** * Writes: general facts *)

Arguments numeric_fits : simpl never.
Arguments string_fits : simpl never.
Arguments int_fits : simpl never.
Arguments float_round_trip : simpl never.
Arguments next_id : simpl never.

Lemma next_id_above rows r i :
  In r rows -> get "id" r = VInt i -> i < next_id rows.
Proof.
  unfold next_id. induction rows as [|r0 rows IH]; intros Hin Hid;
    [contradiction|].
  cbn [fold_right]. destruct Hin as [->|Hin].
  - rewrite Hid. lia.
  - specialize (IH Hin Hid). destruct (get "id" r0); lia.
Qed.

Lemma next_id_fresh rows r : In r rows -> get "id" r <> VInt (next_id rows).
Proof. intros Hin E. pose proof (next_id_above rows r _ Hin E). lia. Qed.

Lemma column_names_distinct t : NoDup (map col_name (columns t)).
Proof.
  destruct t; simpl; repeat constructor; simpl; intuition discriminate.
Qed.

Lemma collides_true key r r0 :
  collides key r r0 = true <->
  forall c, In c key -> get c r <> VNull /\ get c r = get c r0.
Proof.
  unfold collides. rewrite forallb_forall. split; intros H c Hc;
    specialize (H c Hc).
  - destruct (get c r) eqn:G; try discriminate;
      (destruct (val_eq_dec _ (get c r0)) as [E|E];
       [split; [discriminate|exact E]|discriminate]).
  - destruct H as [Hnn E]. rewrite <- E.
    destruct (get c r) eqn:G; try congruence;
      (destruct (val_eq_dec _ _) as [|N]; [reflexivity|congruence]).
Qed.

Lemma check_unique_none t others r :
  check_unique t others r = None <->
  forall key r0, In key (unique_keys t) -> In r0 others ->
                 collides key r r0 = false.
Proof.
  unfold check_unique. split.
  - intros H key r0 Hkey Hr0.
    destruct (find _ (unique_keys t)) eqn:F; [discriminate|].
    pose proof (find_none _ _ F key Hkey) as Hk. simpl in Hk.
    destruct (collides key r r0) eqn:C; [|reflexivity].
    assert (existsb (collides key r) others = true); [|congruence].
    apply existsb_exists. now exists r0.
  - intros H. destruct (find _ (unique_keys t)) as [key|] eqn:F;
      [|reflexivity].
    apply find_some in F. destruct F as [Hkey Hex].
    apply existsb_exists in Hex. destruct Hex as (r0 & Hr0 & C).
    rewrite (H key r0 Hkey Hr0) in C. discriminate.
Qed.

Lemma check_unique_some t others r key r0 :
  In key (unique_keys t) -> In r0 others -> collides key r r0 = true ->
  exists key', check_unique t others r = Some (UniqueViolation key').
Proof.
  intros Hkey Hr0 C. unfold check_unique.
  destruct (find _ (unique_keys t)) as [key'|] eqn:F; [now exists key'|].
  pose proof (find_none _ _ F key Hkey) as Hk. simpl in Hk.
  assert (existsb (collides key r) others = true); [|congruence].
  apply existsb_exists. now exists r0.
Qed.

Lemma insert_ok now d t obj r :
  build_row now d t obj = inr r ->
  check_unique t (d t) r = None -> check_fks d t r = None ->
  insert now d t obj = inr (put_table d t (d t ++ [r])).
Proof. unfold insert. intros -> Hu Hf. simpl. now rewrite Hu, Hf. Qed.

Lemma insert_inv now d t obj d' :
  insert now d t obj = inr d' ->
  exists r, build_row now d t obj = inr r
            /\ check_unique t (d t) r = None
            /\ check_fks d t r = None
            /\ d' = put_table d t (d t ++ [r]).
Proof.
  unfold insert. destruct (build_row now d t obj) as [e|r]; simpl;
    [discriminate|].
  destruct (check_unique t (d t) r) eqn:Hu; [discriminate|].
  destruct (check_fks d t r) eqn:Hf; [discriminate|].
  unfold ok. intros E. injection E as <-. exists r. now repeat split.
Qed.

Lemma insert_duplicate now d t obj r key r0 :
  build_row now d t obj = inr r ->
  In key (unique_keys t) -> In r0 (d t) -> collides key r r0 = true ->
  exists key', insert now d t obj = inl (UniqueViolation key').
Proof.
  intros Hb Hkey Hr0 C. unfold insert. rewrite Hb. simpl.
  destruct (check_unique_some t (d t) r key r0 Hkey Hr0 C) as [key' ->].
  now exists key'.
Qed.

(** What [build_row] stores in each column. *)
Lemma mapM_store_get now nid obj cs :
  forall r, mapM (store_column now nid obj) cs = inr r ->
  NoDup (map col_name cs) ->
  forall c, In c cs ->
    store_value c (fill now nid c (get (col_name c) obj))
    = inr (get (col_name c) r).
Proof.
  induction cs as [|c0 cs IH]; intros r Hm Hnd c Hc; [contradiction|].
  simpl in Hm. unfold store_column at 1 in Hm.
  destruct (store_value c0 _) as [e|v0] eqn:S0; simpl in Hm; [discriminate|].
  destruct (mapM _ cs) as [e|r'] eqn:M; simpl in Hm; [discriminate|].
  unfold ok in Hm. inversion Hm; subst r.
  inversion Hnd as [|? ? Hnotin Hnd']; subst.
  destruct Hc as [->|Hc].
  - simpl. now rewrite String.eqb_refl.
  - assert (Hne : col_name c0 <> col_name c).
    { intros E. apply Hnotin. rewrite E. now apply in_map. }
    simpl. apply String.eqb_neq in Hne. rewrite Hne.
    now apply IH.
Qed.

Lemma build_row_get now d t obj r c :
  build_row now d t obj = inr r -> In c (columns t) ->
  store_value c (fill now (next_id (d t)) c (get (col_name c) obj))
  = inr (get (col_name c) r).
Proof.
  intros Hb Hc.
  exact (mapM_store_get now _ obj (columns t) r Hb (column_names_distinct t)
                        c Hc).
Qed.

Lemma mapM_fails {A B} (f : A -> result B) l a e :
  In a l -> f a = inl e -> exists e', mapM f l = inl e'.
Proof.
  induction l as [|a0 l IH]; intros Hin Hf; [contradiction|].
  simpl. destruct Hin as [->|Hin].
  - rewrite Hf. now exists e.
  - destruct (f a0) as [e0|b0]; simpl; [now exists e0|].
    destruct (IH Hin Hf) as [e' ->]. now exists e'.
Qed.

Lemma store_value_inv c v v' :
  store_value c v = inr v' ->
  bind_processor (col_type c) v = Some v'
  /\ in_domain (col_type c) v' = true
  /\ (nullable c = false -> v' <> VNull).
Proof.
  unfold store_value, ok, fail.
  destruct (bind_processor (col_type c) v) as [w|]; [|discriminate].
  destruct (in_domain (col_type c) w) eqn:D; simpl; [|discriminate].
  destruct (width_ok c w); simpl; [|discriminate].
  destruct (nullable c) eqn:N; simpl.
  - intros E. inversion E; subst. repeat split; congruence.
  - destruct (val_eq_dec w VNull) as [->|Hnn]; [discriminate|].
    intros E. inversion E; subst. repeat split; congruence.
Qed.

Lemma store_value_width c v v' :
  store_value c v = inr v' -> width_ok c v' = true.
Proof.
  unfold store_value, ok, fail.
  destruct (bind_processor (col_type c) v) as [w|]; [|discriminate].
  destruct (in_domain (col_type c) w); simpl; [|discriminate].
  destruct (width_ok c w) eqn:W; simpl; [|discriminate].
  destruct (negb (nullable c) && _); [discriminate|].
  intros E. inversion E; subst. assumption.
Qed.


(* ------------------------------------------------------------------ *)
(** * A decimal through its float *)







Lemma bind_processor_plain ty v :
  (forall m, v <> VEnum m) -> bind_processor ty v = Some v.
Proof. intros H. destruct v; try reflexivity. now destruct (H m). Qed.

Lemma fill_set now nid c v : v <> VNull -> fill now nid c v = v.
Proof. intros H. destruct v; try reflexivity. congruence. Qed.

(** An attribute the object sets to a value that is not an enumeration
    member is stored as it is. *)
Lemma build_row_keeps now d t obj r c :
  build_row now d t obj = inr r -> In c (columns t) ->
  get (col_name c) obj <> VNull ->
  (forall m, get (col_name c) obj <> VEnum m) ->
  get (col_name c) r = get (col_name c) obj.
Proof.
  intros Hb Hc Hnn Hplain.
  pose proof (build_row_get now d t obj r c Hb Hc) as H.
  rewrite fill_set in H by assumption.
  apply store_value_inv in H. destruct H as [H _].
  rewrite bind_processor_plain in H by assumption. congruence.
Qed.

Lemma build_row_not_null now d t obj r c :
  build_row now d t obj = inr r -> In c (columns t) -> nullable c = false ->
  get (col_name c) r <> VNull.
Proof.
  intros Hb Hc Hn.
  pose proof (build_row_get now d t obj r c Hb Hc) as H.
  apply store_value_inv in H. now apply H.
Qed.

Lemma NoDup_snoc {A} (l : list A) (x : A) :
  NoDup l -> ~ In x l -> NoDup (l ++ [x]).
Proof.
  induction l as [|a l IH]; intros Hnd Hx; simpl.
  - constructor; [intros []|constructor].
  - inversion Hnd as [|? ? Ha Hl]; subst. constructor.
    + rewrite in_app_iff. intros [H|[H|[]]]; [now apply Ha|].
      apply Hx. now left.
    + apply IH; [assumption|]. intros H. apply Hx. now right.
Qed.

Lemma find_by_name {A} (f : A -> string) (l : list A) (c : A) :
  NoDup (map f l) -> In c l ->
  find (fun x => String.eqb (f x) (f c)) l = Some c.
Proof.
  induction l as [|a l IH]; intros Hnd Hc; [contradiction|].
  inversion Hnd as [|? ? Ha Hl]; subst. simpl.
  destruct Hc as [->|Hc].
  - now rewrite String.eqb_refl.
  - destruct (String.eqb (f a) (f c)) eqn:E.
    + apply String.eqb_eq in E. exfalso. apply Ha. rewrite E.
      now apply in_map.
    + now apply IH.
Qed.

Lemma column_of_in t c : In c (columns t) -> column_of t (col_name c) = Some c.
Proof. apply find_by_name, column_names_distinct. Qed.

Lemma has_id_true i r : has_id i r = true <-> get "id" r = VInt i.
Proof.
  unfold has_id. rewrite selects_true. split.
  - intros [_ [H|[]]]. now symmetry.
  - intros ->. split; [discriminate|now left].
Qed.


(* ------------------------------------------------------------------ *)
(** * Integrity is kept by every statement *)

Lemma thinned_refl t l : thinned t l l.
Proof.
  induction l; [constructor|].
  apply thinned_keep; [apply agree_refl|assumption].
Qed.

Lemma thinned_trans t l1 l2 :
  thinned t l1 l2 -> forall l3, thinned t l2 l3 -> thinned t l1 l3.
Proof.
  induction 1 as [|r l l2 H12 IH|r r' l l2 A H12 IH]; intros l3 H23.
  - assumption.
  - apply thinned_drop. now apply IH.
  - inversion H23 as [|? ? ? H|? r'' ? l3' A' H]; subst.
    + apply thinned_drop. now apply IH.
    + apply thinned_keep; [eapply agree_trans; eassumption|now apply IH].
Qed.

Lemma thinned_filter t f l : thinned t l (filter f l).
Proof.
  induction l as [|r l IH]; simpl; [constructor|].
  destruct (f r); [apply thinned_keep; [apply agree_refl|assumption]|].
  now apply thinned_drop.
Qed.

Lemma thinned_map t g l :
  (forall r, agree t r (g r)) -> thinned t l (map g l).
Proof.
  intros Hg. induction l as [|r l IH]; simpl; [constructor|].
  apply thinned_keep; [apply Hg|assumption].
Qed.

Lemma thinned_In t l l' r' :
  thinned t l l' -> In r' l' -> exists r, In r l /\ agree t r r'.
Proof.
  induction 1 as [|r l l' H IH|r r0 l l' A H IH]; intros Hin.
  - contradiction.
  - destruct (IH Hin) as (x & Hx & Ax). exists x. split; [now right|assumption].
  - destruct Hin as [<-|Hin].
    + exists r. split; [now left|assumption].
    + destruct (IH Hin) as (x & Hx & Ax). exists x.
      split; [now right|assumption].
Qed.

Lemma thinned_NoDup {A} t (f : row -> A) l l' :
  (forall r r', agree t r r' -> f r' = f r) ->
  thinned t l l' -> NoDup (map f l) -> NoDup (map f l').
Proof.
  intros Hf. induction 1 as [|r l l' H IH|r r' l l' A0 H IH]; intros Hnd.
  - constructor.
  - inversion Hnd; subst. now apply IH.
  - inversion Hnd as [|? ? Hnotin Hnd']; subst. simpl. constructor.
    + intros Hin. apply in_map_iff in Hin. destruct Hin as (x' & Ex & Hx').
      destruct (thinned_In t l l' x' H Hx') as (x & Hx & Ax).
      apply Hnotin. rewrite <- (Hf r r' A0), <- Ex, (Hf x x' Ax).
      now apply in_map.
    + now apply IH.
Qed.

Lemma thins_refl d : thins d d.
Proof. intros t. apply thinned_refl. Qed.

Lemma thins_trans d1 d2 d3 : thins d1 d2 -> thins d2 d3 -> thins d1 d3.
Proof. intros H12 H23 t. eapply thinned_trans; [apply H12|apply H23]. Qed.

Lemma set_null_thins k keys d :
  In k foreign_keys -> fk_action k = SET_NULL -> thins d (set_null k keys d).
Proof.
  intros Hk Ha t. unfold set_null.
  destruct (model_eq_dec (fk_child k) t) as [<-|Hne].
  - rewrite put_table_same. apply thinned_map. intros r.
    now apply set_null_row_agree.
  - rewrite put_table_other by assumption. apply thinned_refl.
Qed.

Lemma db_delete_thins fuel :
  forall t c vs d, thins d (db_delete fuel t c vs d).
Proof.
  induction fuel as [|fuel IH]; intros t c vs d; [apply thins_refl|].
  rewrite db_delete_unfold.
  apply (fold_left_invariant (fun acc => thins d acc)).
  - intros t'. destruct (model_eq_dec t t') as [<-|Hne].
    + rewrite put_table_same. apply thinned_filter.
    + rewrite put_table_other by assumption. apply thinned_refl.
  - intros acc k Hk Hacc. apply in_fks_to in Hk. destruct Hk as [Hk _].
    eapply thins_trans; [exact Hacc|].
    destruct (fk_action k) eqn:Ha; [apply IH|now apply set_null_thins].
Qed.

Lemma session_delete_thins d t i : thins d (session_delete d t i).
Proof.
  unfold session_delete, flush_deletes.
  apply (fold_left_invariant (fun acc => thins d acc)); [apply thins_refl|].
  intros acc o _ Hacc. eapply thins_trans; [exact Hacc|].
  apply db_delete_thins.
Qed.

(** Facts of the schema about keys. *)
Lemma key_cols_required t key c :
  In key (unique_keys t) -> In c key ->
  exists col, In col (columns t) /\ col_name col = c /\ nullable col = false.
Proof.
  assert (H : forallb (fun t =>
                forallb (fun key =>
                  forallb (fun c =>
                    existsb (fun col => String.eqb (col_name col) c
                                        && negb (nullable col))
                            (columns t)) key) (unique_keys t)) all_models
              = true) by (vm_compute; reflexivity).
  intros Hkey Hc. rewrite forallb_forall in H.
  specialize (H t (all_models_complete t)). rewrite forallb_forall in H.
  specialize (H key Hkey). rewrite forallb_forall in H.
  specialize (H c Hc). apply existsb_exists in H.
  destruct H as (col & Hcol & Hb). apply andb_true_iff in Hb.
  destruct Hb as [Hn Hnull]. apply String.eqb_eq in Hn.
  apply negb_true_iff in Hnull. now exists col.
Qed.

Lemma required_col_stable t col :
  In col (columns t) -> nullable col = false ->
  ~ In (col_name col) (detachable t).
Proof.
  assert (H : forallb (fun t =>
                forallb (fun col =>
                  nullable col
                  || (if in_dec string_dec (col_name col) (detachable t)
                      then false else true)) (columns t)) all_models = true)
    by (vm_compute; reflexivity).
  intros Hcol Hn. rewrite forallb_forall in H.
  specialize (H t (all_models_complete t)). rewrite forallb_forall in H.
  specialize (H col Hcol). rewrite Hn in H. simpl in H.
  now destruct (in_dec string_dec (col_name col) (detachable t)).
Qed.

Lemma key_cols_stable t key c :
  In key (unique_keys t) -> In c key -> ~ In c (detachable t).
Proof.
  intros Hkey Hc.
  destruct (key_cols_required t key c Hkey Hc) as (col & Hcol & <- & Hn).
  now apply required_col_stable.
Qed.

Lemma primary_key_is_id t : In ["id"] (unique_keys t).
Proof. destruct t; now left. Qed.

Lemma project_eq key r r0 :
  project key r = project key r0 <-> forall c, In c key -> get c r = get c r0.
Proof.
  unfold project. induction key as [|c0 key IH]; simpl.
  - split; [intros _ c []|reflexivity].
  - split.
    + intros E c Hc. injection E as E0 E1.
      destruct Hc as [<-|Hc]; [assumption|]. now apply (proj1 IH).
    + intros H. f_equal; [apply H; now left|].
      apply IH. intros c Hc. apply H. now right.
Qed.

Lemma project_agree t key r r' :
  In key (unique_keys t) -> agree t r r' -> project key r' = project key r.
Proof.
  intros Hkey A. apply project_eq. intros c Hc.
  apply A. now apply (key_cols_stable t key).
Qed.

Lemma integrity_empty : integrity empty_db.
Proof. split; [intros t key _; constructor|intros t r c []]. Qed.

Lemma integrity_thins d d' : integrity d -> thins d d' -> integrity d'.
Proof.
  intros [Hu Hn] Ht. split.
  - intros t key Hkey.
    apply (thinned_NoDup t (project key) (d t) (d' t));
      [|apply Ht|now apply Hu].
    intros r r'. now apply project_agree.
  - intros t r' c Hr' Hc Hnull.
    destruct (thinned_In t _ _ r' (Ht t) Hr') as (r & Hr & A).
    rewrite (A _ (required_col_stable t c Hc Hnull)). now apply (Hn t).
Qed.

(** A row whose key columns hold values, and which collides with no row
    of a list, has a projection that no row of the list has. *)
Lemma no_collision_fresh key r l :
  (forall c, In c key -> get c r <> VNull) ->
  (forall r0, In r0 l -> collides key r r0 = false) ->
  ~ In (project key r) (map (project key) l).
Proof.
  intros Hnn Hcol Hin. apply in_map_iff in Hin.
  destruct Hin as (r0 & E & Hr0).
  assert (C : collides key r r0 = true);
    [|rewrite (Hcol r0 Hr0) in C; discriminate].
  apply collides_true. intros c Hc. split; [now apply Hnn|].
  symmetry. now apply (proj1 (project_eq key r0 r) E).
Qed.

Lemma integrity_insert now d t obj d' :
  integrity d -> insert now d t obj = inr d' -> integrity d'.
Proof.
  intros [Hu Hn] Hins.
  apply insert_inv in Hins. destruct Hins as (r & Hb & Hun & _ & ->).
  rewrite check_unique_none in Hun. split.
  - intros t' key Hkey. destruct (model_eq_dec t t') as [<-|Hne].
    + rewrite put_table_same, map_app. apply NoDup_snoc; [now apply Hu|].
      apply no_collision_fresh.
      * intros c Hc.
        destruct (key_cols_required t key c Hkey Hc) as (col & Hcol & <- & Hnl).
        exact (build_row_not_null now d t obj r col Hb Hcol Hnl).
      * intros r0 Hr0. now apply Hun.
    + rewrite put_table_other by assumption. now apply Hu.
  - intros t' r' c Hr' Hc Hnull. destruct (model_eq_dec t t') as [<-|Hne].
    + rewrite put_table_same in Hr'. apply in_app_iff in Hr'.
      destruct Hr' as [Hr'|[<-|[]]]; [now apply (Hn t)|].
      exact (build_row_not_null now d t obj r c Hb Hc Hnull).
    + rewrite put_table_other in Hr' by assumption. now apply (Hn t').
Qed.

Lemma update_inv d t i c v d' :
  update d t i c v = inr d' ->
  exists col old v',
    column_of t c = Some col /\ find (has_id i) (d t) = Some old
    /\ store_value col v = inr v'
    /\ check_unique t (filter (fun r0 => negb (has_id i r0)) (d t))
                    (set c v' old) = None
    /\ d' = put_table d t
              (map (fun r0 => if has_id i r0 then set c v' old else r0) (d t)).
Proof.
  unfold update.
  change (find (fun col => String.eqb (col_name col) c) (columns t))
    with (column_of t c).
  destruct (column_of t c) as [col|] eqn:Hcol; [|discriminate].
  destruct (find (has_id i) (d t)) as [old|] eqn:Hold; [|discriminate].
  destruct (store_value col v) as [e|v'] eqn:Hst; [discriminate|].
  cbn [and_then].
  destruct (check_unique t _ (set c v' old)) eqn:Hu; [discriminate|].
  destruct (check_fks d t (set c v' old)); [discriminate|].
  destruct (check_referenced d t old (set c v' old)); [discriminate|].
  unfold ok. intros E. injection E as <-.
  exists col, old, v'. now repeat split.
Qed.

(** Replacing the one element that satisfies [P] keeps a projection free of
    duplicates, when the new element's projection is not among the
    others'. *)
Lemma replace_NoDup {A B} (P : row -> bool) (pid : row -> B)
      (f : row -> A) (r' : row) (l : list row) :
  (forall a b, P a = true -> P b = true -> pid a = pid b) ->
  NoDup (map pid l) -> NoDup (map f l) ->
  ~ In (f r') (map f (filter (fun x => negb (P x)) l)) ->
  NoDup (map f (map (fun x => if P x then r' else x) l)).
Proof.
  intros Hpid. induction l as [|a l IH]; intros Hid Hf Hfresh;
    [constructor|].
  inversion Hid as [|? ? Hida Hid']; subst.
  inversion Hf as [|? ? Hfa Hf']; subst.
  cbn [map filter] in *. destruct (P a) eqn:Pa; cbn [negb] in Hfresh.
  - assert (Hnone : forall x, In x l -> P x = false).
    { intros x Hx. destruct (P x) eqn:Px; [|reflexivity].
      exfalso. apply Hida. rewrite (Hpid a x Pa Px). now apply in_map. }
    assert (Hsame : map (fun x => if P x then r' else x) l = l).
    { rewrite <- (map_id l) at 2. apply map_ext_in. intros x Hx.
      now rewrite (Hnone x Hx). }
    assert (Hfilter : filter (fun x => negb (P x)) l = l).
    { clear -Hnone. induction l as [|x l IHl]; [reflexivity|]. simpl.
      rewrite (Hnone x (or_introl eq_refl)). simpl. f_equal.
      apply IHl. intros y Hy. apply Hnone. now right. }
    rewrite Hsame. rewrite Hfilter in Hfresh. now constructor.
  - cbn [map] in Hfresh. constructor.
    + intros Hin. apply in_map_iff in Hin. destruct Hin as (y & Ey & Hy).
      apply in_map_iff in Hy. destruct Hy as (x & Ex & Hx).
      destruct (P x) eqn:Px; subst y.
      * apply Hfresh. left. now symmetry.
      * apply Hfa. rewrite <- Ey. now apply in_map.
    + apply IH; try assumption. intros Hin. apply Hfresh. now right.
Qed.

Lemma column_of_name t c col : column_of t c = Some col -> col_name col = c.
Proof.
  unfold column_of. intros H. apply find_some in H.
  now apply String.eqb_eq.
Qed.

Lemma column_of_unique t c col col' :
  column_of t c = Some col -> In col' (columns t) -> col_name col' = c ->
  col' = col.
Proof.
  intros H Hin Hn. subst c. rewrite (column_of_in t col' Hin) in H.
  congruence.
Qed.

Lemma integrity_update d t i c v d' :
  integrity d -> update d t i c v = inr d' -> integrity d'.
Proof.
  intros [Hu Hn] Hupd.
  apply update_inv in Hupd.
  destruct Hupd as (col & old & v' & Hcol & Hold & Hst & Hun & ->).
  apply find_some in Hold. destruct Hold as [Hold Hidold].
  apply store_value_inv in Hst. destruct Hst as (_ & _ & Hv').
  rewrite check_unique_none in Hun.
  assert (Hnew : forall c', In c' (columns t) -> nullable c' = false ->
                            get (col_name c') (set c v' old) <> VNull).
  { intros c' Hc' Hnull. destruct (string_dec c (col_name c')) as [E|E].
    - rewrite <- E, get_set_same.
      rewrite (column_of_unique t c col c' Hcol Hc' (eq_sym E)) in Hnull.
      now apply Hv'.
    - rewrite get_set_other by assumption. now apply (Hn t). }
  split.
  - intros t' key Hkey. destruct (model_eq_dec t t') as [<-|Hne].
    + rewrite put_table_same.
      apply (replace_NoDup (has_id i) (project ["id"])).
      * intros a b Ha Hb. apply has_id_true in Ha, Hb. unfold project.
        cbn. congruence.
      * apply Hu, primary_key_is_id.
      * now apply Hu.
      * apply no_collision_fresh.
        -- intros c' Hc'.
           destruct (key_cols_required t key c' Hkey Hc')
             as (col' & Hcol' & <- & Hnl).
           now apply Hnew.
        -- intros r0 Hr0. now apply Hun.
    + rewrite put_table_other by assumption. now apply Hu.
  - intros t' r' c' Hr' Hc' Hnull. destruct (model_eq_dec t t') as [<-|Hne].
    + rewrite put_table_same in Hr'. apply in_map_iff in Hr'.
      destruct Hr' as (r0 & E & Hr0). destruct (has_id i r0); subst r'.
      * now apply Hnew.
      * now apply (Hn t).
    + rewrite put_table_other in Hr' by assumption. now apply (Hn t').
Qed.

Lemma integrity_execute now d s d' :
  integrity d -> execute now d s = inr d' -> integrity d'.
Proof.
  intros Hi. destruct s as [t obj|t i c v|t i|t i]; cbn [execute].
  - now apply integrity_insert.
  - now apply integrity_update.
  - unfold ok. intros E. injection E as <-.
    apply (integrity_thins d); [assumption|apply db_delete_thins].
  - unfold ok. intros E. injection E as <-.
    apply (integrity_thins d); [assumption|apply session_delete_thins].
Qed.

(** Whatever statements run, from the empty database on, every unique key
    and every NOT NULL column holds in the state reached. *)
Lemma integrity_run l :
  forall now d d', integrity d -> run now d l = inr d' -> integrity d'.
Proof.
  induction l as [|s l IH]; intros now d d' Hi Hrun; cbn [run] in Hrun.
  - unfold ok in Hrun. now injection Hrun as <-.
  - destruct (execute now d s) as [e|d1] eqn:He; [discriminate|].
    cbn [and_then] in Hrun.
    exact (IH _ d1 d' (integrity_execute now d s d1 Hi He) Hrun).
Qed.

Lemma reachable_integrity now l d :
  run now empty_db l = inr d -> integrity d.
Proof. apply integrity_run, integrity_empty. Qed.

Lemma NoDup_map_coarser {A B C} (f : A -> B) (g : A -> C) l :
  (forall x y, g x = g y -> f x = f y) -> NoDup (map f l) -> NoDup (map g l).
Proof.
  intros Hfg. induction l as [|a l IH]; intros Hnd; [constructor|].
  inversion Hnd as [|? ? Ha Hl]; subst. simpl. constructor; [|now apply IH].
  intros Hin. apply in_map_iff in Hin. destruct Hin as (x & Ex & Hx).
  apply Ha. rewrite <- (Hfg x a Ex). now apply in_map.
Qed.

(* ------------------------------------------------------------------ *)
(** * Unique keys: balances, tax identifiers, card numbers *)

Lemma existsb_none {A} (f : A -> bool) l :
  (forall x, In x l -> f x = false) -> existsb f l = false.
Proof.
  intros H. destruct (existsb f l) eqn:E; [|reflexivity].
  apply existsb_exists in E. destruct E as (x & Hx & Hf).
  rewrite (H x Hx) in Hf. discriminate.
Qed.

(** A row carrying the next primary key collides with no stored row on the
    primary key. *)
Lemma fresh_id_no_collision rows r :
  get "id" r = VInt (next_id rows) ->
  existsb (collides ["id"] r) rows = false.
Proof.
  intros Hid. apply existsb_none. intros r0 Hr0.
  destruct (collides ["id"] r r0) eqn:C; [|reflexivity].
  rewrite collides_true in C. destruct (C "id" (or_introl eq_refl)) as [_ E].
  rewrite Hid in E. symmetry in E. now apply next_id_fresh in E.
Qed.

Lemma fk_satisfied_exists d k r i :
  get (fk_col k) r = VInt i -> fk_ref k = "id" ->
  exists_row d (fk_parent k) i -> fk_satisfied d k r = true.
Proof.
  intros Hcol Href (p & Hp & Hid). unfold fk_satisfied. rewrite Hcol.
  apply existsb_exists. exists p. split; [assumption|].
  rewrite Href, Hid. now destruct (val_eq_dec (VInt i) (VInt i)).
Qed.

Lemma build_new_balance now d a u t :
  numeric_fits 18 u = true ->
  build_row now d AccountBalance (new_balance a u t)
  = inr (balance_row (next_id (d AccountBalance)) a u t).
Proof.
  intros _. unfold build_row, store_column, store_value. reflexivity.
Qed.

Lemma balance_collision a t r r0 :
  balance_key r = (VInt a, VDateTime t) ->
  balance_key r0 = (VInt a, VDateTime t) ->
  collides ["account_id"; "as_of"] r r0 = true.
Proof.
  unfold balance_key. intros E E0. inversion E. inversion E0.
  apply collides_true. intros c [<-|[<-|[]]]; split; congruence.
Qed.

(** An insert of a row with a fresh primary key that collides on its
    second unique key fails on that key. *)
Lemma insert_second_key_violation now d t obj r key r0 :
  build_row now d t obj = inr r ->
  unique_keys t = [["id"]; key] ->
  get "id" r = VInt (next_id (d t)) ->
  In r0 (d t) -> collides key r r0 = true ->
  insert now d t obj = inl (UniqueViolation key).
Proof.
  intros Hb Hkeys Hid Hr0 C. unfold insert. rewrite Hb. cbn [and_then].
  unfold check_unique. rewrite Hkeys. cbn [find].
  rewrite (fresh_id_no_collision _ _ Hid).
  assert (Hex : existsb (collides key r) (d t) = true)
    by (apply existsb_exists; now exists r0).
  now rewrite Hex.
Qed.

(** An object that repeats, on every column of a unique key, the values
    of a stored row is refused, whatever else it holds. *)
Lemma insert_rejects_duplicate_key now d t key obj r0 :
  In key (unique_keys t) -> In r0 (d t) ->
  (forall c, In c key ->
             get c obj = get c r0 /\ get c r0 <> VNull
             /\ forall m, get c r0 <> VEnum m) ->
  exists e, insert now d t obj = inl e.
Proof.
  intros Hkey Hr0 Hsame.
  destruct (build_row now d t obj) as [e|r] eqn:Hb.
  - exists e. unfold insert. now rewrite Hb.
  - destruct (insert_duplicate now d t obj r key r0 Hb Hkey Hr0)
      as [key' H]; [|now exists (UniqueViolation key')].
    apply collides_true. intros c Hc.
    destruct (Hsame c Hc) as (E & Hnn & Hplain).
    destruct (key_cols_required t key c Hkey Hc) as (col & Hcol & <- & _).
    rewrite (build_row_keeps now d t obj r col Hb Hcol); rewrite E;
      try assumption.
    now split.
Qed.

(** C4.  For an account [a]: writing a balance whose [(account_id, as_of)]
    equals that of a stored row fails, with the violation of the unique
    constraint on those two columns for the object [new_balance a u t] and
    with some error for any object carrying that pair; writing one whose
    pair no stored row has succeeds and appends exactly the new row; a
    successful insert of
    any object keeps the pairs of the stored rows pairwise distinct; and
    in every state reached from the empty database by any statements
    (inserts, updates, deletes on either path) the table holds at most one
    balance per account and timestamp. *)
Theorem C4_balance_unique_per_timestamp (now : Z) (d : db) (a u t : Z) :
  numeric_fits 18 u = true ->
  ((exists r0, In r0 (d AccountBalance)
               /\ balance_key r0 = (VInt a, VDateTime t)) ->
   insert now d AccountBalance (new_balance a u t)
   = inl (UniqueViolation ["account_id"; "as_of"])
   /\ forall obj, balance_key obj = (VInt a, VDateTime t) ->
                  exists e, insert now d AccountBalance obj = inl e)
  /\ ((forall r0, In r0 (d AccountBalance) ->
                  balance_key r0 <> (VInt a, VDateTime t)) ->
      exists_row d Account a ->
      insert now d AccountBalance (new_balance a u t)
      = inr (put_table d AccountBalance
               (d AccountBalance
                ++ [balance_row (next_id (d AccountBalance)) a u t])))
  /\ (forall obj d',
         NoDup (map balance_key (d AccountBalance)) ->
         insert now d AccountBalance obj = inr d' ->
         NoDup (map balance_key (d' AccountBalance)))
  /\ (forall start script d',
         run start empty_db script = inr d' ->
         NoDup (map balance_key (d' AccountBalance))).
Proof.
  intros Hu. pose proof (build_new_balance now d a u t Hu) as Hb.
  split; [|split; [|split]]; cycle 3.
  { intros start script d' Hrun.
    destruct (reachable_integrity start script d' Hrun) as [Huniq _].
    apply (NoDup_map_coarser (project ["account_id"; "as_of"]));
      [|apply Huniq; right; now left].
    unfold balance_key, project. intros x y E. cbn. congruence. }
  - intros (r0 & Hr0 & Hkey). split.
    + apply (insert_second_key_violation now d AccountBalance _
               (balance_row (next_id (d AccountBalance)) a u t)
               ["account_id"; "as_of"] r0); try reflexivity; try assumption.
      now apply (balance_collision a t).
    + intros obj Hobj.
      apply (insert_rejects_duplicate_key now d AccountBalance
               ["account_id"; "as_of"] obj r0);
        [right; now left|assumption|].
      unfold balance_key in Hkey, Hobj.
      injection Hkey as K1 K2. injection Hobj as O1 O2.
      intros c [<-|[<-|[]]]; repeat split; try congruence;
        intros m; congruence.
  - intros Hnew Hacct. apply insert_ok; [assumption| |].
    + apply check_unique_none. intros key r0 Hkey Hr0.
      change (unique_keys AccountBalance)
        with [["id"]; ["account_id"; "as_of"]] in Hkey.
      destruct Hkey as [<-|[<-|[]]].
      * pose proof (fresh_id_no_collision (d AccountBalance)
                      (balance_row (next_id (d AccountBalance)) a u t)
                      eq_refl) as H.
        destruct (collides ["id"] _ r0) eqn:C; [|reflexivity].
        assert (existsb (collides ["id"]
                           (balance_row (next_id (d AccountBalance)) a u t))
                        (d AccountBalance) = true); [|congruence].
        apply existsb_exists. now exists r0.
      * destruct (collides _ _ r0) eqn:C; [|reflexivity].
        exfalso. apply (Hnew r0 Hr0). rewrite collides_true in C.
        destruct (C "account_id") as [_ E1]; [now left|].
        destruct (C "as_of") as [_ E2]; [right; now left|].
        unfold balance_key. now rewrite <- E1, <- E2.
    + unfold check_fks.
      change (foreign_keys_of AccountBalance)
        with [ {| fk_child := AccountBalance; fk_col := "account_id";
                  fk_parent := Account; fk_ref := "id";
                  fk_action := CASCADE |} ].
      cbn [find]. rewrite (fk_satisfied_exists d _ _ a); auto.
  - intros obj d' Hnd Hins.
    apply insert_inv in Hins. destruct Hins as (r & Hb' & Hun & _ & ->).
    rewrite put_table_same, map_app. apply NoDup_snoc; [assumption|].
    cbn [map]. intros Hin. apply in_map_iff in Hin.
    destruct Hin as (r0 & Hkey & Hr0).
    rewrite check_unique_none in Hun.
    assert (C : collides ["account_id"; "as_of"] r r0 = true);
      [|rewrite (Hun ["account_id"; "as_of"] r0) in C;
        [discriminate|right; now left|assumption]].
    unfold balance_key in Hkey. inversion Hkey as [[E1 E2]].
    apply collides_true. intros c [<-|[<-|[]]]; split; try congruence.
    + apply (build_row_not_null now d AccountBalance obj r
               (Column "account_id" Integer
                  <| with_foreign_key "accounts" "id" CASCADE
                  <| with_nullable false) Hb');
        [right; now left|reflexivity].
    + apply (build_row_not_null now d AccountBalance obj r
               (Column "as_of" DateTime <| with_nullable false
                  <| with_default UtcNow) Hb');
        [do 3 right; now left|reflexivity].
Qed.

Lemma insert_rejects_duplicate_value now d t c obj r0 v :
  In c (columns t) -> In [col_name c] (unique_keys t) ->
  In r0 (d t) -> get (col_name c) r0 = v -> get (col_name c) obj = v ->
  v <> VNull -> (forall m, v <> VEnum m) ->
  exists e, insert now d t obj = inl e.
Proof.
  intros Hc Hkey Hr0 Hv0 Hv Hnn Hplain.
  destruct (build_row now d t obj) as [e|r] eqn:Hb.
  - exists e. unfold insert. now rewrite Hb.
  - pose proof (build_row_keeps now d t obj r c Hb Hc) as Hk.
    rewrite Hv in Hk. specialize (Hk Hnn Hplain).
    destruct (insert_duplicate now d t obj r [col_name c] r0 Hb Hkey Hr0)
      as [key' H]; [|now exists (UniqueViolation key')].
    apply collides_true. intros c' [<-|[]]. split; congruence.
Qed.

Lemma insert_keeps_unique_column now d t c obj d' :
  In c (columns t) -> nullable c = false ->
  In [col_name c] (unique_keys t) ->
  NoDup (map (get (col_name c)) (d t)) ->
  insert now d t obj = inr d' ->
  NoDup (map (get (col_name c)) (d' t)).
Proof.
  intros Hc Hn Hkey Hnd Hins.
  apply insert_inv in Hins. destruct Hins as (r & Hb & Hun & _ & ->).
  rewrite put_table_same, map_app. apply NoDup_snoc; [assumption|].
  cbn [map]. intros Hin. apply in_map_iff in Hin.
  destruct Hin as (r0 & Hv & Hr0).
  rewrite check_unique_none in Hun.
  assert (C : collides [col_name c] r r0 = true);
    [|rewrite (Hun _ r0 Hkey Hr0) in C; discriminate].
  apply collides_true. intros c' [<-|[]]. split; [|congruence].
  exact (build_row_not_null now d t obj r c Hb Hc Hn).
Qed.

Lemma build_new_customer now d s :
  string_fits 32 s = true ->
  build_row now d CustomerCore (new_customer s)
  = inr (customer_row (next_id (d CustomerCore)) s).
Proof.
  intros _. unfold build_row, store_column, store_value. reflexivity.
Qed.

Lemma build_new_card now d c s p :
  string_fits 20 s = true ->
  build_row now d Card (new_card c s p)
  = inr (card_row (next_id (d Card)) c s p now).
Proof.
  intros _. unfold build_row, store_column, store_value.
  destruct p; reflexivity.
Qed.

(** C5.  [tax_id] is unique over all customers and [card_number] over all
    cards.  Against a stored customer with tax identifier [s], any object
    carrying the same [tax_id] is refused and the database is the one before
    the attempt; for the object [new_customer s] the error is the
    unique-constraint violation on [tax_id]; a tax identifier that no stored
    customer has is accepted.  The same holds of cards and [card_number].
    A successful insert keeps the stored values pairwise distinct, and in
    every state reached from the empty database by any statements no two
    customers share a tax identifier and no two cards a number. *)
Theorem C5_tax_id_and_card_number_unique (now : Z) (d : db) :
  (forall r0 s,
      In r0 (d CustomerCore) -> get "tax_id" r0 = VStr s ->
      (forall obj, get "tax_id" obj = VStr s ->
                   (exists e, insert now d CustomerCore obj = inl e)
                   /\ commit d (insert now d CustomerCore obj) = d)
      /\ (string_fits 32 s = true ->
          insert now d CustomerCore (new_customer s)
          = inl (UniqueViolation ["tax_id"])))
  /\ (forall r0 s,
         In r0 (d Card) -> get "card_number" r0 = VStr s ->
         (forall obj, get "card_number" obj = VStr s ->
                      (exists e, insert now d Card obj = inl e)
                      /\ commit d (insert now d Card obj) = d)
         /\ (forall c p, string_fits 20 s = true ->
                         insert now d Card (new_card c s p)
                         = inl (UniqueViolation ["card_number"])))
  /\ (forall s,
         (forall r0, In r0 (d CustomerCore) -> get "tax_id" r0 <> VStr s) ->
         string_fits 32 s = true ->
         insert now d CustomerCore (new_customer s)
         = inr (put_table d CustomerCore
                  (d CustomerCore
                   ++ [customer_row (next_id (d CustomerCore)) s])))
  /\ (forall obj d',
         NoDup (map (get "tax_id") (d CustomerCore)) ->
         insert now d CustomerCore obj = inr d' ->
         NoDup (map (get "tax_id") (d' CustomerCore)))
  /\ (forall obj d',
         NoDup (map (get "card_number") (d Card)) ->
         insert now d Card obj = inr d' ->
         NoDup (map (get "card_number") (d' Card)))
  /\ (forall start script d',
         run start empty_db script = inr d' ->
         NoDup (map (get "tax_id") (d' CustomerCore))
         /\ NoDup (map (get "card_number") (d' Card))).
Proof.
  repeat apply conj; cycle 5.
  { intros start script d' Hrun.
    destruct (reachable_integrity start script d' Hrun) as [Huniq _].
    split.
    - apply (NoDup_map_coarser (project ["tax_id"]));
        [|apply Huniq; right; now left].
      unfold project. intros x y E. cbn. congruence.
    - apply (NoDup_map_coarser (project ["card_number"]));
        [|apply Huniq; right; now left].
      unfold project. intros x y E. cbn. congruence. }
  - intros r0 s Hr0 Hs. split.
    + intros obj Hobj.
      destruct (insert_rejects_duplicate_value now d CustomerCore
                  (Column "tax_id" (String 32) <| with_unique
                     <| with_nullable false) obj r0 (VStr s))
        as [e He]; try assumption; try discriminate.
      * right; now left.
      * right; now left.
      * split; [now exists e|now rewrite He].
    + intros Hfit.
      apply (insert_second_key_violation now d CustomerCore _
               (customer_row (next_id (d CustomerCore)) s) ["tax_id"] r0);
        try assumption; try (now apply build_new_customer); try reflexivity.
      apply collides_true. intros c [<-|[]]. cbn. split; congruence.
  - intros r0 s Hr0 Hs. split.
    + intros obj Hobj.
      destruct (insert_rejects_duplicate_value now d Card
                  (Column "card_number" (String 20) <| with_unique
                     <| with_nullable false) obj r0 (VStr s))
        as [e He]; try assumption; try discriminate.
      * do 2 right; now left.
      * right; now left.
      * split; [now exists e|now rewrite He].
    + intros c p Hfit.
      apply (insert_second_key_violation now d Card _
               (card_row (next_id (d Card)) c s p now) ["card_number"] r0);
        try assumption; try (now apply build_new_card); try reflexivity.
      apply collides_true. intros c' [<-|[]]. cbn. split; congruence.
  - intros s Hnew Hfit. apply insert_ok.
    + now apply build_new_customer.
    + apply check_unique_none. intros key r0 Hkey Hr0.
      change (unique_keys CustomerCore) with [["id"]; ["tax_id"]] in Hkey.
      destruct (collides key _ r0) eqn:C; [exfalso|reflexivity].
      rewrite collides_true in C. destruct Hkey as [<-|[<-|[]]].
      * destruct (C "id" (or_introl eq_refl)) as [_ E]. cbn in E.
        symmetry in E. now apply next_id_fresh in E.
      * destruct (C "tax_id" (or_introl eq_refl)) as [_ E]. cbn in E.
        symmetry in E. now apply (Hnew r0 Hr0).
    + reflexivity.
  - intros obj d'.
    apply (insert_keeps_unique_column now d CustomerCore
             (Column "tax_id" (String 32) <| with_unique
                <| with_nullable false));
      [right; now left|reflexivity|right; now left].
  - intros obj d'.
    apply (insert_keeps_unique_column now d Card
             (Column "card_number" (String 20) <| with_unique
                <| with_nullable false));
      [do 2 right; now left|reflexivity|right; now left].
Qed.

(* ------------------------------------------------------------------ *)
(** * Required and optional columns; tables with no key but the primary *)

Lemma insert_fresh_ok now d t obj r :
  build_row now d t obj = inr r ->
  unique_keys t = [["id"]] ->
  get "id" r = VInt (next_id (d t)) ->
  check_fks d t r = None ->
  insert now d t obj = inr (put_table d t (d t ++ [r])).
Proof.
  intros Hb Hkeys Hid Hf. apply insert_ok; try assumption.
  unfold check_unique. rewrite Hkeys. cbn [find].
  now rewrite (fresh_id_no_collision _ _ Hid).
Qed.

(** A write that leaves a [nullable=False] column without a default unset
    is refused, whatever else the object holds. *)
Lemma insert_requires now d t c obj :
  In c (columns t) -> nullable c = false -> primary_key c = false ->
  default c = None -> get (col_name c) obj = VNull ->
  exists e, insert now d t obj = inl e.
Proof.
  intros Hc Hn Hpk Hd Hv.
  assert (Hs : store_column now (next_id (d t)) obj c
               = inl (NotNullViolation (col_name c))).
  { unfold store_column, store_value, fill. rewrite Hv, Hpk, Hd.
    cbn. now rewrite Hn. }
  destruct (mapM_fails _ (columns t) c _ Hc Hs) as [e He].
  exists e. unfold insert, build_row. now rewrite He.
Qed.

Lemma build_new_card_transaction now d k u td pd :
  numeric_fits 18 u = true ->
  build_row now d CardTransaction
            (new_card_transaction k u (VDate td) pd)
  = match pd with
    | VNull | VDate _ =>
      inr (card_transaction_row (next_id (d CardTransaction)) k u (VDate td)
                                pd now)
    | _ => inl (DomainValueError "posting_date")
    end.
Proof.
  intros _. unfold build_row, store_column, store_value.
  destruct pd; reflexivity.
Qed.

Lemma build_new_account_transaction now d a u pd td :
  numeric_fits 18 u = true ->
  build_row now d AccountTransaction
            (new_account_transaction a u (VDate pd) td)
  = match td with
    | VNull | VDate _ =>
      inr (account_transaction_row (next_id (d AccountTransaction)) a u
                                   (VDate pd) td now)
    | _ => inl (DomainValueError "transaction_date")
    end.
Proof.
  intros _. unfold build_row, store_column, store_value.
  destruct td; reflexivity.
Qed.

(** C10.  A card transaction requires [transaction_date] and leaves
    [posting_date] optional: an object that leaves [transaction_date] unset
    is refused, with the NOT NULL violation on that column when the rest is
    in order, and an object with [posting_date] unset is stored with NULL
    there.  An account transaction is the reverse: [posting_date] is
    required, [transaction_date] optional. *)
Theorem C10_required_dates (now : Z) (d : db) (k u day : Z) :
  numeric_fits 18 u = true ->
  (* CardTransaction *)
  (forall obj, get "transaction_date" obj = VNull ->
               exists e, insert now d CardTransaction obj = inl e)
  /\ insert now d CardTransaction
            (new_card_transaction k u VNull (VDate day))
     = inl (NotNullViolation "transaction_date")
  /\ (exists_row d Card k ->
      insert now d CardTransaction
             (new_card_transaction k u (VDate day) VNull)
      = inr (put_table d CardTransaction
               (d CardTransaction
                ++ [card_transaction_row (next_id (d CardTransaction)) k u
                                         (VDate day) VNull now])))
  (* AccountTransaction *)
  /\ (forall obj, get "posting_date" obj = VNull ->
                  exists e, insert now d AccountTransaction obj = inl e)
  /\ insert now d AccountTransaction
            (new_account_transaction k u VNull (VDate day))
     = inl (NotNullViolation "posting_date")
  /\ (exists_row d Account k ->
      insert now d AccountTransaction
             (new_account_transaction k u (VDate day) VNull)
      = inr (put_table d AccountTransaction
               (d AccountTransaction
                ++ [account_transaction_row (next_id (d AccountTransaction))
                                            k u (VDate day) VNull now]))).
Proof.
  intros Hu. repeat apply conj.
  - intros obj Hv.
    apply (insert_requires now d CardTransaction
             (Column "transaction_date" Date <| with_nullable false));
      try reflexivity; [do 8 right; now left|assumption].
  - reflexivity.
  - intros Hcard.
    apply insert_fresh_ok;
      try (now rewrite build_new_card_transaction); try reflexivity.
    unfold check_fks.
      change (foreign_keys_of CardTransaction)
        with [ {| fk_child := CardTransaction; fk_col := "card_id";
                  fk_parent := Card; fk_ref := "id"; fk_action := CASCADE |};
               {| fk_child := CardTransaction; fk_col := "invoice_id";
                  fk_parent := CardInvoice; fk_ref := "id";
                  fk_action := SET_NULL |} ].
      cbn [find]. rewrite (fk_satisfied_exists d _ _ k); auto.
  - intros obj Hv.
    apply (insert_requires now d AccountTransaction
             (Column "posting_date" Date <| with_nullable false));
      try reflexivity; [do 6 right; now left|assumption].
  - reflexivity.
  - intros Hacct.
    apply insert_fresh_ok;
      try (now rewrite build_new_account_transaction); try reflexivity.
    unfold check_fks.
      change (foreign_keys_of AccountTransaction)
        with [ {| fk_child := AccountTransaction; fk_col := "account_id";
                  fk_parent := Account; fk_ref := "id";
                  fk_action := CASCADE |} ].
      cbn [find]. rewrite (fk_satisfied_exists d _ _ k); auto.
Qed.

(* ------------------------------------------------------------------ *)
(** * Credit schedules *)





(* ------------------------------------------------------------------ *)
(** * Payment orders *)

Lemma store_payment_status (s : PaymentStatus) c :
  column_of PaymentOrder "status" = Some c ->
  store_value c (VEnum (mPaymentStatus s)) = inr (VStr (name s)).
Proof. intros H. inversion H; subst c. now destruct s. Qed.

(** C3, as stated, fails on the code: payment order 1 of [sample_db] is
    COMPLETED, and assigning PENDING to its status is accepted and
    applied. *)
Lemma C3_counterexample :
  let back := update sample_db PaymentOrder 1 "status"
                     (VEnum (mPaymentStatus PENDING)) in
  map (get "status") (sample_db PaymentOrder) = [VStr (name COMPLETED)]
  /\ accepted back = true
  /\ map (get "status") (commit sample_db back PaymentOrder)
     = [VStr (name PENDING)].
Proof. vm_compute. repeat split. Qed.

(** C3, amended.  The schema holds the status of a payment order to the
    four members of [PaymentStatus] and to nothing else: for a stored order,
    whatever its current status, terminal or not, assigning any member [s]
    is accepted, and the order then has status [s].  No transition is
    refused and there is no state-conflict error. *)
Theorem C3_status_update_unguarded (d : db) (i : Z) (r p : row)
        (s : PaymentStatus) :
  find (has_id i) (d PaymentOrder) = Some r ->
  In p (d CustomerCore) -> get "id" p = get "customer_id" r ->
  update d PaymentOrder i "status" (VEnum (mPaymentStatus s))
  = inr (put_table d PaymentOrder
           (map (fun r0 => if has_id i r0
                           then set "status" (VStr (name s)) r else r0)
                (d PaymentOrder)))
  /\ get "status" (set "status" (VStr (name s)) r) = VStr (name s).
Proof.
  intros Hfind Hp Hcust. split; [|apply get_set_same].
  unfold update.
  change (find (fun col => String.eqb (col_name col) "status")
               (columns PaymentOrder))
    with (column_of PaymentOrder "status").
  destruct (column_of PaymentOrder "status") as [c|] eqn:Hc;
    [|discriminate].
  rewrite Hfind, (store_payment_status s c Hc). cbn [and_then].
  apply find_some in Hfind. destruct Hfind as [Hr Hid].
  apply has_id_true in Hid.
  assert (Hu : check_unique PaymentOrder
                 (filter (fun r0 => negb (has_id i r0)) (d PaymentOrder))
                 (set "status" (VStr (name s)) r) = None).
  { apply check_unique_none. intros key r0 Hkey Hr0.
    change (unique_keys PaymentOrder) with [["id"]] in Hkey.
    destruct Hkey as [<-|[]].
    destruct (collides ["id"] _ r0) eqn:C; [exfalso|reflexivity].
    rewrite collides_true in C.
    destruct (C "id" (or_introl eq_refl)) as [_ E].
    rewrite get_set_other in E by discriminate.
    apply filter_In in Hr0. destruct Hr0 as [_ Hno].
    apply negb_true_iff in Hno.
    assert (has_id i r0 = true) by (apply has_id_true; congruence).
    congruence. }
  rewrite Hu.
  assert (Hf : check_fks d PaymentOrder (set "status" (VStr (name s)) r)
               = None).
  { unfold check_fks.
    change (foreign_keys_of PaymentOrder)
      with [ {| fk_child := PaymentOrder; fk_col := "customer_id";
                fk_parent := CustomerCore; fk_ref := "id";
                fk_action := CASCADE |} ].
    cbn [find].
    assert (Hsat : fk_satisfied d
                     {| fk_child := PaymentOrder; fk_col := "customer_id";
                        fk_parent := CustomerCore; fk_ref := "id";
                        fk_action := CASCADE |}
                     (set "status" (VStr (name s)) r) = true);
      [|now rewrite Hsat].
    unfold fk_satisfied. cbn [fk_col fk_ref fk_parent].
    rewrite get_set_other by discriminate.
    destruct (get "customer_id" r) eqn:G; try reflexivity;
      (apply existsb_exists; exists p; split; [assumption|];
       rewrite Hcust; now destruct (val_eq_dec _ _)). }
  rewrite Hf. reflexivity.
Qed.

(* ------------------------------------------------------------------ *)
(** * Enumerations: what is stored, what is refused *)

Lemma member_in_class m : In m (class_members (class_of m)).
Proof. destruct m as [x|x|x|x|x|x]; destruct x; simpl; tauto. Qed.

Lemma class_members_class e m : In m (class_members e) -> class_of m = e.
Proof.
  destruct e; simpl; intros H;
    repeat (destruct H as [<-|H]; [reflexivity|]); contradiction.
Qed.

Lemma enum_lookup_name m :
  enum_lookup (class_of m) (member_name m) = Some m.
Proof. destruct m as [x|x|x|x|x|x]; destruct x; reflexivity. Qed.

Lemma name_in_enum_names e s :
  In s (enum_names e) <-> exists m, class_of m = e /\ member_name m = s.
Proof.
  unfold enum_names. rewrite in_map_iff. split.
  - intros (m & Hn & Hm). exists m. split; [|assumption].
    now apply class_members_class.
  - intros (m & <- & Hn). exists m. split; [assumption|].
    apply member_in_class.
Qed.

Lemma store_member c m :
  col_type c = Enum (class_of m) ->
  store_value c (VEnum m) = inr (VStr (member_name m)).
Proof.
  intros Hty. unfold store_value, bind_processor. rewrite Hty.
  destruct (enum_class_eq_dec (class_of m) (class_of m)); [|congruence].
  cbn. now destruct (nullable c).
Qed.



(** Reading a stored row back. *)
Lemma load_row_get t r :
  forall o, load_row t r = Some o ->
  forall c, In c (columns t) ->
    result_processor (col_type c) (get (col_name c) r)
    = Some (get (col_name c) o).
Proof.
  unfold load_row. pose proof (column_names_distinct t) as Hnd.
  induction (columns t) as [|c0 cs IH]; intros o Ho c Hc; [contradiction|].
  inversion Hnd as [|? ? Hnotin Hnd']; subst.
  destruct (result_processor (col_type c0) (get (col_name c0) r)) as [v0|]
    eqn:R0; [|discriminate].
  match type of Ho with
  | match ?g with _ => _ end = _ => destruct g as [o'|] eqn:G
  end; [|discriminate].
  inversion Ho; subst o. destruct Hc as [->|Hc].
  - simpl. now rewrite String.eqb_refl.
  - assert (Hne : col_name c0 <> col_name c).
    { intros E. apply Hnotin. rewrite E. now apply in_map. }
    simpl. apply String.eqb_neq in Hne. rewrite Hne.
    now apply (IH Hnd' o').
Qed.

Lemma result_processor_total ty v :
  in_domain ty v = true ->
  (forall e s, ty = Enum e -> v = VStr s -> In s (enum_names e)) ->
  exists w, result_processor ty v = Some w.
Proof.
  intros Hd Hname. destruct ty; try (eexists; reflexivity).
  - destruct v; try discriminate; eexists; reflexivity.
  - destruct v; try discriminate; [eexists; reflexivity|].
    pose proof (Hname cls s eq_refl eq_refl) as Hin.
    apply name_in_enum_names in Hin. destruct Hin as (m & <- & <-).
    exists (VEnum m). cbn. now rewrite enum_lookup_name.
Qed.

(** A row loads when its values are of the types of their columns and its
    enumerated columns hold member names. *)
Lemma load_row_total t r :
  (forall c, In c (columns t) ->
             in_domain (col_type c) (get (col_name c) r) = true) ->
  (forall c e s, In c (columns t) -> col_type c = Enum e ->
                 get (col_name c) r = VStr s -> In s (enum_names e)) ->
  exists o, load_row t r = Some o.
Proof.
  unfold load_row. induction (columns t) as [|c0 cs IH]; intros H Hname.
  - now exists [].
  - destruct (result_processor_total _ _ (H c0 (or_introl eq_refl)))
      as [v0 Hv0].
    { intros e s Hty Hs. now apply (Hname c0 e s (or_introl eq_refl)). }
    destruct IH as [o' Ho'].
    { intros c Hc; apply H; now right. }
    { intros c e s Hc. apply Hname. now right. }
    rewrite Hv0, Ho'. eexists. reflexivity.
Qed.

(** A table has at most one enumerated column. *)
Lemma at_most_one {A} (f : A -> bool) l x y :
  (List.length (filter f l) <= 1)%nat ->
  In x l -> In y l -> f x = true -> f y = true -> x = y.
Proof.
  induction l as [|a l IH]; intros Hlen Hx Hy Fx Fy; [contradiction|].
  cbn [filter] in Hlen. destruct (f a) eqn:Fa.
  - cbn [List.length] in Hlen.
    assert (Hnil : filter f l = []).
    { destruct (filter f l); [reflexivity|cbn in Hlen; lia]. }
    assert (Hnone : forall z, In z l -> f z = true -> False).
    { intros z Hz Fz.
      assert (Hin : In z (filter f l)) by (apply filter_In; now split).
      rewrite Hnil in Hin. contradiction. }
    destruct Hx as [<-|Hx], Hy as [<-|Hy]; try reflexivity;
      exfalso; eauto.
  - destruct Hx as [<-|Hx]; [congruence|].
    destruct Hy as [<-|Hy]; [congruence|]. now apply IH.
Qed.

Lemma enum_column_unique t c c' e e' :
  In c (columns t) -> In c' (columns t) ->
  col_type c = Enum e -> col_type c' = Enum e' -> c = c'.
Proof.
  intros Hc Hc' Hty Hty'.
  apply (at_most_one (fun x => match col_type x with
                               | Enum _ => true
                               | _ => false
                               end) (columns t)); try assumption.
  - destruct t; vm_compute; lia.
  - now rewrite Hty.
  - now rewrite Hty'.
Qed.

Lemma load_row_fails t r c :
  In c (columns t) ->
  result_processor (col_type c) (get (col_name c) r) = None ->
  load_row t r = None.
Proof.
  unfold load_row. induction (columns t) as [|c0 cs IH]; intros Hc Hnone;
    [contradiction|].
  destruct Hc as [->|Hc].
  - now rewrite Hnone.
  - rewrite (IH Hc Hnone).
    now destruct (result_processor (col_type c0) (get (col_name c0) r)).
Qed.

Lemma enum_lookup_some e s m :
  enum_lookup e s = Some m <-> class_of m = e /\ member_name m = s.
Proof.
  split.
  - unfold enum_lookup. intros H. apply find_some in H.
    destruct H as [Hin Hname]. apply String.eqb_eq in Hname.
    split; [now apply class_members_class|assumption].
  - intros [<- <-]. apply enum_lookup_name.
Qed.

Lemma enum_lookup_none e s :
  ~ In s (enum_names e) -> enum_lookup e s = None.
Proof.
  intros Hout. destruct (enum_lookup e s) as [m|] eqn:E; [|reflexivity].
  apply enum_lookup_some in E. destruct E as [He Hs].
  exfalso. apply Hout. apply name_in_enum_names. now exists m.
Qed.

(** C7, as stated, fails on the code: what is stored for
    [AccountType.CHECKING] and for [PaymentStatus.PENDING] is the member
    name, "CHECKING" and "PENDING", not the member value, "checking" and
    "pending"; the account of [sample_db] is stored so. *)
Lemma C7_counterexample :
  bind_processor (Enum cAccountType) (VEnum (mAccountType CHECKING))
  = Some (VStr "CHECKING")
  /\ bind_processor (Enum cPaymentStatus) (VEnum (mPaymentStatus PENDING))
     = Some (VStr "PENDING")
  /\ value CHECKING = "checking" /\ value PENDING = "pending"
  /\ VStr "CHECKING" <> VStr (value CHECKING)
  /\ VStr "PENDING" <> VStr (value PENDING)
  /\ map (get "account_type") (sample_db Account) = [VStr "CHECKING"].
Proof. vm_compute. repeat split; discriminate. Qed.

(** C7, amended.  Every enumerated field is persisted as the member's
    name, a string, neither an ordinal nor the member's lowercase value;
    reading the stored string back gives the same member.  For every
    member [m]: the conversions are inverse on it; its stored form differs
    from its value; and an object written with [m] in a column of [m]'s
    class is stored with the name there and loads back with [m] there. *)
Theorem C7_enum_round_trip (m : member) :
  bind_processor (Enum (class_of m)) (VEnum m) = Some (VStr (member_name m))
  /\ result_processor (Enum (class_of m)) (VStr (member_name m))
     = Some (VEnum m)
  /\ member_name m <> member_value m
  /\ forall now d t c obj d',
       In c (columns t) -> col_type c = Enum (class_of m) ->
       get (col_name c) obj = VEnum m ->
       insert now d t obj = inr d' ->
       exists r o,
         d' t = (d t ++ [r])%list
         /\ get (col_name c) r = VStr (member_name m)
         /\ load_row t r = Some o
         /\ get (col_name c) o = VEnum m.
Proof.
  repeat apply conj.
  - cbn. now destruct (enum_class_eq_dec (class_of m) (class_of m)).
  - cbn. now rewrite enum_lookup_name.
  - destruct m as [x|x|x|x|x|x]; destruct x; discriminate.
  - intros now d t c obj d' Hc Hty Hobj Hins.
    apply insert_inv in Hins. destruct Hins as (r & Hb & _ & _ & ->).
    pose proof (build_row_get now d t obj r c Hb Hc) as Hst.
    rewrite Hobj in Hst. cbn [fill] in Hst.
    rewrite (store_member c m Hty) in Hst.
    assert (Hr : get (col_name c) r = VStr (member_name m)) by congruence.
    destruct (load_row_total t r) as [o Ho].
    { intros c' Hc'.
      pose proof (build_row_get now d t obj r c' Hb Hc') as H.
      apply store_value_inv in H. apply H. }
    { intros c' e s Hc' Hty' Hs.
      pose proof (enum_column_unique t c c' _ e Hc Hc' Hty Hty') as Ec.
      subst c'. rewrite Hty in Hty'. injection Hty' as <-.
      apply name_in_enum_names. exists m. split; congruence. }
    exists r, o. rewrite put_table_same. repeat split; try congruence.
    pose proof (load_row_get t r o Ho c Hc) as Hl.
    rewrite Hr, Hty in Hl. cbn in Hl. rewrite enum_lookup_name in Hl.
    cbn in Hl. congruence.
Qed.





(* ------------------------------------------------------------------ *)
(** * Numeric scales *)

(** C9, as stated, fails on the code: the FX rate is a rate, and its
    column is declared [Numeric(10, 6)], six fractional digits and not
    four. *)
Lemma C9_counterexample :
  In (Column "rate" (Numeric 10 6) <| with_nullable true) (columns FxOperation)
  /\ kind_of "rate" = Some PriceOrRate
  /\ spec_scale PriceOrRate = 4%nat
  /\ 6%nat <> spec_scale PriceOrRate.
Proof.
  repeat apply conj; try reflexivity.
  - simpl. tauto.
  - discriminate.
Qed.

(** C9, amended.  Every numeric field is an exact fixed-point decimal
    ([Numeric(p, s)]) whose scale is 2 for a cash amount, 4 for a price or
    the nominal credit rate, 8 for an instrument quantity, and 6 for the
    rate of an FX operation; and every field holding a cash amount, a
    price, a rate or a quantity is declared [Numeric]. *)
Theorem C9_numeric_scales (t : model) (c : column) :
  In c (columns t) ->
  (forall p s, col_type c = Numeric p s ->
               exists k, kind_of (col_name c) = Some k
                         /\ declared_scale t (col_name c) = Some s
                         /\ (s = spec_scale k
                             \/ (t = FxOperation /\ col_name c = "rate"
                                 /\ s = 6%nat)))
  /\ (kind_of (col_name c) <> None ->
      exists p s, col_type c = Numeric p s).
Proof.
  intros Hc.
  destruct t; cbn [columns] in Hc;
    repeat (destruct Hc as [<-|Hc];
            [split;
             [intros p s Hty; cbn in Hty;
              first [discriminate
                    |inversion Hty; subst; eexists; split; [reflexivity|];
                     split; [reflexivity|];
                     first [left; reflexivity
                           |right; repeat split; reflexivity]]
             |intros Hk; first [exfalso; apply Hk; reflexivity
                               |eexists; eexists; reflexivity]]|]);
    destruct Hc.
Qed.

(* ------------------------------------------------------------------ *)
(** * Deleting any parent row *)

Lemma nothing_descending_left d d' t0 i :
  preserves d d' ->
  (forall r, In r (d' t0) -> get "id" r <> VInt i) ->
  forall t r, descends d t0 i t r ->
  forall r', agree t r r' -> In r' (d' t) -> False.
Proof.
  intros [E K] Hroot t r Hdesc.
  induction Hdesc as [r Hid|k r p Hk Ha Hp Href Hnn Hdesc IH]; intros r' A Hr'.
  - apply (Hroot r' Hr'). rewrite (A _ (id_stable t0)). assumption.
  - pose proof (A _ (cascade_col_stable k Hk Ha)) as Hcol.
    destruct (K k r' p Hk Ha Hr' Hp) as (p' & Hp' & Ap);
      [congruence|congruence|].
    exact (IH p' Ap Hp').
Qed.

(** The cascade is not special to customers.  For every table [t0] and
    every stored row [r0] of it with primary key [i], deleting the row,
    with a DELETE statement or through the ORM, leaves no version of any
    row that descended from it through [CASCADE] foreign keys: an account's
    balances and transactions, a card's invoices and transactions, a credit
    contract's schedules and collaterals, a consent's scopes. *)
Theorem delete_removes_descendants (d : db) (t0 : model) (i : Z) (r0 : row) :
  In r0 (d t0) -> get "id" r0 = VInt i ->
  forall d', d' = delete d t0 i \/ d' = session_delete d t0 i ->
  forall t r r', descends d t0 i t r -> agree t r r' -> ~ In r' (d' t).
Proof.
  intros Hr0 Hid d' Hd' t r r' Hdesc A Hr'.
  assert (Hpres : preserves d d').
  { destruct Hd' as [->| ->];
      [apply delete_preserves|apply flush_deletes_preserves]. }
  assert (Hroot : forall x, In x (d' t0) -> get "id" x <> VInt i).
  { destruct Hd' as [->| ->]; intros x Hx.
    - now apply delete_removes in Hx.
    - now apply (session_delete_removes d t0 i r0 x Hr0 Hid). }
  exact (nothing_descending_left d d' t0 i Hpres Hroot t r Hdesc r' A Hr').
Qed.

(* ------------------------------------------------------------------ *)
(** * A DELETE removes nothing but descendants *)

Lemma descends_agree d t0 i t r r' :
  agree t r r' -> descends d t0 i t r' -> descends d t0 i t r.
Proof.
  intros A H. revert r A.
  destruct H as [r' Hid|k r' p Hk Ha Hp Href Hnn Hdesc]; intros r A.
  - apply descends_self. rewrite <- Hid. symmetry. apply A, id_stable.
  - pose proof (A _ (cascade_col_stable k Hk Ha)) as Hcol.
    apply (descends_child d t0 i k r p Hk Ha Hp);
      [congruence|congruence|assumption].
Qed.

Lemma db_delete_pruned_descends d t0 i fuel :
  forall t col vs acc,
    evolves d acc ->
    (forall r, In r (acc t) -> selects col vs r = true ->
               descends d t0 i t r) ->
    forall t', pruned (descends d t0 i t') t' (acc t')
                      (db_delete fuel t col vs acc t').
Proof.
  induction fuel as [|fuel IH]; intros t col vs acc Hev Hsel t';
    [apply pruned_refl|].
  rewrite db_delete_unfold.
  set (victims := filter (selects col vs) (acc t)).
  apply (fold_left_invariant
           (fun a => forall t', pruned (descends d t0 i t') t' (acc t')
                                       (a t'))).
  - clear t'. intros t'. destruct (model_eq_dec t t') as [<-|Hne].
    + rewrite put_table_same. apply pruned_filter.
      intros r Hr Hf. apply negb_false_iff in Hf. now apply Hsel.
    + rewrite put_table_other by assumption. apply pruned_refl.
  - clear t'. intros a k Hk Ha t'.
    apply in_fks_to in Hk. destruct Hk as [Hk Hparent].
    assert (Heva : evolves d a).
    { intros t1 r1 Hr1.
      destruct (pruned_In _ _ _ _ r1 (Ha t1) Hr1) as (r2 & Hr2 & A2).
      destruct (Hev t1 r2 Hr2) as (r3 & Hr3 & A3).
      exists r3. split; [assumption|]. eapply agree_trans; eassumption. }
    apply (pruned_trans _ t' (acc t') (a t'));
      [intros r r'; apply descends_agree|apply Ha|].
    destruct (fk_action k) eqn:Hact.
    + apply IH; [assumption|]. intros r Hr Hs.
      apply selects_true in Hs. destruct Hs as [Hnn Hin].
      apply in_map_iff in Hin. destruct Hin as (p' & Href & Hp').
      apply filter_In in Hp'. destruct Hp' as [Hp' Hselp].
      destruct (Hev t p' Hp') as (p & Hp & Ap).
      apply (descends_child d t0 i k r p Hk Hact).
      * now rewrite Hparent.
      * rewrite <- Href. apply Ap.
        rewrite <- Hparent. now apply ref_col_stable.
      * assumption.
      * rewrite Hparent. apply (descends_agree d t0 i t p p' Ap).
        now apply Hsel.
    + unfold set_null. destruct (model_eq_dec (fk_child k) t') as [<-|Hne].
      * rewrite put_table_same. apply pruned_map. intros r.
        now apply set_null_row_agree.
      * rewrite put_table_other by assumption. apply pruned_refl.
Qed.

(** A DELETE of the row of [t0] with primary key [i] removes only what
    descends from it: every row, of any table, that does not descend from
    it is still stored afterwards, with at most a [SET NULL] column
    changed. *)
Theorem delete_spares_the_rest (d : db) (t0 : model) (i : Z) (t : model)
        (r : row) :
  In r (d t) -> ~ descends d t0 i t r ->
  exists r', In r' (delete d t0 i t) /\ agree t r r'.
Proof.
  intros Hr Hnot.
  apply (pruned_keeps (descends d t0 i t) t (d t)); try assumption.
  unfold delete. apply db_delete_pruned_descends; [apply evolves_refl|].
  intros x _ Hs. apply descends_self.
  apply selects_true in Hs. destruct Hs as [_ [H|[]]]. now symmetry.
Qed.

(* ------------------------------------------------------------------ *)
(** * Deleting what is not there *)

Lemma selects_nil c r : selects c [] r = false.
Proof. unfold selects. now destruct (get c r). Qed.

Lemma filter_all {A} (f : A -> bool) l :
  (forall x, In x l -> f x = true) -> filter f l = l.
Proof.
  induction l as [|a l IH]; intros H; [reflexivity|]. simpl.
  rewrite (H a (or_introl eq_refl)). f_equal. apply IH.
  intros x Hx. apply H. now right.
Qed.

Lemma filter_none {A} (f : A -> bool) l :
  (forall x, In x l -> f x = false) -> filter f l = [].
Proof.
  induction l as [|a l IH]; intros H; [reflexivity|]. simpl.
  rewrite (H a (or_introl eq_refl)). apply IH.
  intros x Hx. apply H. now right.
Qed.

Lemma set_null_nil k d t' : set_null k [] d t' = d t'.
Proof.
  unfold set_null. destruct (model_eq_dec (fk_child k) t') as [<-|Hne].
  - rewrite put_table_same. rewrite <- (map_id (d (fk_child k))) at 2.
    apply map_ext. intros r. now rewrite selects_nil.
  - now apply put_table_other.
Qed.

(** A DELETE that selects no row changes nothing, whatever the fuel. *)
Lemma db_delete_none fuel :
  forall t c vs d,
    (forall r, In r (d t) -> selects c vs r = false) ->
    forall t', db_delete fuel t c vs d t' = d t'.
Proof.
  induction fuel as [|fuel IH]; intros t c vs d Hnone t'; [reflexivity|].
  rewrite db_delete_unfold.
  rewrite (filter_none (selects c vs) (d t) Hnone).
  rewrite (filter_all (fun r => negb (selects c vs r)) (d t))
    by (intros r Hr; now rewrite (Hnone r Hr)).
  revert t'.
  apply (fold_left_invariant (fun acc => forall t', acc t' = d t')).
  - intros t'. unfold put_table. now destruct (model_eq_dec t t') as [<-|].
  - intros acc k _ Hacc t'. cbn [map].
    destruct (fk_action k).
    + rewrite IH; [apply Hacc|]. intros r _. apply selects_nil.
    + rewrite set_null_nil. apply Hacc.
Qed.

Lemma missing_key_noop d t i :
  (forall r, In r (d t) -> get "id" r <> VInt i) ->
  forall t', delete d t i t' = d t' /\ session_delete d t i t' = d t'.
Proof.
  intros Hmiss t'.
  assert (Hnone : forall r, In r (d t) -> selects "id" [VInt i] r = false).
  { intros r Hr. destruct (selects "id" [VInt i] r) eqn:S; [|reflexivity].
    apply selects_true in S. destruct S as [_ [E|[]]].
    exfalso. now apply (Hmiss r Hr). }
  split.
  - unfold delete. now apply db_delete_none.
  - unfold session_delete.
    now rewrite (filter_none (selects "id" [VInt i]) (d t) Hnone).
Qed.

(** Deleting a primary key that no row of the table has is a no-op on
    both paths: no table changes. *)
Theorem delete_missing_is_noop (d : db) (t : model) (i : Z) :
  (forall r, In r (d t) -> get "id" r <> VInt i) ->
  forall t', delete d t i t' = d t' /\ session_delete d t i t' = d t'.
Proof. apply missing_key_noop. Qed.

Lemma session_delete_gone d t i r :
  In r (session_delete d t i t) -> get "id" r <> VInt i.
Proof.
  destruct (find (has_id i) (d t)) as [r0|] eqn:F.
  - apply find_some in F. destruct F as [Hr0 Hid]. apply has_id_true in Hid.
    now apply (session_delete_removes d t i r0 r).
  - intros Hr.
    assert (Hno : forall x, In x (d t) -> get "id" x <> VInt i).
    { intros x Hx E. apply (find_none _ _ F) in Hx.
      apply has_id_true in E. congruence. }
    rewrite (proj2 (missing_key_noop d t i Hno t)) in Hr. now apply Hno.
Qed.

(** Both deletes are idempotent: once the row is deleted, deleting its
    key again changes no table. *)
Theorem deletes_are_idempotent (d : db) (t : model) (i : Z) (t' : model) :
  delete (delete d t i) t i t' = delete d t i t'
  /\ session_delete (session_delete d t i) t i t' = session_delete d t i t'.
Proof.
  split.
  - apply missing_key_noop. intros r. apply delete_removes.
  - apply missing_key_noop. intros r. apply session_delete_gone.
Qed.

(* ------------------------------------------------------------------ *)
(** * The fuel of the two deletes is enough *)

Lemma fold_left_related {A A' B} (R : A -> A' -> Prop)
      (f : A -> B -> A) (g : A' -> B -> A') l :
  (forall a a' b, In b l -> R a a' -> R (f a b) (g a' b)) ->
  forall a a', R a a' -> R (fold_left f l a) (fold_left g l a').
Proof.
  induction l as [|b l IH]; intros Hstep a a' Ha; simpl; [assumption|].
  apply IH.
  - intros x x' y Hy. apply Hstep. now right.
  - apply Hstep; [now left|assumption].
Qed.

Lemma put_table_ext d1 d2 t rows :
  (forall t', d1 t' = d2 t') ->
  forall t', put_table d1 t rows t' = put_table d2 t rows t'.
Proof. intros H t'. unfold put_table. now destruct (model_eq_dec t t'). Qed.

Lemma set_null_ext k keys d1 d2 :
  (forall t', d1 t' = d2 t') ->
  forall t', set_null k keys d1 t' = set_null k keys d2 t'.
Proof.
  intros H t'. unfold set_null. rewrite (H (fk_child k)).
  now apply put_table_ext.
Qed.

(** A DELETE reads the database table by table. *)
Lemma db_delete_ext fuel :
  forall t c vs d1 d2,
    (forall t', d1 t' = d2 t') ->
    forall t', db_delete fuel t c vs d1 t' = db_delete fuel t c vs d2 t'.
Proof.
  induction fuel as [|fuel IH]; intros t c vs d1 d2 H; [exact H|].
  rewrite !db_delete_unfold. rewrite (H t).
  apply (fold_left_related (fun a a' => forall t', a t' = a' t')).
  - intros a a' k _ Ha. destruct (fk_action k).
    + now apply IH.
    + now apply set_null_ext.
  - now apply put_table_ext.
Qed.

Lemma db_delete_fuel f1 :
  forall f2 t c vs d,
    (height t < f1)%nat -> (height t < f2)%nat ->
    forall t', db_delete f1 t c vs d t' = db_delete f2 t c vs d t'.
Proof.
  induction f1 as [|f1 IH]; intros f2 t c vs d H1 H2; [lia|].
  destruct f2 as [|f2]; [lia|].
  rewrite !db_delete_unfold.
  apply (fold_left_related (fun a a' => forall t', a t' = a' t')).
  - intros a a' k Hk Ha t'. apply in_fks_to in Hk. destruct Hk as [Hk Hp].
    pose proof (height_decreases k Hk) as Hlt. rewrite Hp in Hlt.
    destruct (fk_action k).
    + rewrite (IH f2) by lia. now apply db_delete_ext.
    + now apply set_null_ext.
  - reflexivity.
Qed.

Lemma rel_fkey_spec t rel k :
  rel_fkey t rel = Some k ->
  In k foreign_keys /\ fk_parent k = t /\ fk_child k = rel_argument rel.
Proof.
  unfold rel_fkey. intros H. apply find_some in H. destruct H as [Hk Hc].
  apply in_fks_to in Hk. destruct Hk as [Hk Hp].
  destruct (model_eq_dec (fk_child k) (rel_argument rel)); [|discriminate].
  now repeat split.
Qed.

Lemma cascade_iterator_fuel d f1 :
  forall f2 t r,
    (height t < f1)%nat -> (height t < f2)%nat ->
    cascade_iterator f1 d t r = cascade_iterator f2 d t r.
Proof.
  induction f1 as [|f1 IH]; intros f2 t r H1 H2; [lia|].
  destruct f2 as [|f2]; [lia|].
  cbn [cascade_iterator]. f_equal. apply flat_map_ext. intros rel.
  destruct (delete_cascade rel); [|reflexivity].
  destruct (rel_fkey t rel) as [k|] eqn:Hk; [|reflexivity].
  destruct (rel_fkey_spec t rel k Hk) as (Hin & Hp & Hc).
  pose proof (height_decreases k Hin) as Hlt. rewrite Hp, Hc in Hlt.
  apply flat_map_ext. intros x. apply IH; lia.
Qed.

Lemma height_at_most_3 t : (height t <= 3)%nat.
Proof. destruct t; vm_compute; lia. Qed.

(** The foreign-key graph is four tables deep at most, so four levels of
    recursion reach everything: with any fuel from four on, the DELETE and
    the ORM's collection of objects give what they give with the fuel that
    [delete] and [session_delete] use. *)
Theorem four_levels_suffice (fuel : nat) :
  (4 <= fuel)%nat ->
  (forall t c vs d t',
      db_delete fuel t c vs d t'
      = db_delete (List.length all_models) t c vs d t')
  /\ (forall d t r,
         cascade_iterator fuel d t r
         = cascade_iterator (List.length all_models) d t r).
Proof.
  intros Hfuel. split.
  - intros t c vs d t'. pose proof (height_at_most_3 t).
    pose proof (height_bounded t). apply db_delete_fuel; lia.
  - intros d t r. pose proof (height_at_most_3 t).
    pose proof (height_bounded t). apply cascade_iterator_fuel; lia.
Qed.

(** What descends from a row of [t0] lies strictly below [t0] in the
    foreign-key graph. *)
Lemma descends_below d t0 i t r :
  descends d t0 i t r -> t = t0 \/ (height t < height t0)%nat.
Proof.
  induction 1 as [r Hid|k r p Hk Ha Hp Href Hnn Hdesc IH]; [now left|].
  right. pose proof (height_decreases k Hk) as Hlt.
  destruct IH as [<-|IH]; lia.
Qed.

(* ------------------------------------------------------------------ *)
(** * Referential integrity of every state *)

Lemma fk_ref_is_id k : In k foreign_keys -> fk_ref k = "id".
Proof.
  assert (H : forallb (fun k => String.eqb (fk_ref k) "id") foreign_keys
              = true) by (vm_compute; reflexivity).
  rewrite forallb_forall in H. intros Hk. now apply String.eqb_eq, H.
Qed.

Lemma fk_not_self k : In k foreign_keys -> fk_child k <> fk_parent k.
Proof.
  intros Hk E. pose proof (height_decreases k Hk) as H. rewrite E in H. lia.
Qed.

Lemma in_foreign_keys_of k :
  In k foreign_keys -> In k (foreign_keys_of (fk_child k)).
Proof.
  unfold foreign_keys. intros H. apply in_flat_map in H.
  destruct H as (t & _ & Hk).
  now rewrite (proj2 (foreign_keys_of_spec t k Hk)).
Qed.

Lemma refines_refl t r : refines t r r.
Proof. intros c. now left. Qed.

Lemma refines_trans t r1 r2 r3 :
  refines t r1 r2 -> refines t r2 r3 -> refines t r1 r3.
Proof.
  intros H12 H23 c. destruct (H23 c) as [E|[Hd E]].
  - destruct (H12 c) as [E'|[Hd E']];
      [left; congruence|right; split; [assumption|congruence]].
  - right. now split.
Qed.

Lemma refines_agree t r r' : refines t r r' -> agree t r r'.
Proof.
  intros H c Hc. destruct (H c) as [E|[Hd _]]; [assumption|contradiction].
Qed.

Lemma refines_value t r r' c :
  refines t r r' -> get c r' <> VNull -> get c r' = get c r.
Proof.
  intros H Hnn. destruct (H c) as [E|[_ E]]; [assumption|contradiction].
Qed.

Lemma refines_selects t r r' c vs :
  refines t r r' -> selects c vs r = false -> selects c vs r' = false.
Proof.
  intros H Hs. unfold selects in *.
  destruct (H c) as [E|[_ E]]; rewrite E; [assumption|reflexivity].
Qed.

Lemma set_null_row_refines k keys r :
  In k foreign_keys -> fk_action k = SET_NULL ->
  refines (fk_child k) r
          (if selects (fk_col k) keys r then set (fk_col k) VNull r else r).
Proof.
  intros Hk Ha. destruct (selects (fk_col k) keys r); [|apply refines_refl].
  intros c. destruct (string_dec (fk_col k) c) as [<-|Hne].
  - right. split; [now apply set_null_col_detachable|apply get_set_same].
  - left. now apply get_set_other.
Qed.

Lemma set_null_row_unselected k keys r :
  selects (fk_col k) keys
          (if selects (fk_col k) keys r then set (fk_col k) VNull r else r)
  = false.
Proof.
  destruct (selects (fk_col k) keys r) eqn:S; [|assumption].
  unfold selects. now rewrite get_set_same.
Qed.

Lemma sound_step_refl d : sound_step d d.
Proof.
  split.
  - intros t r Hr. exists r. split; [assumption|apply refines_refl].
  - intros k r' p _ _ Hp _ _. exists p. split; [assumption|apply agree_refl].
Qed.

Lemma sound_step_trans d1 d2 d3 :
  sound_step d1 d2 -> sound_step d2 d3 -> sound_step d1 d3.
Proof.
  intros [E12 K12] [E23 K23]. split.
  - intros t r3 H3. destruct (E23 t r3 H3) as (r2 & H2 & R23).
    destruct (E12 t r2 H2) as (r1 & H1 & R12).
    exists r1. split; [assumption|]. eapply refines_trans; eassumption.
  - intros k r3 p1 Hk Hr3 Hp1 Href Hnn.
    destruct (E23 _ _ Hr3) as (r2 & Hr2 & R23).
    pose proof (refines_value _ _ _ _ R23 Hnn) as Hcol.
    destruct (K12 k r2 p1 Hk Hr2 Hp1) as (p2 & Hp2 & Ap12);
      [congruence|congruence|].
    pose proof (Ap12 _ (ref_col_stable k Hk)) as Hrefcol.
    destruct (K23 k r3 p2 Hk Hr3 Hp2) as (p3 & Hp3 & Ap23);
      [congruence|assumption|].
    exists p3. split; [assumption|]. eapply agree_trans; eassumption.
Qed.

Lemma set_null_sound k keys d :
  In k foreign_keys -> fk_action k = SET_NULL ->
  sound_step d (set_null k keys d).
Proof.
  intros Hk Ha. unfold set_null. split.
  - intros t r' Hr'. destruct (model_eq_dec (fk_child k) t) as [<-|Hne].
    + rewrite put_table_same in Hr'. apply in_map_iff in Hr'.
      destruct Hr' as (r & <- & Hr). exists r. split; [assumption|].
      now apply set_null_row_refines.
    + rewrite put_table_other in Hr' by assumption.
      exists r'. split; [assumption|apply refines_refl].
  - intros k' r' p Hk' _ Hp _ _.
    destruct (model_eq_dec (fk_child k) (fk_parent k')) as [E|Hne].
    + rewrite <- E, put_table_same. rewrite <- E in Hp.
      eexists. split; [apply in_map; exact Hp|].
      now apply set_null_row_agree.
    + rewrite put_table_other by assumption.
      exists p. split; [assumption|apply agree_refl].
Qed.

(** A DELETE leaves no reference dangling: a row that referenced a deleted
    row is deleted with it ([CASCADE]) or has the reference cleared
    ([SET NULL]). *)
Lemma db_delete_sound fuel :
  forall t c vs d,
    (height t < fuel)%nat -> sound_step d (db_delete fuel t c vs d).
Proof.
  induction fuel as [|fuel IH]; intros t c vs d Hfuel; [lia|].
  rewrite db_delete_unfold.
  set (victims := filter (selects c vs) (d t)).
  set (d1 := put_table d t (filter (fun r => negb (selects c vs r)) (d t))).
  set (step := fun acc k =>
                 match fk_action k with
                 | CASCADE => db_delete fuel (fk_child k) (fk_col k)
                                        (map (get (fk_ref k)) victims) acc
                 | SET_NULL => set_null k (map (get (fk_ref k)) victims) acc
                 end).
  assert (Hstep : forall acc k, In k (fks_to t) -> sound_step acc (step acc k)).
  { intros acc k Hk. apply in_fks_to in Hk. destruct Hk as [Hk Hp].
    pose proof (height_decreases k Hk) as Hlt. rewrite Hp in Hlt.
    unfold step. destruct (fk_action k) eqn:Ha.
    - apply IH. lia.
    - now apply set_null_sound. }
  assert (Hfold : sound_step d1 (fold_left step (fks_to t) d1)).
  { apply (fold_left_invariant (fun acc => sound_step d1 acc));
      [apply sound_step_refl|].
    intros acc k Hk Hacc. eapply sound_step_trans; [exact Hacc|].
    now apply Hstep. }
  assert (Hsub : forall t' r, In r (d1 t') -> In r (d t')).
  { intros t' r. subst d1. destruct (model_eq_dec t t') as [<-|Hne].
    - rewrite put_table_same, filter_In. tauto.
    - now rewrite put_table_other. }
  destruct Hfold as [Efold Kfold]. split.
  - intros t' r' Hr'. destruct (Efold _ _ Hr') as (r & Hr & A).
    exists r. split; [now apply Hsub|assumption].
  - intros k r' p Hk Hr' Hp Href Hnn.
    destruct (model_eq_dec t (fk_parent k)) as [Et|Hne].
    + destruct (selects c vs p) eqn:Hsel.
      * exfalso.
        assert (Hkt : In k (fks_to t)) by (apply in_fks_to; split; congruence).
        assert (Hgone : forall r0,
                   In r0 (fold_left step (fks_to t) d1 (fk_child k)) ->
                   selects (fk_col k) (map (get (fk_ref k)) victims) r0
                   = false).
        { apply (fold_left_establishes
                   (fun acc => forall r0, In r0 (acc (fk_child k)) ->
                      selects (fk_col k) (map (get (fk_ref k)) victims) r0
                      = false) step (fks_to t) d1 k Hkt).
          - intros acc r0. unfold step. destruct (fk_action k) eqn:Ha.
            + pose proof (height_decreases k Hk) as Hlt.
              destruct fuel as [|fuel']; [rewrite <- Et in Hlt; lia|].
              apply db_delete_removes.
            + unfold set_null. rewrite put_table_same. intros Hr0.
              apply in_map_iff in Hr0. destruct Hr0 as (x & <- & _).
              apply set_null_row_unselected.
          - intros acc k2 Hk2 Hacc r0 Hr0.
            destruct (Hstep acc k2 Hk2) as [E2 _].
            destruct (E2 _ _ Hr0) as (r1 & Hr1 & R).
            apply (refines_selects _ _ _ _ _ R). now apply Hacc. }
        specialize (Hgone r' Hr').
        assert (Htrue : selects (fk_col k) (map (get (fk_ref k)) victims) r'
                        = true).
        { apply selects_true. split; [assumption|].
          rewrite Href. apply in_map. subst victims.
          apply filter_In. split; [now rewrite Et|assumption]. }
        congruence.
      * apply (Kfold k r' p Hk Hr'); [|assumption|assumption].
        subst d1. rewrite <- Et, put_table_same. apply filter_In.
        split; [now rewrite Et|now rewrite Hsel].
    + apply (Kfold k r' p Hk Hr'); [|assumption|assumption].
      subst d1. now rewrite put_table_other.
Qed.

Lemma delete_sound d t i : sound_step d (delete d t i).
Proof. apply db_delete_sound, height_bounded. Qed.

Lemma session_delete_sound d t i : sound_step d (session_delete d t i).
Proof.
  unfold session_delete, flush_deletes.
  apply (fold_left_invariant (fun acc => sound_step d acc));
    [apply sound_step_refl|].
  intros acc o _ Hacc. eapply sound_step_trans; [exact Hacc|].
  apply db_delete_sound, height_bounded.
Qed.

Lemma no_orphans_sound_step d d' :
  no_orphans d -> sound_step d d' -> no_orphans d'.
Proof.
  intros Hno [E K] k r' Hk Hr' Hnn.
  destruct (E _ _ Hr') as (r & Hr & R).
  pose proof (refines_value _ _ _ _ R Hnn) as Hcol.
  destruct (Hno k r Hk Hr) as (p & Hp & Href); [congruence|].
  destruct (K k r' p Hk Hr' Hp) as (p' & Hp' & Ap);
    [congruence|assumption|].
  exists p'. split; [assumption|].
  rewrite (Ap _ (ref_col_stable k Hk)). congruence.
Qed.

Lemma check_fks_none d t r :
  check_fks d t r = None <->
  forall k, In k (foreign_keys_of t) -> fk_satisfied d k r = true.
Proof.
  unfold check_fks. split.
  - intros H k Hk. destruct (find _ (foreign_keys_of t)) eqn:F;
      [discriminate|].
    pose proof (find_none _ _ F k Hk) as Hn. now apply negb_false_iff in Hn.
  - intros H. destruct (find _ (foreign_keys_of t)) as [k|] eqn:F;
      [|reflexivity].
    apply find_some in F. destruct F as [Hk Hn].
    rewrite (H k Hk) in Hn. discriminate.
Qed.

Lemma fk_satisfied_true d k r :
  fk_satisfied d k r = true <->
  (get (fk_col k) r <> VNull ->
   exists p, In p (d (fk_parent k)) /\ get (fk_ref k) p = get (fk_col k) r).
Proof.
  unfold fk_satisfied.
  destruct (get (fk_col k) r) eqn:G;
    try (split; [intros _ H; now destruct H|reflexivity]);
    (split;
     [intros H _; apply existsb_exists in H; destruct H as (p & Hp & E);
      exists p; split; [assumption|];
      now destruct (val_eq_dec (get (fk_ref k) p) _)
     |intros H; destruct H as (p & Hp & E); [discriminate|];
      apply existsb_exists; exists p; split; [assumption|];
      now destruct (val_eq_dec (get (fk_ref k) p) _)]).
Qed.

Lemma no_orphans_empty : no_orphans empty_db.
Proof. intros k r _ []. Qed.

Lemma no_orphans_insert now d t obj d' :
  no_orphans d -> insert now d t obj = inr d' -> no_orphans d'.
Proof.
  intros Hno Hins.
  apply insert_inv in Hins. destruct Hins as (r & _ & _ & Hfk & ->).
  rewrite check_fks_none in Hfk.
  assert (Hmono : forall t' x, In x (d t') ->
                               In x (put_table d t (d t ++ [r])%list t')).
  { intros t' x Hx. destruct (model_eq_dec t t') as [<-|Hne].
    - rewrite put_table_same. apply in_or_app. now left.
    - now rewrite put_table_other. }
  intros k r1 Hk Hr1 Hnn.
  assert (Hold : In r1 (d (fk_child k)) ->
                 exists p, In p (put_table d t (d t ++ [r])%list (fk_parent k))
                           /\ get (fk_ref k) p = get (fk_col k) r1).
  { intros Hin. destruct (Hno k r1 Hk Hin Hnn) as (p & Hp & E).
    exists p. split; [now apply Hmono|assumption]. }
  destruct (model_eq_dec t (fk_child k)) as [Et|Hne].
  - rewrite <- Et, put_table_same in Hr1. apply in_app_or in Hr1.
    destruct Hr1 as [Hr1|[<-|[]]]; [apply Hold; now rewrite <- Et|].
    assert (Hin : In k (foreign_keys_of t))
      by (rewrite Et; now apply in_foreign_keys_of).
    destruct (proj1 (fk_satisfied_true d k r) (Hfk k Hin) Hnn)
      as (p & Hp & E).
    exists p. split; [now apply Hmono|assumption].
  - rewrite put_table_other in Hr1 by assumption. now apply Hold.
Qed.

Lemma update_inv_refs d t i c v d' :
  update d t i c v = inr d' ->
  exists col old v',
    column_of t c = Some col /\ find (has_id i) (d t) = Some old
    /\ store_value col v = inr v'
    /\ check_fks d t (set c v' old) = None
    /\ check_referenced d t old (set c v' old) = None
    /\ d' = put_table d t
              (map (fun r0 => if has_id i r0 then set c v' old else r0) (d t)).
Proof.
  unfold update.
  change (find (fun col => String.eqb (col_name col) c) (columns t))
    with (column_of t c).
  destruct (column_of t c) as [col|] eqn:Hcol; [|discriminate].
  destruct (find (has_id i) (d t)) as [old|] eqn:Hold; [|discriminate].
  destruct (store_value col v) as [e|v'] eqn:Hst; [discriminate|].
  cbn [and_then].
  destruct (check_unique t _ (set c v' old)) eqn:Hu; [discriminate|].
  destruct (check_fks d t (set c v' old)) eqn:Hf; [discriminate|].
  destruct (check_referenced d t old (set c v' old)) eqn:Hr; [discriminate|].
  unfold ok. intros E. injection E as <-.
  exists col, old, v'. now repeat split.
Qed.

Lemma check_referenced_none d t old new :
  check_referenced d t old new = None ->
  forall k x, In k (fks_to t) -> In x (d (fk_child k)) ->
              get (fk_col k) x = get (fk_ref k) old ->
              get (fk_col k) x <> VNull ->
              get (fk_ref k) new = get (fk_ref k) old.
Proof.
  unfold check_referenced. intros H k x Hk Hx E Hnn.
  destruct (find _ (fks_to t)) eqn:F; [discriminate|].
  pose proof (find_none _ _ F k Hk) as Hn. cbn beta in Hn.
  destruct (val_eq_dec (get (fk_ref k) old) (get (fk_ref k) new)) as [Eq|Ne];
    [now symmetry|].
  cbn [negb andb] in Hn.
  assert (Ht : existsb (selects (fk_col k) [get (fk_ref k) old])
                       (d (fk_child k)) = true); [|congruence].
  apply existsb_exists. exists x. split; [assumption|].
  apply selects_true. split; [assumption|]. left. now symmetry.
Qed.

Lemma no_orphans_update d t i c v d' :
  no_orphans d -> update d t i c v = inr d' -> no_orphans d'.
Proof.
  intros Hno Hupd.
  apply update_inv_refs in Hupd.
  destruct Hupd as (col & old & v' & _ & Hold & _ & Hfk & Href & ->).
  apply find_some in Hold. destruct Hold as [Hold Hidold].
  apply has_id_true in Hidold.
  rewrite check_fks_none in Hfk.
  set (new := set c v' old) in *.
  set (rows := map (fun r0 => if has_id i r0 then new else r0) (d t)).
  intros k r1 Hk Hr1 Hnn.
  destruct (model_eq_dec t (fk_child k)) as [Et|Hne].
  - (* a row of the updated table: its parents are where they were *)
    assert (Hpar : t <> fk_parent k)
      by (rewrite Et; now apply fk_not_self).
    rewrite put_table_other by assumption.
    rewrite <- Et, put_table_same in Hr1. subst rows.
    apply in_map_iff in Hr1. destruct Hr1 as (r0 & E & Hr0).
    destruct (has_id i r0).
    + subst r1.
      assert (Hin : In k (foreign_keys_of t))
        by (rewrite Et; now apply in_foreign_keys_of).
      exact (proj1 (fk_satisfied_true d k new) (Hfk k Hin) Hnn).
    + subst r1. apply (Hno k r0 Hk); [now rewrite <- Et|assumption].
  - rewrite put_table_other in Hr1 by assumption.
    destruct (Hno k r1 Hk Hr1 Hnn) as (p & Hp & E).
    destruct (model_eq_dec t (fk_parent k)) as [Ep|Hnp].
    + rewrite <- Ep, put_table_same. rewrite <- Ep in Hp.
      destruct (has_id i p) eqn:Hidp.
      * exists new. split.
        -- subst rows. apply in_map_iff. exists p. now rewrite Hidp.
        -- apply has_id_true in Hidp.
           pose proof (fk_ref_is_id k Hk) as Hid.
           assert (Eold : get (fk_col k) r1 = get (fk_ref k) old)
             by (rewrite <- E, Hid; congruence).
           rewrite (check_referenced_none d t old new Href k r1);
             try assumption; [now symmetry|].
           apply in_fks_to. split; [assumption|now symmetry].
      * exists p. split; [|assumption].
        subst rows. apply in_map_iff. exists p. now rewrite Hidp.
    + rewrite put_table_other by assumption. now exists p.
Qed.

Lemma no_orphans_execute now d s d' :
  no_orphans d -> execute now d s = inr d' -> no_orphans d'.
Proof.
  intros Hno. destruct s as [t obj|t i c v|t i|t i]; cbn [execute].
  - now apply no_orphans_insert.
  - now apply no_orphans_update.
  - unfold ok. intros E. injection E as <-.
    apply (no_orphans_sound_step d); [assumption|apply delete_sound].
  - unfold ok. intros E. injection E as <-.
    apply (no_orphans_sound_step d); [assumption|apply session_delete_sound].
Qed.

Lemma run_invariant (P : db -> Prop) :
  (forall now d s d', P d -> execute now d s = inr d' -> P d') ->
  forall l now d d', P d -> run now d l = inr d' -> P d'.
Proof.
  intros Hstep. induction l as [|s l IH]; intros now d d' Hd Hrun;
    cbn [run] in Hrun.
  - unfold ok in Hrun. now injection Hrun as <-.
  - destruct (execute now d s) as [e|d1] eqn:He; [discriminate|].
    cbn [and_then] in Hrun.
    exact (IH _ d1 d' (Hstep now d s d1 Hd He) Hrun).
Qed.

(** Referential integrity is an invariant of the schema: whatever
    statements run (inserts, updates, deletes on either path), if every
    foreign key that holds a value referenced a stored row before, it does
    so after; so it does in every state reached from the empty database. *)
Theorem foreign_keys_never_dangle (now : Z) (l : list statement) (d d' : db) :
  no_orphans d -> run now d l = inr d' -> no_orphans d'.
Proof. apply run_invariant. exact no_orphans_execute. Qed.

(* ------------------------------------------------------------------ *)
(** * Stored values stay in the domains of their columns *)

Lemma domain_ok_empty : domain_ok empty_db.
Proof. intros t r c []. Qed.

Lemma in_domain_null ty : in_domain ty VNull = true.
Proof. reflexivity. Qed.

Lemma domain_ok_detach d d' :
  domain_ok d -> evolves_by_detach d d' -> domain_ok d'.
Proof.
  intros Hd E t r' c Hr' Hc. destruct (E t r' Hr') as (r & Hr & R).
  destruct (R (col_name c)) as [Eq|[_ Eq]]; rewrite Eq;
    [now apply (Hd t)|apply in_domain_null].
Qed.

Lemma domain_ok_insert now d t obj d' :
  domain_ok d -> insert now d t obj = inr d' -> domain_ok d'.
Proof.
  intros Hd Hins.
  apply insert_inv in Hins. destruct Hins as (r & Hb & _ & _ & ->).
  intros t' r' c Hr' Hc. destruct (model_eq_dec t t') as [<-|Hne].
  - rewrite put_table_same in Hr'. apply in_app_or in Hr'.
    destruct Hr' as [Hr'|[<-|[]]]; [now apply (Hd t)|].
    pose proof (build_row_get now d t obj r c Hb Hc) as H.
    apply store_value_inv in H. apply H.
  - rewrite put_table_other in Hr' by assumption. now apply (Hd t').
Qed.

Lemma domain_ok_update d t i c v d' :
  domain_ok d -> update d t i c v = inr d' -> domain_ok d'.
Proof.
  intros Hd Hupd.
  apply update_inv in Hupd.
  destruct Hupd as (col & old & v' & Hcol & Hold & Hst & _ & ->).
  apply find_some in Hold. destruct Hold as [Hold _].
  apply store_value_inv in Hst. destruct Hst as (_ & Hdom & _).
  intros t' r' c' Hr' Hc'. destruct (model_eq_dec t t') as [<-|Hne].
  - rewrite put_table_same in Hr'. apply in_map_iff in Hr'.
    destruct Hr' as (r0 & E & Hr0). destruct (has_id i r0); subst r'.
    + destruct (string_dec c (col_name c')) as [En|En].
      * rewrite <- En, get_set_same.
        now rewrite (column_of_unique t c col c' Hcol Hc' (eq_sym En)).
      * rewrite get_set_other by assumption. now apply (Hd t).
    + now apply (Hd t).
  - rewrite put_table_other in Hr' by assumption. now apply (Hd t').
Qed.

Lemma domain_ok_execute now d s d' :
  domain_ok d -> execute now d s = inr d' -> domain_ok d'.
Proof.
  intros Hd. destruct s as [t obj|t i c v|t i|t i]; cbn [execute].
  - now apply domain_ok_insert.
  - now apply domain_ok_update.
  - unfold ok. intros E. injection E as <-.
    apply (domain_ok_detach d); [assumption|apply delete_sound].
  - unfold ok. intros E. injection E as <-.
    apply (domain_ok_detach d); [assumption|apply session_delete_sound].
Qed.

Lemma reachable_domain_ok now l d : run now empty_db l = inr d -> domain_ok d.
Proof.
  intros Hrun.
  apply (run_invariant domain_ok domain_ok_execute l now empty_db d);
    [apply domain_ok_empty|assumption].
Qed.













(* ------------------------------------------------------------------ *)
(** * Primary keys *)

Lemma id_column_first t :
  exists c, In c (columns t) /\ col_name c = "id" /\ col_type c = Integer
            /\ primary_key c = true /\ nullable c = false.
Proof. destruct t; eexists; (split; [left; reflexivity|now repeat split]). Qed.

(** In every state reached from the empty database, the primary key of
    every row is an integer and no two rows of a table share it; so the row
    that [load] finds for a key is the only row with that key. *)
Theorem primary_keys_identify (now : Z) (l : list statement) (d : db) :
  run now empty_db l = inr d ->
  forall t,
    NoDup (map (get "id") (d t))
    /\ (forall r, In r (d t) -> exists i, get "id" r = VInt i)
    /\ (forall i r r', find (has_id i) (d t) = Some r ->
                       In r' (d t) -> get "id" r' = VInt i -> r' = r).
Proof.
  intros Hrun t.
  destruct (reachable_integrity now l d Hrun) as [Hu Hn].
  pose proof (reachable_domain_ok now l d Hrun) as Hd.
  assert (Hnd : NoDup (map (get "id") (d t))).
  { apply (NoDup_map_coarser (project ["id"]));
      [|apply Hu, primary_key_is_id].
    intros x y E. unfold project. cbn. congruence. }
  split; [assumption|]. split.
  - intros r Hr. destruct (id_column_first t) as (c & Hc & Hname & Hty & _ & Hnull).
    pose proof (Hd t r c Hr Hc) as Hdom.
    pose proof (Hn t r c Hr Hc Hnull) as Hnn.
    rewrite Hname in Hdom, Hnn. rewrite Hty in Hdom.
    destruct (get "id" r); try discriminate; [congruence|now eexists].
  - intros i r r' Hfind Hr' Hid'.
    apply find_some in Hfind. destruct Hfind as [Hr Hid].
    apply has_id_true in Hid.
    clear -Hnd Hr Hr' Hid Hid'. induction (d t) as [|a rows IH];
      [contradiction|].
    inversion Hnd as [|? ? Ha Hrest]; subst.
    destruct Hr as [->|Hr], Hr' as [->|Hr'].
    + reflexivity.
    + exfalso. apply Ha. rewrite Hid, <- Hid'. now apply in_map.
    + exfalso. apply Ha. rewrite Hid', <- Hid. now apply in_map.
    + now apply IH.
Qed.

(* ------------------------------------------------------------------ *)
(** * What a delete changes in the rows it keeps *)

Lemma detachable_spec t c :
  In c (detachable t) -> t = CardTransaction /\ c = "invoice_id".
Proof.
  destruct t; vm_compute; intros H; try contradiction.
  destruct H as [<-|[]]. now split.
Qed.

(** A delete rewrites nothing but the link of a card transaction to its
    invoice: on both paths, every row stored after the delete was stored
    before it, with every attribute as it was, except that [invoice_id] of
    a card transaction may have been cleared. *)
Theorem delete_rewrites_only_invoice_links (d : db) (t0 : model) (i : Z)
        (t : model) (r' : row) :
  In r' (delete d t0 i t) \/ In r' (session_delete d t0 i t) ->
  exists r,
    In r (d t)
    /\ forall c, get c r' = get c r
                 \/ (t = CardTransaction /\ c = "invoice_id"
                     /\ get c r' = VNull).
Proof.
  intros H.
  assert (Hex : exists r, In r (d t) /\ refines t r r').
  { destruct H as [H|H].
    - exact (proj1 (delete_sound d t0 i) t r' H).
    - exact (proj1 (session_delete_sound d t0 i) t r' H). }
  destruct Hex as (r & Hr & R). exists r. split; [assumption|].
  intros c. destruct (R c) as [E|[Hd E]]; [now left|right].
  destruct (detachable_spec t c Hd) as [-> ->]. now repeat split.
Qed.

(* ------------------------------------------------------------------ *)
(** * Writes against the foreign keys *)

Lemma foreign_keys_of_column t k :
  In k (foreign_keys_of t) ->
  exists c, In c (columns t) /\ col_name c = fk_col k.
Proof.
  unfold foreign_keys_of. intros H. apply in_flat_map in H.
  destruct H as (c & Hc & Hk). exists c. split; [assumption|].
  destruct (foreign_key c) as [f|]; [|contradiction].
  destruct (model_of_table (fk_table f)); [|contradiction].
  destruct Hk as [<-|[]]. reflexivity.
Qed.

Lemma fk_unsatisfied d k r v :
  get (fk_col k) r = VInt v -> fk_ref k = "id" ->
  (forall p, In p (d (fk_parent k)) -> get "id" p <> VInt v) ->
  fk_satisfied d k r = false.
Proof.
  intros G Href Hno. unfold fk_satisfied. rewrite G. apply existsb_none.
  intros p Hp. rewrite Href.
  destruct (val_eq_dec (get "id" p) (VInt v)); [|reflexivity].
  exfalso. now apply (Hno p Hp).
Qed.

Lemma check_fks_some d t r k :
  In k (foreign_keys_of t) -> fk_satisfied d k r = false ->
  exists c, check_fks d t r = Some (ForeignKeyViolation c).
Proof.
  intros Hk Hf. unfold check_fks.
  destruct (find _ (foreign_keys_of t)) as [k'|] eqn:F; [now eexists|].
  pose proof (find_none _ _ F k Hk) as Hn. cbn beta in Hn.
  rewrite Hf in Hn. discriminate.
Qed.

Lemma store_value_plain c v v' :
  store_value c v = inr v' -> (forall m, v <> VEnum m) -> v' = v.
Proof.
  intros H Hplain. apply store_value_inv in H. destruct H as [H _].
  rewrite bind_processor_plain in H by assumption. congruence.
Qed.

(** A reference to a row that is not stored is refused.  For every foreign
    key of every table: an object whose referencing attribute holds a key
    that no row of the referenced table has is not inserted, and when the
    object passes the column checks and the unique keys the error is the
    foreign-key violation; and assigning such a key to the referencing
    attribute of a stored row is refused. *)
Theorem dangling_reference_refused (now : Z) (d : db) (t : model) (k : fkey)
        (v : Z) :
  In k (foreign_keys_of t) ->
  (forall p, In p (d (fk_parent k)) -> get "id" p <> VInt v) ->
  (forall obj, get (fk_col k) obj = VInt v ->
     exists e, insert now d t obj = inl e
               /\ (forall r, build_row now d t obj = inr r ->
                             check_unique t (d t) r = None ->
                             exists c, e = ForeignKeyViolation c))
  /\ (forall i, exists e, update d t i (fk_col k) (VInt v) = inl e).
Proof.
  intros Hk Hno.
  destruct (foreign_keys_of_column t k Hk) as (c & Hc & Hname).
  pose proof (fk_ref_is_id k (proj1 (foreign_keys_of_spec t k Hk))) as Href.
  split.
  - intros obj Hobj. unfold insert.
    destruct (build_row now d t obj) as [e|r] eqn:Hb; cbn [and_then].
    { exists e. split; [reflexivity|]. intros r E. discriminate. }
    assert (Hr : get (fk_col k) r = VInt v).
    { rewrite <- Hname.
      rewrite (build_row_keeps now d t obj r c Hb Hc); rewrite Hname, Hobj;
        [reflexivity|discriminate|discriminate]. }
    destruct (check_unique t (d t) r) as [e|] eqn:Hu.
    { exists e. split; [reflexivity|]. intros r' E Hu'.
      injection E as <-. congruence. }
    destruct (check_fks_some d t r k Hk (fk_unsatisfied d k r v Hr Href Hno))
      as [c' ->].
    exists (ForeignKeyViolation c'). split; [reflexivity|].
    intros _ _ _. now exists c'.
  - intros i. unfold update.
    change (find (fun col => String.eqb (col_name col) (fk_col k)) (columns t))
      with (column_of t (fk_col k)).
    assert (Hcol : column_of t (fk_col k) = Some c)
      by (rewrite <- Hname; now apply column_of_in).
    rewrite Hcol.
    destruct (find (has_id i) (d t)) as [old|]; [|now eexists].
    destruct (store_value c (VInt v)) as [e|v'] eqn:Hst; cbn [and_then];
      [now eexists|].
    rewrite (store_value_plain c _ _ Hst) by discriminate.
    destruct (check_unique t _ _); [now eexists|].
    destruct (check_fks_some d t (set (fk_col k) (VInt v) old) k Hk)
      as [c' ->]; [|now eexists].
    apply (fk_unsatisfied d k _ v); [apply get_set_same|assumption..].
Qed.

Lemma id_column_of t :
  exists c, column_of t "id" = Some c /\ In c (columns t)
            /\ col_type c = Integer /\ primary_key c = true
            /\ nullable c = false.
Proof.
  destruct t; eexists; (split; [reflexivity|]);
    (split; [left; reflexivity|now repeat split]).
Qed.

(** No foreign key declares an action for updates, so a referenced key
    stays as it is: while a row references the row with primary key [i],
    assigning another primary key to that row is refused. *)
Theorem referenced_key_is_frozen (d : db) (t : model) (i j : Z) (k : fkey)
        (x : row) :
  In k (fks_to t) -> In x (d (fk_child k)) -> get (fk_col k) x = VInt i ->
  j <> i ->
  exists e, update d t i "id" (VInt j) = inl e.
Proof.
  intros Hk Hx Hlink Hne.
  destruct (id_column_of t) as (c & Hcol & _).
  unfold update.
  change (find (fun col => String.eqb (col_name col) "id") (columns t))
    with (column_of t "id").
  rewrite Hcol.
  destruct (find (has_id i) (d t)) as [old|] eqn:Hold; [|now eexists].
  apply find_some in Hold. destruct Hold as [_ Hid].
  apply has_id_true in Hid.
  destruct (store_value c (VInt j)) as [e|v'] eqn:Hst; cbn [and_then];
    [now eexists|].
  rewrite (store_value_plain c _ _ Hst) by discriminate.
  destruct (check_unique t _ _); [now eexists|].
  destruct (check_fks d t _); [now eexists|].
  unfold check_referenced.
  destruct (find _ (fks_to t)) as [k'|] eqn:F; [now eexists|].
  exfalso. pose proof (find_none _ _ F k Hk) as Hn. cbn beta in Hn.
  pose proof (proj1 (in_fks_to k t) Hk) as [Hin _].
  rewrite (fk_ref_is_id k Hin), get_set_same, Hid in Hn.
  destruct (val_eq_dec (VInt i) (VInt j)) as [E|_]; [congruence|].
  cbn [negb andb] in Hn.
  assert (Ht : existsb (selects (fk_col k) [VInt i]) (d (fk_child k)) = true);
    [|congruence].
  apply existsb_exists. exists x. split; [assumption|].
  apply selects_true. rewrite Hlink. split; [discriminate|now left].
Qed.

(* ------------------------------------------------------------------ *)
(** * What an insert stores *)

(** The stored form of a value: a member by its name. *)
Lemma bind_processor_stored ty v w :
  bind_processor ty v = Some w ->
  w = stored_form v.
Proof.
  destruct v; cbn; try congruence.
  destruct ty; try discriminate.
  destruct (enum_class_eq_dec (class_of m) cls); congruence.
Qed.

(** An attribute that the object leaves unset is stored as the column
    declares: the next integer for the primary key, the declared constant
    (a member by its name) or the time of the flush for a column with a
    default, NULL otherwise. *)
Theorem unset_attributes_get_defaults (now : Z) (d d' : db) (t : model)
        (obj : row) (c : column) :
  insert now d t obj = inr d' -> In c (columns t) ->
  get (col_name c) obj = VNull ->
  exists r,
    d' t = (d t ++ [r])%list
    /\ get (col_name c) r
       = stored_form (if primary_key c then VInt (next_id (d t))
                      else default_of now c).
Proof.
  intros Hins Hc Hunset.
  apply insert_inv in Hins. destruct Hins as (r & Hb & _ & _ & ->).
  exists r. split; [apply put_table_same|].
  pose proof (build_row_get now d t obj r c Hb Hc) as H.
  rewrite Hunset in H. apply store_value_inv in H. destruct H as [H _].
  apply bind_processor_stored in H. rewrite H. unfold fill, default_of.
  destruct (primary_key c); [reflexivity|].
  destruct (default c) as [[v|]|]; reflexivity.
Qed.


Lemma build_row_id now d t obj r :
  build_row now d t obj = inr r -> get "id" obj = VNull ->
  get "id" r = VInt (next_id (d t)).
Proof.
  intros Hb Hunset. destruct (id_column_of t) as (c & Hcol & Hc & _ & Hpk & _).
  pose proof (column_of_name t "id" c Hcol) as Hname.
  pose proof (build_row_get now d t obj r c Hb Hc) as H.
  rewrite Hname, Hunset in H. cbn [fill] in H. rewrite Hpk in H.
  apply (store_value_plain c _ _ H). discriminate.
Qed.



(* ------------------------------------------------------------------ *)
(** * Tables with no unique key of their own *)

Lemma unique_keys_id_only t :
  t <> CustomerCore -> t <> Card -> t <> AccountBalance ->
  unique_keys t = [["id"]].
Proof. intros H1 H2 H3. destruct t; try reflexivity; congruence. Qed.

(** Uniqueness is declared for the customer's tax id, the card number and
    the balance of an account at a timestamp, and nowhere else: for every
    other table, an object that brings no primary key of its own never
    fails on a unique key, whatever is stored; a second position in the
    same instrument, a second contact, a second consent are accepted. *)
Theorem no_other_unique_key (now : Z) (d : db) (t : model) (obj : row) :
  t <> CustomerCore -> t <> Card -> t <> AccountBalance ->
  get "id" obj = VNull ->
  forall key, insert now d t obj <> inl (UniqueViolation key).
Proof.
  intros H1 H2 H3 Hunset key. unfold insert.
  destruct (build_row now d t obj) as [e|r] eqn:Hb; cbn [and_then].
  - intros E. injection E as ->.
    unfold build_row in Hb. revert Hb. generalize (next_id (d t)).
    intros nid. generalize (columns t). intros cs. revert key.
    induction cs as [|c cs IH]; intros key; cbn [mapM]; [discriminate|].
    unfold store_column at 1. unfold store_value.
    destruct (bind_processor _ _); cbn [and_then fail ok];
      [|discriminate].
    destruct (negb (in_domain _ _)); cbn [and_then]; [discriminate|].
    destruct (negb (width_ok _ _)); cbn [and_then]; [discriminate|].
    destruct (negb (nullable c) && _); cbn [and_then]; [discriminate|].
    destruct (mapM _ cs) as [e'|rs] eqn:M; cbn [and_then]; [|discriminate].
    intros E. injection E as ->. now apply (IH key).
  - unfold check_unique. rewrite (unique_keys_id_only t H1 H2 H3).
    cbn [find].
    rewrite (fresh_id_no_collision (d t) r
               (build_row_id now d t obj r Hb Hunset)).
    cbn [option_map]. destruct (check_fks d t r) as [e|] eqn:Hf.
    + unfold check_fks in Hf.
      destruct (find _ (foreign_keys_of t)); [|discriminate].
      cbn in Hf. injection Hf as <-. discriminate.
    + discriminate.
Qed.

(* ------------------------------------------------------------------ *)
(** * Required attributes *)

(** Every column declared [nullable=False] holds a value, in every table:
    an insert that leaves it unset is refused, unless the column is the
    primary key or has a default; assigning None to it is refused; and in
    every state reached from the empty database it holds a value in every
    row. *)
Theorem required_attributes (now : Z) (d : db) (t : model) (c : column) :
  In c (columns t) -> nullable c = false ->
  (primary_key c = false -> default c = None ->
   forall obj, get (col_name c) obj = VNull ->
               exists e, insert now d t obj = inl e)
  /\ (forall i, update d t i (col_name c) VNull = inl NoSuchRow
                \/ update d t i (col_name c) VNull
                   = inl (NotNullViolation (col_name c)))
  /\ (forall start l d', run start empty_db l = inr d' ->
                         forall r, In r (d' t) -> get (col_name c) r <> VNull).
Proof.
  intros Hc Hnull. split; [|split].
  - intros Hpk Hdef obj Hunset.
    now apply (insert_requires now d t c obj).
  - intros i. unfold update.
    change (find (fun col => String.eqb (col_name col) (col_name c))
                 (columns t))
      with (column_of t (col_name c)).
    rewrite (column_of_in t c Hc).
    destruct (find (has_id i) (d t)); [right|now left].
    unfold store_value. cbn [bind_processor in_domain negb].
    rewrite Hnull. cbn [negb andb].
    now destruct (val_eq_dec VNull VNull).
  - intros start l d' Hrun r Hr.
    destruct (reachable_integrity start l d' Hrun) as [_ Hn].
    now apply (Hn t r c).
Qed.

(* ------------------------------------------------------------------ *)
(** * Unique keys on update *)

(** The unique keys hold against assignments as they do against inserts:
    assigning a value that makes the row agree with another stored row on
    every column of a unique key (the tax id of another customer, the
    number of another card, the account and timestamp of another balance)
    is refused. *)
Theorem update_rejects_duplicate (d : db) (t : model) (i : Z) (c : string)
        (v : val) (key : list string) (old r0 : row) :
  In key (unique_keys t) ->
  find (has_id i) (d t) = Some old ->
  In r0 (d t) -> get "id" r0 <> VInt i ->
  (forall m, v <> VEnum m) ->
  (forall c', In c' key ->
              get c' (set c v old) = get c' r0 /\ get c' r0 <> VNull) ->
  exists e, update d t i c v = inl e.
Proof.
  intros Hkey Hold Hr0 Hid Hplain Hsame. unfold update.
  destruct (find (fun col => String.eqb (col_name col) c) (columns t))
    as [col|]; [|now eexists].
  rewrite Hold.
  destruct (store_value col v) as [e|v'] eqn:Hst; cbn [and_then];
    [now eexists|].
  rewrite (store_value_plain col _ _ Hst Hplain).
  assert (Hcol : collides key (set c v old) r0 = true).
  { apply collides_true. intros c' Hc'.
    destruct (Hsame c' Hc') as [E Hnn]. split; congruence. }
  assert (Hin : In r0 (filter (fun x => negb (has_id i x)) (d t))).
  { apply filter_In. split; [assumption|].
    destruct (has_id i r0) eqn:E; [|reflexivity].
    apply has_id_true in E. contradiction. }
  destruct (check_unique_some t _ (set c v old) key r0 Hkey Hin Hcol)
    as [key' ->].
  now eexists.
Qed.

(* ------------------------------------------------------------------ *)
(** * The cascade of the relationships *)

Lemma cascade_iterator_reaches d f t r rel k x :
  In rel (relationships t) -> delete_cascade rel = true ->
  rel_fkey t rel = Some k ->
  In x (d (fk_child k)) -> get (fk_col k) x = get (fk_ref k) r ->
  get (fk_col k) x <> VNull ->
  In (rel_argument rel, x) (cascade_iterator (S (S f)) d t r).
Proof.
  intros Hrel Hc Hk Hx Hlink Hnn.
  change (cascade_iterator (S (S f)) d t r)
    with ((t, r) ::
          flat_map
            (fun rel =>
               if delete_cascade rel then
                 match rel_fkey t rel with
                 | Some k =>
                   flat_map (cascade_iterator (S f) d (rel_argument rel))
                            (filter (selects (fk_col k) [get (fk_ref k) r])
                                    (d (fk_child k)))
                 | None => []
                 end
               else [])
            (relationships t)).
  right. apply in_flat_map. exists rel. split; [assumption|].
  rewrite Hc, Hk. apply in_flat_map. exists x. split.
  - apply filter_In. split; [assumption|]. apply selects_true.
    split; [assumption|now left].
  - destruct (cascade_iterator_head f d (rel_argument rel) x) as [rest ->].
    now left.
Qed.

(** Every relationship declared with [cascade="all, delete-orphan"]
    deletes through the ORM, whatever the foreign key under it declares:
    when the parent object is deleted with [session.delete], every row that
    the relationship links to it is deleted too. *)
Theorem orm_cascade_deletes_children (d : db) (t : model) (i : Z) (r : row)
        (rel : relationship) (k : fkey) (x : row) :
  In r (d t) -> get "id" r = VInt i ->
  In rel (relationships t) -> delete_cascade rel = true ->
  rel_fkey t rel = Some k ->
  In x (d (fk_child k)) -> get (fk_col k) x = VInt i -> get "id" x <> VNull ->
  forall y, In y (session_delete d t i (fk_child k)) ->
            get "id" y <> get "id" x.
Proof.
  intros Hr Hid Hrel Hc Hk Hx Hlink Hnn y. unfold session_delete.
  apply flush_deletes_removes; [|assumption].
  apply in_flat_map. exists r. split.
  - apply filter_In. split; [assumption|]. apply selects_true.
    rewrite Hid. split; [discriminate|now left].
  - destruct (rel_fkey_spec t rel k Hk) as (Hin & _ & ->).
    change (List.length all_models) with (S (S 18)).
    apply (cascade_iterator_reaches d 18 t r rel k x); try assumption.
    + rewrite (fk_ref_is_id k Hin), Hid. assumption.
    + rewrite Hlink. discriminate.
Qed.

Lemma delete_cascade_targets t rel :
  In rel (relationships t) -> delete_cascade rel = true ->
  ~ In (rel_argument rel)
       [PositionFixedIncome; PositionEquity; PositionTreasury;
        InvestmentMovement].
Proof.
  assert (H : forallb (fun t =>
                forallb (fun rel =>
                  negb (delete_cascade rel)
                  || (if in_dec model_eq_dec (rel_argument rel)
                                [PositionFixedIncome; PositionEquity;
                                 PositionTreasury; InvestmentMovement]
                      then false else true)) (relationships t)) all_models
              = true) by (vm_compute; reflexivity).
  intros Hrel Hc. rewrite forallb_forall in H.
  specialize (H t (all_models_complete t)). rewrite forallb_forall in H.
  specialize (H rel Hrel). rewrite Hc in H. cbn [negb orb] in H.
  now destruct (in_dec model_eq_dec (rel_argument rel) _).
Qed.

(** The relationships never lead to the fixed-income, equity and treasury
    positions or to the investment movements: whatever object is deleted
    through the ORM, the unit of work collects no object of those four
    classes, the object itself apart.  Their rows go with the customer only
    by the foreign keys' [ON DELETE CASCADE]. *)
Theorem orm_cascade_skips_investments (fuel : nat) (d : db) (t t' : model)
        (r r' : row) :
  t' <> t ->
  In t' [PositionFixedIncome; PositionEquity; PositionTreasury;
         InvestmentMovement] ->
  ~ In (t', r') (cascade_iterator fuel d t r).
Proof.
  intros Hne Hfour. revert t r Hne.
  induction fuel as [|fuel IH]; intros t r Hne Hin; [contradiction|].
  cbn [cascade_iterator] in Hin. destruct Hin as [E|Hin]; [congruence|].
  apply in_flat_map in Hin. destruct Hin as (rel & Hrel & Hin).
  destruct (delete_cascade rel) eqn:Hc; [|contradiction].
  destruct (rel_fkey t rel) as [k|]; [|contradiction].
  apply in_flat_map in Hin. destruct Hin as (x & _ & Hin).
  apply (IH (rel_argument rel) x); [|assumption].
  intros E. apply (delete_cascade_targets t rel Hrel Hc). now rewrite <- E.
Qed.

(* ------------------------------------------------------------------ *)
(** * Reading an enumerated column *)

(** A stored string reads back as a member exactly when it is the name of
    a member of the column's class, and then as that member.  Any other
    string cannot be read: the row that holds it does not load.  The
    lowercase values of the members are such strings: none is a name of its
    class. *)
Theorem enum_decoding (e : enum_class) (s : string) :
  (forall m, result_processor (Enum e) (VStr s) = Some (VEnum m)
             <-> class_of m = e /\ member_name m = s)
  /\ (~ In s (enum_names e) ->
      result_processor (Enum e) (VStr s) = None
      /\ forall t c r, In c (columns t) -> col_type c = Enum e ->
                       get (col_name c) r = VStr s -> load_row t r = None)
  /\ (forall m, class_of m = e -> ~ In (member_value m) (enum_names e)).
Proof.
  split; [|split].
  - intros m. rewrite <- enum_lookup_some. cbn [result_processor].
    destruct (enum_lookup e s) as [m'|]; cbn [option_map];
      split; intros H; congruence.
  - intros Hout.
    assert (Hnone : result_processor (Enum e) (VStr s) = None).
    { cbn [result_processor]. now rewrite (enum_lookup_none e s Hout). }
    split; [assumption|]. intros t c r Hc Hty Hget.
    apply (load_row_fails t r c Hc). now rewrite Hty, Hget.
  - intros m <-.
    destruct m as [x|x|x|x|x|x]; destruct x; vm_compute;
      intuition discriminate.
Qed.

(* ------------------------------------------------------------------ *)
(** * The schema is well formed *)

(** Every [ForeignKey] of the schema resolves: it names the table of
    another mapped class and its primary key [id], of the type of the
    referencing column; the referencing column is no primary key and has no
    default; it is NOT NULL when the action is [CASCADE] and nullable when
    it is [SET NULL]; and the foreign key is among the resolved ones. *)
Theorem foreign_keys_resolve (t : model) (c : column) (f : ForeignKey) :
  In c (columns t) -> foreign_key c = Some f ->
  exists p pk,
    model_of_table (fk_table f) = Some p /\ p <> t
    /\ fk_column f = "id" /\ column_of p "id" = Some pk
    /\ primary_key pk = true /\ col_type pk = col_type c
    /\ primary_key c = false /\ default c = None
    /\ nullable c = match ondelete f with
                    | SET_NULL => true
                    | CASCADE => false
                    end
    /\ In {| fk_child := t; fk_col := col_name c; fk_parent := p;
             fk_ref := fk_column f; fk_action := ondelete f |}
          (foreign_keys_of t).
Proof.
  intros Hc Hf.
  destruct t; cbn [columns] in Hc;
    repeat (destruct Hc as [<-|Hc];
            [first [discriminate Hf
                   |inversion Hf; subst f; eexists; eexists;
                    repeat (split; [first [reflexivity|discriminate]|]);
                    vm_compute; tauto]|]);
    destruct Hc.
Qed.

Lemma NoDup_by_nodup {A} (dec : forall x y : A, {x = y} + {x <> y}) l :
  nodup dec l = l -> NoDup l.
Proof. intros <-. apply NoDup_nodup. Qed.

(** Every mapped class has a table name of its own, so a table name
    resolves to its class; and every table has exactly one primary-key
    column, the integer [id]. *)
Theorem tables_well_named (t : model) :
  NoDup (map tablename all_models)
  /\ model_of_table (tablename t) = Some t
  /\ map col_name (filter primary_key (columns t)) = ["id"]
  /\ NoDup (map col_name (columns t)).
Proof.
  split; [|split; [|split]].
  - apply (NoDup_by_nodup string_dec). vm_compute. reflexivity.
  - destruct t; reflexivity.
  - destruct t; reflexivity.
  - apply column_names_distinct.
Qed.

(** The relationships are consistent with one another and with the
    foreign keys: a relationship that names a [back_populates] finds, on
    the target class, the relationship of that name, which points back at
    it; every relationship joins two classes that a foreign key links, on
    one side or the other; and every relationship that cascades deletion
    has its join, the foreign key of the target to the owner. *)
Theorem relationships_pair_up (t : model) (rel : relationship) :
  In rel (relationships t) ->
  (forall b, back_populates rel = Some b ->
             exists rel', In rel' (relationships (rel_argument rel))
                          /\ rel_key rel' = b /\ rel_argument rel' = t
                          /\ back_populates rel' = Some (rel_key rel))
  /\ (exists k, In k foreign_keys
                /\ ((fk_child k = t /\ fk_parent k = rel_argument rel)
                    \/ (fk_child k = rel_argument rel /\ fk_parent k = t)))
  /\ (delete_cascade rel = true ->
      exists k, rel_fkey t rel = Some k /\ fk_child k = rel_argument rel
                /\ fk_parent k = t).
Proof.
  intros Hrel.
  assert (H : forallb (fun t =>
                forallb (fun rel =>
                  match back_populates rel with
                  | None => true
                  | Some b =>
                    existsb (fun rel' =>
                      String.eqb (rel_key rel') b
                      && (if model_eq_dec (rel_argument rel') t
                          then true else false)
                      && match back_populates rel' with
                         | Some b' => String.eqb b' (rel_key rel)
                         | None => false
                         end) (relationships (rel_argument rel))
                  end
                  && existsb (fun k =>
                       (if model_eq_dec (fk_child k) t then true else false)
                       && (if model_eq_dec (fk_parent k) (rel_argument rel)
                           then true else false)
                       || (if model_eq_dec (fk_child k) (rel_argument rel)
                           then true else false)
                          && (if model_eq_dec (fk_parent k) t
                              then true else false)) foreign_keys
                  && (negb (delete_cascade rel)
                      || match rel_fkey t rel with
                         | Some _ => true
                         | None => false
                         end)) (relationships t)) all_models = true)
    by (vm_compute; reflexivity).
  rewrite forallb_forall in H.
  specialize (H t (all_models_complete t)). rewrite forallb_forall in H.
  specialize (H rel Hrel). apply andb_true_iff in H. destruct H as [H H3].
  apply andb_true_iff in H. destruct H as [H1 H2].
  split; [|split].
  - intros b Hb. rewrite Hb in H1. apply existsb_exists in H1.
    destruct H1 as (rel' & Hin & Hc). apply andb_true_iff in Hc.
    destruct Hc as [Hc Hback]. apply andb_true_iff in Hc.
    destruct Hc as [Hkey Harg]. apply String.eqb_eq in Hkey.
    destruct (model_eq_dec (rel_argument rel') t); [|discriminate].
    destruct (back_populates rel') as [b'|] eqn:Hbp; [|discriminate].
    apply String.eqb_eq in Hback. exists rel'. subst b'. now repeat split.
  - apply existsb_exists in H2. destruct H2 as (k & Hk & Hc).
    exists k. split; [assumption|]. apply orb_true_iff in Hc.
    destruct Hc as [Hc|Hc]; apply andb_true_iff in Hc; destruct Hc as [Ha Hb].
    + left. destruct (model_eq_dec (fk_child k) t); [|discriminate].
      destruct (model_eq_dec (fk_parent k) (rel_argument rel));
        [now split|discriminate].
    + right. destruct (model_eq_dec (fk_child k) (rel_argument rel));
        [|discriminate].
      destruct (model_eq_dec (fk_parent k) t); [now split|discriminate].
  - intros Hc. rewrite Hc in H3. cbn [negb orb] in H3.
    destruct (rel_fkey t rel) as [k|] eqn:Hk; [|discriminate].
    exists k. destruct (rel_fkey_spec t rel k Hk) as (_ & Hp & Hch).
    now repeat split.
Qed.

(* ------------------------------------------------------------------ *)
(** * The package *)

(** The package re-exports the declarative base and the twenty mapped
    classes, each once: [__all__] lists what is imported, in the order of
    the classes in the module; every name it lists is bound by the module;
    the enumeration classes are not exported. *)
Theorem package_exports :
  package_all = package_imports
  /\ package_all = "Base" :: map classname all_models
  /\ NoDup package_all
  /\ (forall n, In n package_all -> In n module_names)
  /\ (forall e, In (enum_classname e) module_names
                /\ ~ In (enum_classname e) package_all).
Proof.
  split; [reflexivity|]. split; [reflexivity|]. split; [|split].
  - apply (NoDup_by_nodup string_dec). vm_compute. reflexivity.
  - intros n Hn. unfold module_names.
    change package_all with ("Base" :: map classname all_models) in Hn.
    destruct Hn as [<-|Hn]; [now left|]. right. apply in_or_app. now right.
  - intros e. split.
    + unfold module_names. right. apply in_or_app. left.
      apply in_map. destruct e; simpl; tauto.
    + destruct e; vm_compute; intuition discriminate.
Qed.

(* ------------------------------------------------------------------ *)
(** * The theorems at work on [sample_db] *)

Ltac in_list := vm_compute; repeat (first [left; reflexivity | right]).

(** What deleting customer 1 leaves of [sample_db]: customer 2 and its
    equity position, nothing else, on both paths. *)
Example delete_customer_sample :
  let rest d := map (fun t => (t, List.length (d t)))
                    (filter (fun t => negb (Nat.eqb (List.length (d t)) 0))
                            all_models) in
  rest sample_db
  = [ (CustomerCore, 2); (Account, 1); (AccountBalance, 1); (Card, 1);
      (CardInvoice, 1); (CardTransaction, 2); (CreditContract, 1);
      (CreditSchedule, 1); (PositionFixedIncome, 1); (PositionEquity, 1);
      (PaymentOrder, 1) ]%nat
  /\ rest (delete sample_db CustomerCore 1)
     = [ (CustomerCore, 1); (PositionEquity, 1) ]%nat
  /\ rest (session_delete sample_db CustomerCore 1)
     = [ (CustomerCore, 1); (PositionEquity, 1) ]%nat.
Proof. vm_compute. repeat split. Qed.

(** The stored balance of [sample_db] belongs to customer 1 through its
    account. *)
Example sample_balance_owned :
  owned sample_db 1 AccountBalance (balance_row 1 1 100000 20240101).
Proof.
  apply (owned_child sample_db 1
           {| fk_child := AccountBalance; fk_col := "account_id";
              fk_parent := Account; fk_ref := "id"; fk_action := CASCADE |}
           _ (hd [] (sample_db Account))).
  - in_list.
  - reflexivity.
  - in_list.
  - vm_compute. reflexivity.
  - vm_compute. discriminate.
  - apply (owned_child sample_db 1
             {| fk_child := Account; fk_col := "customer_id";
                fk_parent := CustomerCore; fk_ref := "id";
                fk_action := CASCADE |} _ customer_1).
    + in_list.
    + reflexivity.
    + in_list.
    + vm_compute. reflexivity.
    + vm_compute. discriminate.
    + now apply owned_root.
Qed.

(** In [sample_db] the owner of the stored balance, of both card
    transactions and of the fixed-income position is customer 1. *)
Example sample_owners :
  map (owner sample_db AccountBalance) (sample_db AccountBalance) = [Some 1]
  /\ map (owner sample_db CardTransaction) (sample_db CardTransaction)
     = [Some 1; Some 1]
  /\ map (owner sample_db PositionFixedIncome)
         (sample_db PositionFixedIncome) = [Some 1]
  /\ map (owner sample_db PositionEquity) (sample_db PositionEquity)
     = [Some 2].
Proof. vm_compute. repeat split. Qed.

(** The relationships of [CustomerCore] reach neither the fixed-income,
    equity and treasury positions nor the investment movements: the unit of
    work collects no object of those classes, and it is the foreign keys'
    [ON DELETE CASCADE], run by the DELETE of the customer row, that removes
    their rows. *)
Example orm_cascade_reach :
  map fst (cascade_iterator (List.length all_models) sample_db CustomerCore
                            customer_1)
  = [ CustomerCore; Account; AccountBalance; Card; CardInvoice;
      CardTransaction; CardTransaction; CardTransaction; CreditContract;
      CreditSchedule; PaymentOrder ]
  /\ map (rel_argument) (filter delete_cascade (relationships CustomerCore))
     = [ CustomerContact; Account; Card; CreditContract; PositionFund;
         FxOperation; Consent; PaymentOrder ].
Proof. vm_compute. repeat split. Qed.

Lemma C1_witness :
  In customer_1 (sample_db CustomerCore) /\ get "id" customer_1 = VInt 1
  /\ (forall t r, In r (delete sample_db CustomerCore 1 t) ->
                  ~ owned sample_db 1 t r)
  /\ (forall t r, In r (session_delete sample_db CustomerCore 1 t) ->
                  ~ owned sample_db 1 t r).
Proof.
  assert (H : In customer_1 (sample_db CustomerCore))
    by in_list.
  split; [exact H|]. split; [reflexivity|]. split.
  - exact (proj1 (proj2 (C1_cascade_completeness sample_db 1 customer_1 H
                           eq_refl _ (or_introl eq_refl)))).
  - exact (proj1 (proj2 (C1_cascade_completeness sample_db 1 customer_1 H
                           eq_refl _ (or_intror eq_refl)))).
Defined.

Lemma C3_witness :
  find (has_id 1) (sample_db PaymentOrder) = Some order_1
  /\ In customer_1 (sample_db CustomerCore)
  /\ get "id" customer_1 = get "customer_id" order_1
  /\ get "status" order_1 = VStr (name COMPLETED)
  /\ update sample_db PaymentOrder 1 "status" (VEnum (mPaymentStatus FAILED))
     = inr (put_table sample_db PaymentOrder
              (map (fun r0 => if has_id 1 r0
                              then set "status" (VStr (name FAILED)) order_1
                              else r0)
                   (sample_db PaymentOrder))).
Proof.
  assert (H1 : find (has_id 1) (sample_db PaymentOrder) = Some order_1)
    by (vm_compute; reflexivity).
  assert (H2 : In customer_1 (sample_db CustomerCore))
    by in_list.
  split; [exact H1|]. split; [exact H2|]. split; [reflexivity|].
  split; [reflexivity|].
  exact (proj1 (C3_status_update_unguarded sample_db 1 order_1 customer_1
                  FAILED H1 H2 eq_refl)).
Defined.

Lemma C4_witness :
  numeric_fits 18 100000 = true
  /\ insert 20240301 sample_db AccountBalance
            (new_balance 1 100000 20240101)
     = inl (UniqueViolation ["account_id"; "as_of"])
  /\ insert 20240301 sample_db AccountBalance
            (new_balance 1 100000 20240102)
     = inr (put_table sample_db AccountBalance
              (sample_db AccountBalance
               ++ [balance_row (next_id (sample_db AccountBalance))
                               1 100000 20240102])).
Proof.
  assert (Hfit : numeric_fits 18 100000 = true) by reflexivity.
  split; [exact Hfit|]. split.
  - apply (proj1 (C4_balance_unique_per_timestamp 20240301 sample_db
                    1 100000 20240101 Hfit)).
    exists (balance_row 1 1 100000 20240101).
    split; [in_list|vm_compute; reflexivity].
  - apply (proj1 (proj2 (C4_balance_unique_per_timestamp 20240301 sample_db
                           1 100000 20240102 Hfit))).
    + intros r0 Hr0.
      assert (E : r0 = balance_row 1 1 100000 20240101).
      { vm_compute in Hr0. destruct Hr0 as [<-|[]]. reflexivity. }
      subst r0. discriminate.
    + exists (hd [] (sample_db Account)).
      split; [in_list|vm_compute; reflexivity].
Defined.

Lemma C5_witness :
  In customer_1 (sample_db CustomerCore)
  /\ get "tax_id" customer_1 = VStr "123.456.789-00"
  /\ string_fits 32 "123.456.789-00" = true
  /\ insert 20240301 sample_db CustomerCore (new_customer "123.456.789-00")
     = inl (UniqueViolation ["tax_id"])
  /\ commit sample_db
            (insert 20240301 sample_db CustomerCore
                    (new_customer "123.456.789-00"))
     = sample_db.
Proof.
  assert (H : In customer_1 (sample_db CustomerCore)) by in_list.
  destruct (proj1 (C5_tax_id_and_card_number_unique 20240301 sample_db)
                  customer_1 "123.456.789-00" H eq_refl) as [Hany Hnew].
  split; [exact H|]. split; [reflexivity|]. split; [reflexivity|].
  split; [exact (Hnew eq_refl)|].
  exact (proj2 (Hany (new_customer "123.456.789-00") eq_refl)).
Defined.


Lemma C7_witness :
  let obj := [ ("customer_id", VInt 2);
               ("account_type", VEnum (mAccountType SAVINGS)) ] in
  let d' := commit sample_db (insert 20240301 sample_db Account obj) in
  In account_type_column (columns Account)
  /\ insert 20240301 sample_db Account obj = inr d'
  /\ exists r o,
       d' Account = (sample_db Account ++ [r])%list
       /\ get "account_type" r = VStr "SAVINGS"
       /\ load_row Account r = Some o
       /\ get "account_type" o = VEnum (mAccountType SAVINGS).
Proof.
  intros obj d'.
  assert (Hc : In account_type_column (columns Account))
    by in_list.
  assert (Hins : insert 20240301 sample_db Account obj = inr d')
    by (vm_compute; reflexivity).
  split; [exact Hc|]. split; [exact Hins|].
  exact (proj2 (proj2 (proj2 (C7_enum_round_trip (mAccountType SAVINGS))))
               20240301 sample_db Account account_type_column obj d'
               Hc eq_refl eq_refl Hins).
Defined.


Lemma C9_witness :
  In fx_rate_column (columns FxOperation)
  /\ exists k, kind_of "rate" = Some k
               /\ declared_scale FxOperation "rate" = Some 6%nat
               /\ (6%nat = spec_scale k
                   \/ (FxOperation = FxOperation /\ "rate" = "rate"
                       /\ 6%nat = 6%nat)).
Proof.
  assert (Hc : In fx_rate_column (columns FxOperation)) by in_list.
  split; [exact Hc|].
  exact (proj1 (C9_numeric_scales FxOperation fx_rate_column Hc)
               10%nat 6%nat eq_refl).
Defined.

Lemma C10_witness :
  numeric_fits 18 990 = true /\ exists_row sample_db Card 1
  /\ insert 20240301 sample_db CardTransaction
            (new_card_transaction 1 990 VNull (VDate 19800))
     = inl (NotNullViolation "transaction_date")
  /\ insert 20240301 sample_db CardTransaction
            (new_card_transaction 1 990 (VDate 19800) VNull)
     = inr (put_table sample_db CardTransaction
              (sample_db CardTransaction
               ++ [card_transaction_row
                     (next_id (sample_db CardTransaction)) 1 990
                     (VDate 19800) VNull 20240301])).
Proof.
  assert (Hfit : numeric_fits 18 990 = true) by reflexivity.
  assert (Hk : exists_row sample_db Card 1).
  { exists (hd [] (sample_db Card)).
    split; [in_list|vm_compute; reflexivity]. }
  pose proof (C10_required_dates 20240301 sample_db 1 990 19800 Hfit)
    as (_ & Hreq & Hopt & _).
  split; [exact Hfit|]. split; [exact Hk|]. split; [exact Hreq|].
  exact (Hopt Hk).
Defined.

(* ------------------------------------------------------------------ *)
(** * The further theorems at work on [sample_db] *)

Lemma sample_db_reached :
  run 20240101 empty_db sample_script = inr sample_db.
Proof. vm_compute. reflexivity. Qed.

(** Deleting account 1 of [sample_db] deletes its balance, on both
    paths. *)
Lemma delete_removes_descendants_witness :
  In (hd [] (sample_db Account)) (sample_db Account)
  /\ get "id" (hd [] (sample_db Account)) = VInt 1
  /\ descends sample_db Account 1 AccountBalance
              (balance_row 1 1 100000 20240101)
  /\ ~ In (balance_row 1 1 100000 20240101)
          (delete sample_db Account 1 AccountBalance)
  /\ ~ In (balance_row 1 1 100000 20240101)
          (session_delete sample_db Account 1 AccountBalance).
Proof.
  assert (Hin : In (hd [] (sample_db Account)) (sample_db Account))
    by in_list.
  assert (Hid : get "id" (hd [] (sample_db Account)) = VInt 1)
    by (vm_compute; reflexivity).
  assert (Hdesc : descends sample_db Account 1 AccountBalance
                           (balance_row 1 1 100000 20240101)).
  { apply (descends_child sample_db Account 1 balance_account_fk
                          _ (hd [] (sample_db Account))).
    - in_list.
    - reflexivity.
    - exact Hin.
    - vm_compute. reflexivity.
    - vm_compute. discriminate.
    - apply descends_self. exact Hid. }
  split; [exact Hin|]. split; [exact Hid|]. split; [exact Hdesc|]. split.
  - exact (delete_removes_descendants sample_db Account 1 _ Hin Hid
             _ (or_introl eq_refl) AccountBalance _ _ Hdesc
             (agree_refl _ _)).
  - exact (delete_removes_descendants sample_db Account 1 _ Hin Hid
             _ (or_intror eq_refl) AccountBalance _ _ Hdesc
             (agree_refl _ _)).
Defined.

(** Deleting account 1 of [sample_db] keeps the card. *)
Lemma delete_spares_the_rest_witness :
  In (hd [] (sample_db Card)) (sample_db Card)
  /\ ~ descends sample_db Account 1 Card (hd [] (sample_db Card))
  /\ exists r', In r' (delete sample_db Account 1 Card)
                /\ agree Card (hd [] (sample_db Card)) r'.
Proof.
  assert (Hin : In (hd [] (sample_db Card)) (sample_db Card)) by in_list.
  assert (Hnot : ~ descends sample_db Account 1 Card
                            (hd [] (sample_db Card))).
  { intros H. apply descends_below in H. destruct H as [H|H];
      [discriminate|]. vm_compute in H. lia. }
  split; [exact Hin|]. split; [exact Hnot|].
  exact (delete_spares_the_rest sample_db Account 1 Card _ Hin Hnot).
Defined.

(** [sample_db] has no account 5: deleting it changes no balance. *)
Lemma delete_missing_is_noop_witness :
  (forall r, In r (sample_db Account) -> get "id" r <> VInt 5)
  /\ delete sample_db Account 5 AccountBalance = sample_db AccountBalance
  /\ session_delete sample_db Account 5 AccountBalance
     = sample_db AccountBalance.
Proof.
  assert (H : forall r, In r (sample_db Account) -> get "id" r <> VInt 5).
  { intros r Hr. vm_compute in Hr. destruct Hr as [<-|[]]. discriminate. }
  split; [exact H|].
  exact (delete_missing_is_noop sample_db Account 5 H AccountBalance).
Defined.

Lemma four_levels_suffice_witness :
  (4 <= 4)%nat
  /\ forall t c vs d t',
       db_delete 4 t c vs d t'
       = db_delete (List.length all_models) t c vs d t'.
Proof.
  split; [apply le_n|].
  exact (proj1 (four_levels_suffice 4 (le_n 4))).
Defined.

(** No foreign key of [sample_db] dangles. *)
Lemma foreign_keys_never_dangle_witness :
  no_orphans empty_db
  /\ run 20240101 empty_db sample_script = inr sample_db
  /\ no_orphans sample_db.
Proof.
  split; [exact no_orphans_empty|]. split; [exact sample_db_reached|].
  exact (foreign_keys_never_dangle 20240101 sample_script empty_db sample_db
           no_orphans_empty sample_db_reached).
Defined.


Lemma primary_keys_identify_witness :
  run 20240101 empty_db sample_script = inr sample_db
  /\ NoDup (map (get "id") (sample_db CardTransaction))
  /\ forall r, In r (sample_db CardTransaction) ->
               exists i, get "id" r = VInt i.
Proof.
  split; [exact sample_db_reached|].
  pose proof (primary_keys_identify 20240101 sample_script sample_db
                sample_db_reached CardTransaction) as (H1 & H2 & _).
  split; [exact H1|exact H2].
Defined.

(** [sample_db] has no customer 9: an account for customer 9 is refused,
    and so is moving account 1 to customer 9. *)
Lemma dangling_reference_refused_witness :
  In account_customer_fk (foreign_keys_of Account)
  /\ (forall p, In p (sample_db CustomerCore) -> get "id" p <> VInt 9)
  /\ (exists e, insert 20240301 sample_db Account (new_account 9 CHECKING)
                = inl e)
  /\ (exists e, update sample_db Account 1 "customer_id" (VInt 9) = inl e).
Proof.
  assert (Hk : In account_customer_fk (foreign_keys_of Account)) by in_list.
  assert (Hno : forall p, In p (sample_db CustomerCore) ->
                          get "id" p <> VInt 9).
  { intros p Hp. vm_compute in Hp.
    destruct Hp as [<-|[<-|[]]]; discriminate. }
  pose proof (dangling_reference_refused 20240301 sample_db Account
                account_customer_fk 9 Hk Hno) as [Hins Hupd].
  split; [exact Hk|]. split; [exact Hno|]. split.
  - destruct (Hins (new_account 9 CHECKING) eq_refl) as (e & He & _).
    exists e. exact He.
  - exact (Hupd 1).
Defined.

(** Account 1 of [sample_db] references customer 1: the customer cannot be
    given another primary key. *)
Lemma referenced_key_is_frozen_witness :
  In account_customer_fk (fks_to CustomerCore)
  /\ In (hd [] (sample_db Account)) (sample_db Account)
  /\ get "customer_id" (hd [] (sample_db Account)) = VInt 1
  /\ exists e, update sample_db CustomerCore 1 "id" (VInt 7) = inl e.
Proof.
  assert (Hk : In account_customer_fk (fks_to CustomerCore)) by in_list.
  assert (Hx : In (hd [] (sample_db Account)) (sample_db Account))
    by in_list.
  assert (Hl : get "customer_id" (hd [] (sample_db Account)) = VInt 1)
    by (vm_compute; reflexivity).
  assert (Hne : 7 <> 1) by discriminate.
  split; [exact Hk|]. split; [exact Hx|]. split; [exact Hl|].
  exact (referenced_key_is_frozen sample_db CustomerCore 1 7
           account_customer_fk _ Hk Hx Hl Hne).
Defined.

(** A payment order added without a status is stored PENDING. *)
Lemma unset_attributes_get_defaults_witness :
  insert 20240301 sample_db PaymentOrder (new_payment_order 1 500 "payments")
  = inr (commit sample_db
           (insert 20240301 sample_db PaymentOrder
                   (new_payment_order 1 500 "payments")))
  /\ In status_column (columns PaymentOrder)
  /\ exists r,
       commit sample_db
         (insert 20240301 sample_db PaymentOrder
                 (new_payment_order 1 500 "payments")) PaymentOrder
       = (sample_db PaymentOrder ++ [r])%list
       /\ get "status" r = VStr "PENDING".
Proof.
  assert (Hins : insert 20240301 sample_db PaymentOrder
                        (new_payment_order 1 500 "payments")
                 = inr (commit sample_db
                          (insert 20240301 sample_db PaymentOrder
                                  (new_payment_order 1 500 "payments"))))
    by (vm_compute; reflexivity).
  assert (Hc : In status_column (columns PaymentOrder)) by in_list.
  split; [exact Hins|]. split; [exact Hc|].
  exact (unset_attributes_get_defaults 20240301 sample_db _ PaymentOrder
           (new_payment_order 1 500 "payments") status_column Hins Hc
           eq_refl).
Defined.


(** A second equity position of customer 2 in the same ticker never fails
    on a unique key. *)
Lemma no_other_unique_key_witness :
  PositionEquity <> CustomerCore /\ PositionEquity <> Card
  /\ PositionEquity <> AccountBalance
  /\ get "id" (new_equity_position 2 "PETR4" 10000000000 385000) = VNull
  /\ forall key,
       insert 20240301 sample_db PositionEquity
              (new_equity_position 2 "PETR4" 10000000000 385000)
       <> inl (UniqueViolation key).
Proof.
  assert (H1 : PositionEquity <> CustomerCore) by discriminate.
  assert (H2 : PositionEquity <> Card) by discriminate.
  assert (H3 : PositionEquity <> AccountBalance) by discriminate.
  split; [exact H1|]. split; [exact H2|]. split; [exact H3|].
  split; [reflexivity|].
  exact (no_other_unique_key 20240301 sample_db PositionEquity
           (new_equity_position 2 "PETR4" 10000000000 385000) H1 H2 H3
           eq_refl).
Defined.

(** Through the ORM, deleting invoice 1 of [sample_db] deletes the card
    transaction billed on it. *)
Lemma orm_cascade_deletes_children_witness :
  In (hd [] (sample_db CardInvoice)) (sample_db CardInvoice)
  /\ In invoice_transactions (relationships CardInvoice)
  /\ rel_fkey CardInvoice invoice_transactions = Some transaction_invoice_fk
  /\ In (hd [] (sample_db CardTransaction)) (sample_db CardTransaction)
  /\ get "invoice_id" (hd [] (sample_db CardTransaction)) = VInt 1
  /\ forall y, In y (session_delete sample_db CardInvoice 1 CardTransaction) ->
               get "id" y <> get "id" (hd [] (sample_db CardTransaction)).
Proof.
  assert (Hr : In (hd [] (sample_db CardInvoice)) (sample_db CardInvoice))
    by in_list.
  assert (Hid : get "id" (hd [] (sample_db CardInvoice)) = VInt 1)
    by (vm_compute; reflexivity).
  assert (Hrel : In invoice_transactions (relationships CardInvoice))
    by in_list.
  assert (Hk : rel_fkey CardInvoice invoice_transactions
               = Some transaction_invoice_fk) by reflexivity.
  assert (Hx : In (hd [] (sample_db CardTransaction))
                  (sample_db CardTransaction)) by in_list.
  assert (Hl : get "invoice_id" (hd [] (sample_db CardTransaction)) = VInt 1)
    by (vm_compute; reflexivity).
  assert (Hnn : get "id" (hd [] (sample_db CardTransaction)) <> VNull)
    by (vm_compute; discriminate).
  split; [exact Hr|]. split; [exact Hrel|]. split; [exact Hk|].
  split; [exact Hx|]. split; [exact Hl|].
  exact (orm_cascade_deletes_children sample_db CardInvoice 1 _
           invoice_transactions transaction_invoice_fk _ Hr Hid Hrel
           eq_refl Hk Hx Hl Hnn).
Defined.

(** The unit of work that deletes customer 1 of [sample_db] does not
    collect the customer's fixed-income position. *)
Lemma orm_cascade_skips_investments_witness :
  PositionFixedIncome <> CustomerCore
  /\ In PositionFixedIncome
        [PositionFixedIncome; PositionEquity; PositionTreasury;
         InvestmentMovement]
  /\ ~ In (PositionFixedIncome, hd [] (sample_db PositionFixedIncome))
          (cascade_iterator (List.length all_models) sample_db CustomerCore
                            customer_1).
Proof.
  assert (H1 : PositionFixedIncome <> CustomerCore) by discriminate.
  assert (H2 : In PositionFixedIncome
                  [PositionFixedIncome; PositionEquity; PositionTreasury;
                   InvestmentMovement]) by (left; reflexivity).
  split; [exact H1|]. split; [exact H2|].
  exact (orm_cascade_skips_investments _ sample_db CustomerCore
           PositionFixedIncome customer_1 _ H1 H2).
Defined.

(** The foreign key of a card transaction to its invoice. *)
Lemma foreign_keys_resolve_witness :
  In invoice_id_column (columns CardTransaction)
  /\ foreign_key invoice_id_column
     = Some {| fk_table := "card_invoices"; fk_column := "id";
               ondelete := SET_NULL |}
  /\ model_of_table "card_invoices" = Some CardInvoice
  /\ nullable invoice_id_column = true
  /\ In transaction_invoice_fk (foreign_keys_of CardTransaction).
Proof.
  assert (Hc : In invoice_id_column (columns CardTransaction)) by in_list.
  split; [exact Hc|]. split; [reflexivity|].
  destruct (foreign_keys_resolve CardTransaction invoice_id_column _ Hc
              eq_refl)
    as (p & pk & Hp & _ & _ & _ & _ & _ & _ & _ & Hnull & Hin).
  split; [reflexivity|]. split; [exact Hnull|].
  cbn in Hp. injection Hp as <-. exact Hin.
Defined.

(** [CardInvoice.transactions] and [CardTransaction.invoice]. *)
Lemma relationships_pair_up_witness :
  In invoice_transactions (relationships CardInvoice)
  /\ (exists rel', In rel' (relationships CardTransaction)
                   /\ rel_key rel' = "invoice"
                   /\ rel_argument rel' = CardInvoice
                   /\ back_populates rel' = Some "transactions")
  /\ exists k, rel_fkey CardInvoice invoice_transactions = Some k
               /\ fk_child k = CardTransaction /\ fk_parent k = CardInvoice.
Proof.
  assert (Hrel : In invoice_transactions (relationships CardInvoice))
    by in_list.
  destruct (relationships_pair_up CardInvoice invoice_transactions Hrel)
    as (Hback & _ & Hjoin).
  split; [exact Hrel|]. split.
  - exact (Hback "invoice" eq_refl).
  - exact (Hjoin eq_refl).
Defined.

(** The status of a payment order is required: assigning None to the
    status of payment order 1 of [sample_db] is refused. *)
Lemma required_attributes_witness :
  In status_column (columns PaymentOrder)
  /\ nullable status_column = false
  /\ (update sample_db PaymentOrder 1 "status" VNull = inl NoSuchRow
      \/ update sample_db PaymentOrder 1 "status" VNull
         = inl (NotNullViolation "status")).
Proof.
  assert (Hc : In status_column (columns PaymentOrder)) by in_list.
  split; [exact Hc|]. split; [reflexivity|].
  exact (proj1 (proj2 (required_attributes 20240301 sample_db PaymentOrder
                         status_column Hc eq_refl)) 1).
Defined.

(** The DELETE of invoice 1 of [sample_db] keeps card transaction 1, with
    its link cleared and nothing else changed. *)
Lemma delete_rewrites_only_invoice_links_witness :
  In (set "invoice_id" VNull (hd [] (sample_db CardTransaction)))
     (delete sample_db CardInvoice 1 CardTransaction)
  /\ exists r,
       In r (sample_db CardTransaction)
       /\ forall c,
            get c (set "invoice_id" VNull (hd [] (sample_db CardTransaction)))
            = get c r
            \/ (CardTransaction = CardTransaction /\ c = "invoice_id"
                /\ get c (set "invoice_id" VNull
                              (hd [] (sample_db CardTransaction))) = VNull).
Proof.
  assert (Hin : In (set "invoice_id" VNull (hd [] (sample_db CardTransaction)))
                   (delete sample_db CardInvoice 1 CardTransaction))
    by in_list.
  split; [exact Hin|].
  exact (delete_rewrites_only_invoice_links sample_db CardInvoice 1
           CardTransaction _ (or_introl Hin)).
Defined.

(** Customer 2 of [sample_db] cannot take the tax id of customer 1. *)
Lemma update_rejects_duplicate_witness :
  In ["tax_id"] (unique_keys CustomerCore)
  /\ find (has_id 2) (sample_db CustomerCore)
     = Some (customer_row 2 "987.654.321-00")
  /\ In customer_1 (sample_db CustomerCore)
  /\ exists e, update sample_db CustomerCore 2 "tax_id"
                      (VStr "123.456.789-00") = inl e.
Proof.
  assert (Hkey : In ["tax_id"] (unique_keys CustomerCore)) by in_list.
  assert (Hold : find (has_id 2) (sample_db CustomerCore)
                 = Some (customer_row 2 "987.654.321-00"))
    by (vm_compute; reflexivity).
  assert (Hr0 : In customer_1 (sample_db CustomerCore)) by in_list.
  assert (Hid : get "id" customer_1 <> VInt 2) by discriminate.
  split; [exact Hkey|]. split; [exact Hold|]. split; [exact Hr0|].
  apply (update_rejects_duplicate sample_db CustomerCore 2 "tax_id"
           (VStr "123.456.789-00") ["tax_id"]
           (customer_row 2 "987.654.321-00") customer_1 Hkey Hold Hr0 Hid).
  - discriminate.
  - intros c' [<-|[]]. split; [reflexivity|discriminate].
Defined.

(** The defaults the schema declares: a constant for six columns, the time
    of the flush for sixteen. *)
Example declared_defaults_listed :
  declared_defaults
  = [ (CustomerCore, "pep_flag", Const (VBool false));
      (CustomerContact, "created_at", UtcNow);
      (Account, "created_at", UtcNow);
      (AccountBalance, "as_of", UtcNow);
      (AccountTransaction, "currency", Const (VStr "BRL"));
      (AccountTransaction, "created_at", UtcNow);
      (Card, "created_at", UtcNow);
      (CardInvoice, "created_at", UtcNow);
      (CardTransaction, "currency", Const (VStr "BRL"));
      (CardTransaction, "created_at", UtcNow);
      (CreditContract, "balloon", Const (VBool false));
      (CreditContract, "created_at", UtcNow);
      (CreditSchedule, "status", Const (VStr "due"));
      (CreditSchedule, "created_at", UtcNow);
      (Collateral, "created_at", UtcNow);
      (InvestmentMovement, "created_at", UtcNow);
      (FxOperation, "created_at", UtcNow);
      (Consent, "granted_at", UtcNow);
      (ConsentScope, "created_at", UtcNow);
      (PaymentOrder, "currency", Const (VStr "BRL"));
      (PaymentOrder, "status", Const (VEnum (mPaymentStatus PENDING)));
      (PaymentOrder, "created_at", UtcNow) ].
Proof. reflexivity. Qed.

(** The sixteen relationships that cascade deletion, each with the class
    and the column it joins on. *)
Example delete_cascades_listed :
  delete_cascades
  = [ (CustomerCore, "contacts", CustomerContact, "customer_id");
      (CustomerCore, "accounts", Account, "customer_id");
      (CustomerCore, "cards", Card, "customer_id");
      (CustomerCore, "credit_contracts", CreditContract, "customer_id");
      (CustomerCore, "investment_positions", PositionFund, "customer_id");
      (CustomerCore, "fx_operations", FxOperation, "customer_id");
      (CustomerCore, "consents", Consent, "customer_id");
      (CustomerCore, "payment_orders", PaymentOrder, "customer_id");
      (Account, "balances", AccountBalance, "account_id");
      (Account, "transactions", AccountTransaction, "account_id");
      (Card, "invoices", CardInvoice, "card_id");
      (Card, "transactions", CardTransaction, "card_id");
      (CardInvoice, "transactions", CardTransaction, "invoice_id");
      (CreditContract, "schedules", CreditSchedule, "contract_id");
      (CreditContract, "collaterals", Collateral, "contract_id");
      (Consent, "scopes", ConsentScope, "consent_id") ].
Proof. vm_compute. reflexivity. Qed.

(** What SQLite does with the declared sizes.  It does not enforce the
    length of a [String(32)]: a movement type of 34 characters is stored.
    It holds a [Numeric(18, 2)] as a float: 1234.50 reads back as written,
    and 1234567890123456.78 as 1234567890123456.75.  A length is counted in
    characters: the two bytes of a character beyond ASCII count once. *)
Example sizes_on_sqlite :
  string_fits 32 "dividend-reinvestment-in-kind-2024" = false
  /\ store_value (Column "movement_type" (String 32) <| with_nullable false)
                 (VStr "dividend-reinvestment-in-kind-2024")
     = inr (VStr "dividend-reinvestment-in-kind-2024")
  /\ result_processor (Numeric 18 2) (VDec 123450) = Some (VDec 123450)
  /\ result_processor (Numeric 18 2) (VDec 123456789012345678)
     = Some (VDec 123456789012345675)
  /\ String.length (String.String "195" (String.String "163" "o")) = 3%nat
  /\ utf8_length (String.String "195" (String.String "163" "o")) = 2%nat.
Proof. vm_compute. repeat split. Qed.
